(** * DayZ server manager: process supervisor, RCON client and mod queue

    A shallow embedding of the three stateful services of the main
    process:

    - [RCON]          the UDP remote-console client (class RCONManager),
    - [ServerControl] the server process supervisor (src/main/serverControl.js),
    - [ModQueue]      the mod download queue (class ModQueue).

    Every JavaScript method becomes a function on an explicit state record.
    What the method does to the outside (socket, child processes, timers,
    promise callbacks, emitted events) is kept as data in the state, so that
    statements about "what was called" are statements about lists. *)

From Stdlib Require Import ZArith Lia SpecFloat.
From stdpp Require Import base option list strings gmap pretty.

Local Open Scope Z_scope.
Local Open Scope string_scope.

(** ** RCON client *)

Module RCON.

(** The two places that register a [{resolve, reject}] pair in
    [pendingRequests]: [authenticate] and [sendCommand]. *)
Inductive Origin := FromAuthenticate | FromSendCommand.

(** A [{resolve, reject}] entry.  Both closures capture the promise they
    settle and the timeout handle they clear. *)
Record Pending := mkPending {
  origin : Origin;
  promise : nat;
  timeout : nat
}.

(** Error objects, by message. *)
Inductive Error :=
| NotConnected          (* 'Not connected to RCON server' *)
| AuthTimeout           (* 'RCON authentication timeout' *)
| AuthFailed            (* 'RCON authentication failed' *)
| CommandTimeout        (* 'RCON command timeout' *)
| ConnectionError       (* 'RCON connection error' *)
| SendError (msg : string).

Definition message (e : Error) : string :=
  match e with
  | NotConnected => "Not connected to RCON server"
  | AuthTimeout => "RCON authentication timeout"
  | AuthFailed => "RCON authentication failed"
  | CommandTimeout => "RCON command timeout"
  | ConnectionError => "RCON connection error"
  | SendError msg => msg
  end.

(** What a method does besides updating the fields of [this]. *)
Inductive Effect :=
| SocketClose
| SocketSend (requestId : Z) (payload : string)
| SetTimeout (t : nat) (ms : Z)
| ClearTimeout (t : nat)
| Resolve (p : nat) (value : option string)
| Reject (p : nat) (e : Error)
| LogUnsolicited (response : string).

(** [this.pendingRequests] is a JavaScript [Map]: keys are unique and
    iteration follows insertion order, so it is kept as an association
    list. *)
Definition PendingMap := list (Z * Pending).

Fixpoint map_get (k : Z) (m : PendingMap) : option Pending :=
  match m with
  | [] => None
  | (k', v) :: m' => if Z.eqb k k' then Some v else map_get k m'
  end.

Fixpoint map_delete (k : Z) (m : PendingMap) : PendingMap :=
  match m with
  | [] => []
  | (k', v) :: m' => if Z.eqb k k' then m' else (k', v) :: map_delete k m'
  end.

Fixpoint map_set (k : Z) (v : Pending) (m : PendingMap) : PendingMap :=
  match m with
  | [] => [(k, v)]
  | (k', v') :: m' =>
      if Z.eqb k k' then (k, v) :: m' else (k', v') :: map_set k v m'
  end.

Record State := mkState {
  socket : option nat;
  host : string;
  port : Z;
  password : string;
  isConnected : bool;
  requestId : Z;
  pendingRequests : PendingMap
}.

(** The constructor. *)
Definition init : State :=
  {| socket := None; host := "127.0.0.1"; port := 2302; password := "";
     isConnected := false; requestId := 0; pendingRequests := [] |}.

(** [getNextRequestId]:
    [this.requestId = (this.requestId + 1) % 0xFFFFFFFF; return this.requestId]. *)
Definition getNextRequestId (s : State) : Z * State :=
  let r := (requestId s + 1) mod 4294967295 in
  (r, {| socket := socket s; host := host s; port := port s;
         password := password s; isConnected := isConnected s;
         requestId := r; pendingRequests := pendingRequests s |}).

(** The [resolve] closure of an entry, called with the response text. *)
Definition call_resolve (ok_marker : string -> bool) (p : Pending)
    (response : string) : list Effect :=
  match origin p with
  | FromSendCommand => [ClearTimeout (timeout p); Resolve (promise p) (Some response)]
  | FromAuthenticate =>
      [ClearTimeout (timeout p);
       if ok_marker response then Resolve (promise p) None
       else Reject (promise p) AuthFailed]
  end.

(** The [reject] closure of an entry: [clearTimeout(timeout); reject(error)]. *)
Definition call_reject (p : Pending) (e : Error) : list Effect :=
  [ClearTimeout (timeout p); Reject (promise p) e].

(** [sendCommand(command)], up to the point where the promise is
    returned.  [p] and [t] are the fresh promise and timer handles. *)
Definition sendCommand (p t : nat) (command : string) (s : State)
    : (Error + unit) * State * list Effect :=
  if negb (isConnected s) || negb (bool_decide (is_Some (socket s))) then
    (inl NotConnected, s, [])
  else
    let '(rid, s1) := getNextRequestId s in
    let entry := {| origin := FromSendCommand; promise := p; timeout := t |} in
    (inr tt,
     {| socket := socket s1; host := host s1; port := port s1;
        password := password s1; isConnected := isConnected s1;
        requestId := requestId s1;
        pendingRequests := map_set rid entry (pendingRequests s1) |},
     [SetTimeout t 10000; SocketSend rid command]).

(** The timer armed by [sendCommand] fires:
    [this.pendingRequests.delete(requestId); reject(new Error('RCON command timeout'))]. *)
Definition commandTimeout (rid : Z) (p : nat) (s : State) : State * list Effect :=
  ({| socket := socket s; host := host s; port := port s;
      password := password s; isConnected := isConnected s;
      requestId := requestId s;
      pendingRequests := map_delete rid (pendingRequests s) |},
   [Reject p CommandTimeout]).

(** [handleMessage(msg)] for a datagram of at least four bytes, already
    split into its request id and trimmed text. *)
Definition handleMessage (ok_marker : string -> bool) (rid : Z)
    (response : string) (s : State) : State * list Effect :=
  match map_get rid (pendingRequests s) with
  | Some pending =>
      ({| socket := socket s; host := host s; port := port s;
          password := password s; isConnected := isConnected s;
          requestId := requestId s;
          pendingRequests := map_delete rid (pendingRequests s) |},
       call_resolve ok_marker pending response)
  | None => (s, [LogUnsolicited response])
  end.

(** The socket's ['error'] listener installed by [connect]: clears the
    flag and rejects every pending entry before clearing the map. *)
Definition onSocketError (s : State) : State * list Effect :=
  ({| socket := socket s; host := host s; port := port s;
      password := password s; isConnected := false;
      requestId := requestId s; pendingRequests := [] |},
   flat_map (fun kv => call_reject (snd kv) ConnectionError) (pendingRequests s)).

(** [disconnect()]:
    [if (this.socket) { this.socket.close(); this.socket = null; }
     this.isConnected = false; this.pendingRequests.clear();] *)
Definition disconnect (s : State) : State * list Effect :=
  ({| socket := None; host := host s; port := port s;
      password := password s; isConnected := false;
      requestId := requestId s; pendingRequests := [] |},
   match socket s with Some _ => [SocketClose] | None => [] end).

(** [getStatus()]. *)
Record Status := mkStatus {
  connected : bool; st_host : string; st_port : Z; hasPassword : bool
}.

Definition getStatus (s : State) : Status :=
  {| connected := isConnected s; st_host := host s; st_port := port s;
     hasPassword := negb (String.eqb (password s) "") |}.

(** The promises an effect list settles. *)
Definition settled (effs : list Effect) : list nat :=
  flat_map (fun e => match e with
                     | Resolve p _ | Reject p _ => [p]
                     | _ => []
                     end) effs.

(** The promises an effect list rejects, with the error. *)
Definition rejected (effs : list Effect) : list (nat * Error) :=
  flat_map (fun e => match e with
                     | Reject p err => [(p, err)]
                     | _ => []
                     end) effs.

(** A connected session with two commands in flight (promises 0 and 1,
    timers 10 and 11). *)
Definition connected_session : State :=
  {| socket := Some 0%nat; host := "127.0.0.1"; port := 2302;
     password := "secret"; isConnected := true; requestId := 1;
     pendingRequests := [] |}.

Definition two_in_flight : State :=
  let '(_, s1, _) := sendCommand 0 10 "#players" connected_session in
  let '(_, s2, _) := sendCommand 1 11 "#say hello" s1 in
  s2.

(** *** The wire format and the remaining methods *)

(** [Buffer.writeUInt32BE(value, 0)] on a 4-byte buffer: the four bytes,
    most significant first; values outside 0 .. 2^32 - 1 throw. *)
Definition writeUInt32BE (value : Z) : option (list Z) :=
  if (0 <=? value)%Z && (value <=? 4294967295)%Z then
    Some [value / 16777216 mod 256; value / 65536 mod 256;
          value / 256 mod 256; value mod 256]
  else None.

(** [msg.readUInt32BE(0)] on a buffer of at least four bytes. *)
Definition readUInt32BE (msg : list Z) : Z :=
  match msg with
  | b0 :: b1 :: b2 :: b3 :: _ => ((b0 * 256 + b1) * 256 + b2) * 256 + b3
  | _ => 0
  end.

(** The datagram built by [sendMessage]:
    [Buffer.concat([idBuffer, buffer])]. *)
Definition packet (requestId : Z) (buffer : list Z) : option (list Z) :=
  idBuffer ← writeUInt32BE requestId; Some (idBuffer ++ buffer)%list.

(** The failure path of [sendMessage] (the [catch] block and the error
    argument of the send callback): the entry, if still pending, is
    deleted and its [reject] called. *)
Definition sendFailed (rid : Z) (msg : string) (s : State) : State * list Effect :=
  match map_get rid (pendingRequests s) with
  | Some pending =>
      ({| socket := socket s; host := host s; port := port s;
          password := password s; isConnected := isConnected s;
          requestId := requestId s;
          pendingRequests := map_delete rid (pendingRequests s) |},
       call_reject pending (SendError msg))
  | None => (s, [])
  end.

(** [handleMessage(msg)] on the raw datagram: shorter than four bytes it
    is ignored; [text] stands for [.toString('utf-8').trim()]. *)
Definition handleDatagram (ok_marker : string -> bool) (text : list Z -> string)
    (msg : list Z) (s : State) : State * list Effect :=
  if (length msg <? 4)%nat then (s, [])
  else handleMessage ok_marker (readUInt32BE msg) (text (drop 4 msg)) s.

(** [haystack.includes(needle)]. *)
Fixpoint includes (needle haystack : string) : bool :=
  String.prefix needle haystack
  || match haystack with
     | EmptyString => false
     | String _ rest => includes needle rest
     end.

(** [response && response.includes('OK')]. *)
Definition auth_ok (response : string) : bool := includes "OK" response.

(** [authenticate()], up to the point where the promise is returned. *)
Definition authenticate (p t : nat) (s : State) : State * list Effect :=
  let '(rid, s1) := getNextRequestId s in
  let entry := {| origin := FromAuthenticate; promise := p; timeout := t |} in
  ({| socket := socket s1; host := host s1; port := port s1;
      password := password s1; isConnected := isConnected s1;
      requestId := requestId s1;
      pendingRequests := map_set rid entry (pendingRequests s1) |},
   [SetTimeout t 5000; SocketSend rid ("BE" +:+ password s)]).

(** The timer armed by [authenticate] fires:
    [reject(new Error('RCON authentication timeout'))]; the entry stays
    in the map. *)
Definition authTimeout (p : nat) (s : State) : State * list Effect :=
  (s, [Reject p AuthTimeout]).

(** [connect(host, port, password)] in its three stages: the synchronous
    part up to [socket.bind]; the [then] branch after authentication; the
    [catch] branch.  [reconnectAttempts] is written but never read and is
    left out. *)
Definition or_string (a : option string) (b : string) : string :=
  match a with
  | Some x => if String.eqb x "" then b else x
  | None => b
  end.

Definition or_port (a : option Z) (b : Z) : Z :=
  match a with
  | Some x => if (x =? 0)%Z then b else x
  | None => b
  end.

Definition connect_open (h : option string) (prt : option Z)
    (pw : option string) (sock : nat) (s : State) : State * list Effect :=
  let s0 := {| socket := socket s; host := or_string h "127.0.0.1";
               port := or_port prt 2302; password := or_string pw "";
               isConnected := isConnected s; requestId := requestId s;
               pendingRequests := pendingRequests s |} in
  let '(s1, effs) := if isConnected s0 then disconnect s0 else (s0, []) in
  ({| socket := Some sock; host := host s1; port := port s1;
      password := password s1; isConnected := isConnected s1;
      requestId := requestId s1; pendingRequests := pendingRequests s1 |},
   effs).

Definition connect_authenticated (s : State) : State :=
  {| socket := socket s; host := host s; port := port s;
     password := password s; isConnected := true;
     requestId := requestId s; pendingRequests := pendingRequests s |}.

Definition connect_failed (s : State) : State * list Effect := disconnect s.

(** The keys of a JavaScript [Map] are distinct. *)
Definition keys_distinct (s : State) : Prop :=
  NoDup (map fst (pendingRequests s)).

End RCON.


(** ** Server process supervisor

    The supervisor's fields are the record [State]; child processes,
    signals, shell commands and pending timers are the record [World].
    First each method is given as one function: the outcome of a call
    during which nothing else runs, what happens at its [await]s (the
    500 ms wait after spawn, the 2 s pause of a restart) being the
    answers of the operating system in [StartObs].  The timer armed by
    [stopServer] is not run inside the method; it stays in [timers] and
    is run by [fire_timeout].  The last part of the module, "The
    supervisor between its awaits", is the transition system in which
    calls, events and timers interleave at every [await]. *)

Module ServerControl.

Inductive Platform := win32 | posix.

Inductive Signal := SIGTERM | SIGKILL.

(** A Node [ChildProcess] object, reduced to what the supervisor reads:
    [pid] ([None] is [undefined]) and [killed], which Node sets once
    [kill()] has delivered a signal.  [exited] is the operating system's
    side: the process is gone and signals can no longer be delivered. *)
Record ChildProcess := mkChild {
  pid : option Z;
  killed : bool;
  exited : bool
}.

(** [setTimeout] callbacks waiting to run.  The only one the supervisor
    arms is the SIGKILL escalation of [stopServer]; its closure captures
    [this] and nothing else.  [armed_for] remembers which child had just
    been sent SIGTERM; it is bookkeeping for the statements below and is
    never read by the callback. *)
Inductive Timeout := Escalation (armed_for : nat) (ms : Z).

(** A file-system path as the supervisor builds it.  [path.join] is
    Node's, not this repository's: what it returns (which separator,
    how the segments are normalised) is not interpreted here, and a
    joined path stays the term of the call that made it. *)
Inductive Path :=
| Plain (p : string)                          (* a string as the caller gave it *)
| path_join (base : Path) (segment : string). (* [path.join(base, segment)] *)

(** Calls into the operating system, oldest first. *)
Inductive OsCall :=
| EnsureDir (path : Path)
| Spawn (command : Path) (args : list string) (cwd : string)
| Kill (h : nat) (sig : Signal)
| Exec (command : string).

Record World := mkWorld {
  procs : list ChildProcess;      (* every child object, by handle *)
  calls : list OsCall;
  timers : list Timeout;
  next_timer : nat
}.

Module Restart.
(** An entry of [this.scheduledRestarts]; [time] is the trigger
    instant in milliseconds, as [new Date(restart.time)] reads it. *)
Record t := mk {
  id : string;
  time : Z;
  serverPath : string;
  profileName : string;
  parameters : list string;
  executed : bool
}.

Definition mark (r : t) : t :=
  {| id := id r; time := time r; serverPath := serverPath r;
     profileName := profileName r; parameters := parameters r;
     executed := true |}.
End Restart.

Record State := mkState {
  serverProcess : option nat;
  serverPath : option string;
  isRunning : bool;
  monitoringInterval : option nat;
  scheduledRestarts : list Restart.t
}.

Definition init : State :=
  {| serverProcess := None; serverPath := None; isRunning := false;
     monitoringInterval := None; scheduledRestarts := [] |}.

Definition set_serverProcess (p : option nat) (s : State) : State :=
  {| serverProcess := p; serverPath := serverPath s; isRunning := isRunning s;
     monitoringInterval := monitoringInterval s;
     scheduledRestarts := scheduledRestarts s |}.

Definition set_serverPath (p : option string) (s : State) : State :=
  {| serverProcess := serverProcess s; serverPath := p; isRunning := isRunning s;
     monitoringInterval := monitoringInterval s;
     scheduledRestarts := scheduledRestarts s |}.

Definition set_isRunning (b : bool) (s : State) : State :=
  {| serverProcess := serverProcess s; serverPath := serverPath s; isRunning := b;
     monitoringInterval := monitoringInterval s;
     scheduledRestarts := scheduledRestarts s |}.

Definition set_monitoringInterval (i : option nat) (s : State) : State :=
  {| serverProcess := serverProcess s; serverPath := serverPath s;
     isRunning := isRunning s; monitoringInterval := i;
     scheduledRestarts := scheduledRestarts s |}.

Definition set_scheduledRestarts (l : list Restart.t) (s : State) : State :=
  {| serverProcess := serverProcess s; serverPath := serverPath s;
     isRunning := isRunning s; monitoringInterval := monitoringInterval s;
     scheduledRestarts := l |}.

Definition log_call (c : OsCall) (w : World) : World :=
  {| procs := procs w; calls := calls w ++ [c]; timers := timers w;
     next_timer := next_timer w |}.

Definition set_procs (l : list ChildProcess) (w : World) : World :=
  {| procs := l; calls := calls w; timers := timers w;
     next_timer := next_timer w |}.

Definition arm (t : Timeout) (w : World) : World :=
  {| procs := procs w; calls := calls w; timers := timers w ++ [t];
     next_timer := next_timer w |}.

(** [child.pid] of the child behind a handle. *)
Definition pid_of (w : World) (h : nat) : option Z :=
  match procs w !! h with Some c => pid c | None => None end.

(** JavaScript truthiness of [child.pid]: a number other than 0. *)
Definition truthy_pid (p : option Z) : bool :=
  match p with Some n => negb (n =? 0)%Z | None => false end.

Definition killed_of (w : World) (h : nat) : bool :=
  match procs w !! h with Some c => killed c | None => false end.

(** [child.kill(sig)]: the call is made; when the child was spawned and
    has not exited the signal is delivered and [killed] becomes true. *)
Definition kill (h : nat) (sig : Signal) (w : World) : World :=
  let w1 := log_call (Kill h sig) w in
  match procs w !! h with
  | Some c =>
      if bool_decide (is_Some (pid c)) && negb (exited c) then
        set_procs (<[h := {| pid := pid c; killed := true; exited := exited c |}]> (procs w)) w1
      else w1
  | None => w1
  end.

(** Error objects, by the message the code builds. *)
Inductive Cause :=
| PathNotFound (path : string)     (* `Server path does not exist: ${serverPath}` *)
| FsError (msg : string)           (* thrown by fs.ensureDir / fs.readdir *)
| ExecutableNotFound (exe : Path)  (* `Server executable not found at: ${serverExe}` *)
| SpawnThrew (msg : string)        (* thrown by spawn itself *)
| SpawnFailed (msg : string)       (* `Failed to spawn server process: ${processError.message}` *)
| ProcessNull                      (* 'Server process is null after spawn' *)
| KilledImmediately                (* 'Server process was killed immediately after start' *)
| NoPid.                           (* 'Server process did not start (no PID assigned)' *)

Inductive Error :=
| AlreadyRunning                   (* 'Server is already running' *)
| ProcessAlreadyExists             (* 'Server process already exists' *)
| FailedToStart (c : Cause)        (* `Failed to start server: ${error.message}` *)
| NotRunning.                      (* 'Server is not running' *)

(** Both guards at the top of [startServer] are the AlreadyRunning
    failure of the specification. *)
Definition is_AlreadyRunning (e : Error) : bool :=
  match e with
  | AlreadyRunning | ProcessAlreadyExists => true
  | _ => false
  end.

Inductive Success :=
| Started (p : option Z)           (* { success: true, pid, message } *)
| Stopped                          (* { success: true, message } *)
| RestartIn (countdown : Z).       (* { success: true, countdown, message } *)

Definition Outcome : Type := (Error + Success) * State * World.

(** What the operating system answers during one call of [startServer]. *)
Record StartObs := mkObs {
  serverPath_exists : bool;          (* fs.pathExists(serverPath) *)
  ensureDir_error : option string;   (* fs.ensureDir(profilePath) throws *)
  serverExe_exists : bool;           (* fs.pathExists(serverExe) *)
  readdir_error : option string;     (* fs.readdir(serverPath) throws *)
  spawn_throws : option string;      (* spawn(...) throws synchronously *)
  child_pid : option Z;              (* pid of the new child *)
  error_event : option string        (* 'error' fires within the 500 ms wait *)
}.

(** [getServerExecutable(serverPath)]. *)
Definition getServerExecutable (plat : Platform) (serverPath : string) : Path :=
  match plat with
  | win32 => path_join (Plain serverPath) "DayZServer_x64.exe"
  | posix => path_join (Plain serverPath) "DayZServer"
  end.

(** [startMonitoring()] and [stopMonitoring()]. *)
Definition startMonitoring (s : State) (w : World) : State * World :=
  match monitoringInterval s with
  | Some _ => (s, w)
  | None =>
      (set_monitoringInterval (Some (next_timer w)) s,
       {| procs := procs w; calls := calls w; timers := timers w;
          next_timer := S (next_timer w) |})
  end.

Definition stopMonitoring (s : State) : State :=
  match monitoringInterval s with
  | Some _ => set_monitoringInterval None s
  | None => s
  end.

(** The argument list: the five default parameters, then the caller's
    parameters without any [-profiles=] one. *)
Definition build_args (profileName : string) (parameters : list string)
    : list string :=
  ["-config=serverDZ.cfg"; "-profiles=" +:+ profileName; "-dologs";
   "-adminlog"; "-netlog"]
  ++ filter (fun param => String.prefix "-profiles=" param = false) parameters.

(** The body of the [try] block of [startServer]. *)
Definition start_body (plat : Platform) (o : StartObs)
    (path profileName : string) (parameters : list string)
    (s : State) (w : World) : (Cause + option Z) * State * World :=
  if negb (serverPath_exists o) then (inl (PathNotFound path), s, w) else
  let profilePath :=
    path_join (path_join (Plain path) "profiles") profileName in
  let w := log_call (EnsureDir profilePath) w in
  match ensureDir_error o with
  | Some msg => (inl (FsError msg), s, w)
  | None =>
    let serverExe := getServerExecutable plat path in
    if negb (serverExe_exists o) then
      match readdir_error o with
      | Some msg => (inl (FsError msg), s, w)
      | None => (inl (ExecutableNotFound serverExe), s, w)
      end
    else
    let w := log_call (Spawn serverExe (build_args profileName parameters) path) w in
    match spawn_throws o with
    | Some msg => (inl (SpawnThrew msg), s, w)
    | None =>
      (* this.serverProcess = spawn(...) *)
      let h := length (procs w) in
      let w := set_procs (procs w ++ [{| pid := child_pid o; killed := false;
                                         exited := false |}]) w in
      let s := set_serverProcess (Some h) s in
      (* the 500 ms wait, during which the 'error' listener may run *)
      let s := match error_event o with
               | Some _ => set_serverProcess None (set_isRunning false s)
               | None => s
               end in
      match error_event o with
      | Some msg => (inl (SpawnFailed msg), s, w)
      | None =>
        match serverProcess s with
        | None => (inl ProcessNull, s, w)
        | Some h' =>
          if killed_of w h' then (inl KilledImmediately, s, w)
          else if negb (truthy_pid (pid_of w h')) then (inl NoPid, s, w)
          else
            let s := set_isRunning true (set_serverPath (Some path) s) in
            let '(s, w) := startMonitoring s w in
            (inr (pid_of w h'), s, w)
        end
      end
    end
  end.

(** The [catch] block of [startServer]. *)
Definition start_catch (c : Cause) (s : State) (w : World) : Outcome :=
  let s := set_isRunning false s in
  match serverProcess s with
  | Some h => (inl (FailedToStart c), set_serverProcess None s, kill h SIGTERM w)
  | None => (inl (FailedToStart c), s, w)
  end.

(** [startServer(serverPath, profileName, parameters)]. *)
Definition startServer (plat : Platform) (o : StartObs)
    (path profileName : string) (parameters : list string)
    (s : State) (w : World) : Outcome :=
  if isRunning s then (inl AlreadyRunning, s, w) else
  if match serverProcess s with
     | Some h => truthy_pid (pid_of w h)
     | None => false
     end
  then (inl ProcessAlreadyExists, s, w) else
  match start_body plat o path profileName parameters s w with
  | (inr p, s', w') => (inr (Started p), s', w')
  | (inl c, s', w') => start_catch c s' w'
  end.

(** Decimal text of a pid inside the taskkill command line. *)
Definition pid_text (p : option Z) : string :=
  match p with Some n => pretty n | None => "undefined" end.

(** [stopServer()]. *)
Definition stopServer (plat : Platform) (s : State) (w : World) : Outcome :=
  match isRunning s, serverProcess s with
  | true, Some h =>
      let s := stopMonitoring s in
      let w :=
        match plat with
        | win32 => log_call (Exec ("taskkill /PID " +:+ pid_text (pid_of w h) +:+ " /T /F")) w
        | posix => arm (Escalation h 5000) (kill h SIGTERM w)
        end in
      (inr Stopped, set_serverProcess None (set_isRunning false s), w)
  | _, _ => (inl NotRunning, s, w)
  end.

(** The callback armed by [stopServer] on the non-Windows branch, run
    against the supervisor's fields as they are when the timer fires:
    [if (this.serverProcess && !this.serverProcess.killed)
       this.serverProcess.kill('SIGKILL')]. *)
Definition escalate (s : State) (w : World) : World :=
  match serverProcess s with
  | Some h => if negb (killed_of w h) then kill h SIGKILL w else w
  | None => w
  end.

(** The oldest pending timeout fires. *)
Definition fire_timeout (s : State) (w : World) : World :=
  match timers w with
  | [] => w
  | Escalation _ _ :: rest =>
      escalate s {| procs := procs w; calls := calls w; timers := rest;
                    next_timer := next_timer w |}
  end.

(** [restartServer(serverPath, profileName, parameters, countdownSeconds)].
    The 2 s pause between stop and start is shorter than the 5 s
    escalation delay, so no timeout fires inside the call. *)
Definition restartServer (plat : Platform) (o : StartObs)
    (path profileName : string) (parameters : list string) (countdownSeconds : Z)
    (s : State) (w : World) : Outcome :=
  if (0 <? countdownSeconds)%Z then (inr (RestartIn countdownSeconds), s, w) else
  if isRunning s then
    match stopServer plat s w with
    | (inl e, s', w') => (inl e, s', w')
    | (inr _, s', w') => startServer plat o path profileName parameters s' w'
    end
  else startServer plat o path profileName parameters s w.

(** [getServerStatus()]. *)
Record Status := mkStatus { st_isRunning : bool; st_pid : option Z }.

Definition getServerStatus (s : State) (w : World) : Status :=
  {| st_isRunning := isRunning s;
     st_pid := match serverProcess s with
               | Some h => pid_of w h
               | None => None
               end |}.

(** [scheduleRestart], [cancelScheduledRestart], [getScheduledRestarts].
    [now_id] is [Date.now().toString()]. *)
Definition scheduleRestart (now_id : string) (time : Z)
    (path profileName : string) (parameters : list string) (s : State)
    : Restart.t * State :=
  let restart := {| Restart.id := now_id; Restart.time := time;
                    Restart.serverPath := path;
                    Restart.profileName := profileName;
                    Restart.parameters := parameters;
                    Restart.executed := false |} in
  (restart, set_scheduledRestarts (scheduledRestarts s ++ [restart]) s).

Definition cancelScheduledRestart (id : string) (s : State) : State :=
  set_scheduledRestarts
    (filter (fun r => Restart.id r ≠ id) (scheduledRestarts s)) s.

Definition getScheduledRestarts (s : State) : list Restart.t :=
  filter (fun r => Restart.executed r = false) (scheduledRestarts s).

(** [restart.executed = true] on the [i]-th entry of the array. *)
Definition mark_executed (i : nat) (s : State) : State :=
  set_scheduledRestarts (alter Restart.mark i (scheduledRestarts s)) s.

(** The [for ... of] loop of [checkScheduledRestarts], from index [i]
    on; [todo] are the entries not yet visited.  [obs i] is what the
    operating system answers if entry [i] restarts the server.  An
    exception of [restartServer] leaves the loop.  The third component
    lists the indices for which [restartServer] was called. *)
Fixpoint check_loop (plat : Platform) (now : Z) (obs : nat -> StartObs)
    (i : nat) (todo : list Restart.t) (s : State) (w : World)
    : (Error + unit) * list nat * State * World :=
  match todo with
  | [] => (inr tt, [], s, w)
  | restart :: rest =>
      if negb (Restart.executed restart) && (Restart.time restart <=? now)%Z then
        let s1 := mark_executed i s in
        if isRunning s1 then
          match restartServer plat (obs i) (Restart.serverPath restart)
                  (Restart.profileName restart) (Restart.parameters restart) 0
                  s1 w with
          | (inl e, s2, w2) => (inl e, [i], s2, w2)
          | (inr _, s2, w2) =>
              let '(r, fired, s3, w3) := check_loop plat now obs (S i) rest s2 w2 in
              (r, i :: fired, s3, w3)
          end
        else check_loop plat now obs (S i) rest s1 w
      else check_loop plat now obs (S i) rest s w
  end.

(** [checkScheduledRestarts()] at instant [now]. *)
Definition checkScheduledRestarts (plat : Platform) (now : Z)
    (obs : nat -> StartObs) (s : State) (w : World)
    : (Error + unit) * list nat * State * World :=
  check_loop plat now obs 0 (scheduledRestarts s) s w.



(** No child with a pid is held in [this.serverProcess]. *)
Definition no_live_process (s : State) (w : World) : bool :=
  match serverProcess s with
  | Some h => negb (truthy_pid (pid_of w h))
  | None => true
  end.

(** *** Concrete inputs used below *)

(** One live child, pid 4242, held by a running supervisor. *)
Definition live_world : World :=
  {| procs := [{| pid := Some 4242; killed := false; exited := false |}];
     calls := []; timers := []; next_timer := 1 |}.

Definition running_state : State :=
  {| serverProcess := Some 0%nat; serverPath := Some "/srv/dayz";
     isRunning := true; monitoringInterval := Some 0%nat;
     scheduledRestarts := [] |}.

(** Everything is in place and the child gets pid 5000. *)
Definition ok_obs : StartObs :=
  {| serverPath_exists := true; ensureDir_error := None;
     serverExe_exists := true; readdir_error := None; spawn_throws := None;
     child_pid := Some 5000; error_event := None |}.

(** The install path is gone. *)
Definition gone_obs : StartObs :=
  {| serverPath_exists := false; ensureDir_error := None;
     serverExe_exists := false; readdir_error := None; spawn_throws := None;
     child_pid := None; error_event := None |}.

(** A running supervisor with two restarts due, at 1000 and 2000; the
    first one points to an install path that no longer exists. *)
Definition entry_gone : Restart.t :=
  {| Restart.id := "1000"; Restart.time := 1000; Restart.serverPath := "/gone";
     Restart.profileName := "default"; Restart.parameters := [];
     Restart.executed := false |}.

Definition entry_ok : Restart.t :=
  {| Restart.id := "1001"; Restart.time := 2000;
     Restart.serverPath := "/srv/dayz"; Restart.profileName := "default";
     Restart.parameters := []; Restart.executed := false |}.





(** *** Events of a child *)

(** The ['close'] listener that [startServer] registers on a child once
    the start has succeeded: [this.isRunning = false;
    this.serverProcess = null]. *)
Definition onClose (s : State) : State :=
  set_serverProcess None (set_isRunning false s).

(** The operating system's side of a child exiting. *)
Definition child_exits (h : nat) (w : World) : World :=
  set_procs (alter (fun c => {| pid := pid c; killed := killed c;
                                exited := true |}) h (procs w)) w.

Definition empty_world : World :=
  {| procs := []; calls := []; timers := []; next_timer := 0 |}.

(** *** The supervisor between its awaits

    [startServer], [restartServer] and [checkScheduledRestarts] are
    [async]: each runs to its next [await] and is resumed later, and in
    between any other callback can run (another call from the IPC layer,
    an event of a child, a timer).  The whole process is the record
    [Machine]: the supervisor's fields, the operating system's side, the
    registry as array and entry objects, and the suspended activations
    with what they wait for. *)

Record StartArgs := mkArgs {
  a_path : string;
  a_profile : string;
  a_params : list string
}.

(** Who awaits a call.  [FromCheck now arr i]: the loop of
    [checkScheduledRestarts], suspended at line 421 on entry [i] of the
    array object [arr]; [now] is its [new Date()]. *)
Inductive Caller :=
| FromOutside
| FromCheck (now : Z) (arr : nat) (i : nat).

(** A suspended activation, by the [await] it stands at. *)
Inductive Task :=
| AwaitPathExists (a : StartArgs) (k : Caller)   (* fs.pathExists(serverPath), line 33 *)
| AwaitEnsureDir (a : StartArgs) (k : Caller)    (* fs.ensureDir(profilePath), line 41 *)
| AwaitExeExists (a : StartArgs) (k : Caller)    (* fs.pathExists(serverExe), line 48 *)
| AwaitReaddir (a : StartArgs) (k : Caller)      (* fs.readdir(serverPath), line 50 *)
| AwaitSettle (a : StartArgs) (child : nat) (processError : option string)
              (k : Caller)                       (* the 500 ms wait, line 94 *)
| AwaitPause (a : StartArgs) (k : Caller).       (* the 2 s pause of a restart, line 205 *)

(** [entries] holds every entry object ever made, [arrays] every array
    object ever assigned to [this.scheduledRestarts] (as references into
    [entries]), [current] is the one assigned now.  The registry field of
    [sup] is the content of the current array, refreshed by [sync].
    [close_listeners] are the children on which the listener of line 126
    was registered. *)
Record Machine := mkMachine {
  sup : State;
  world : World;
  entries : list Restart.t;
  arrays : list (list nat);
  current : nat;
  tasks : list Task;
  close_listeners : list nat
}.

Definition boot : Machine :=
  {| sup := init; world := empty_world; entries := []; arrays := [[]];
     current := 0; tasks := []; close_listeners := [] |}.

Definition set_sup (s : State) (m : Machine) : Machine :=
  {| sup := s; world := world m; entries := entries m; arrays := arrays m;
     current := current m; tasks := tasks m;
     close_listeners := close_listeners m |}.

Definition set_world (w : World) (m : Machine) : Machine :=
  {| sup := sup m; world := w; entries := entries m; arrays := arrays m;
     current := current m; tasks := tasks m;
     close_listeners := close_listeners m |}.

Definition set_tasks (l : list Task) (m : Machine) : Machine :=
  {| sup := sup m; world := world m; entries := entries m; arrays := arrays m;
     current := current m; tasks := l;
     close_listeners := close_listeners m |}.

Definition set_registry (es : list Restart.t) (arrs : list (list nat)) (cur : nat)
    (m : Machine) : Machine :=
  {| sup := sup m; world := world m; entries := es; arrays := arrs;
     current := cur; tasks := tasks m;
     close_listeners := close_listeners m |}.

Definition listen_close (h : nat) (m : Machine) : Machine :=
  {| sup := sup m; world := world m; entries := entries m; arrays := arrays m;
     current := current m; tasks := tasks m;
     close_listeners := (close_listeners m ++ [h])%list |}.

Definition add_task (t : Task) (m : Machine) : Machine :=
  set_tasks (tasks m ++ [t])%list m.

(** The content of an array object, and of the current one. *)
Definition content (m : Machine) (arr : nat) : list Restart.t :=
  omap (fun e => entries m !! e) (default [] (arrays m !! arr)).

Definition sync (m : Machine) : Machine :=
  set_sup (set_scheduledRestarts (content m (current m)) (sup m)) m.

(** The top of [startServer]: the two guards throw outside the [try];
    otherwise the call goes to its first [await]. *)
Definition call_start (a : StartArgs) (k : Caller) (m : Machine) : Machine :=
  if isRunning (sup m) then m else
  if match serverProcess (sup m) with
     | Some h => truthy_pid (pid_of (world m) h)
     | None => false
     end
  then m
  else add_task (AwaitPathExists a k) m.

(** [restartServer] up to its first real wait.  [stopServer] has no
    [await] inside: its promise is settled when it returns, and the
    [await] of line 203 goes on before any other callback gets a turn.
    With a countdown the method returns at once (the loop of
    [checkScheduledRestarts] never passes one). *)
Definition call_restart (plat : Platform) (a : StartArgs) (countdownSeconds : Z)
    (k : Caller) (m : Machine) : Machine :=
  if (0 <? countdownSeconds)%Z then m else
  if isRunning (sup m) then
    match stopServer plat (sup m) (world m) with
    | (inl _, _, _) => m
    | (inr _, s', w') => add_task (AwaitPause a k) (set_world w' (set_sup s' m))
    end
  else call_start a k m.

(** The loop of [checkScheduledRestarts] from index [i] of the array
    object [arr], whose entries from [i] on are [todo], up to its next
    [await] (or its end). *)
Fixpoint check_from (plat : Platform) (now : Z) (arr : nat) (i : nat)
    (todo : list nat) (m : Machine) : Machine :=
  match todo with
  | [] => m
  | e :: rest =>
      match entries m !! e with
      | None => check_from plat now arr (S i) rest m
      | Some restart =>
          if negb (Restart.executed restart) && (Restart.time restart <=? now)%Z then
            let m := sync (set_registry (<[e := Restart.mark restart]> (entries m))
                             (arrays m) (current m) m) in
            if isRunning (sup m) then
              call_restart plat
                {| a_path := Restart.serverPath restart;
                   a_profile := Restart.profileName restart;
                   a_params := Restart.parameters restart |}
                0 (FromCheck now arr i) m
            else check_from plat now arr (S i) rest m
          else check_from plat now arr (S i) rest m
      end
  end.

Definition resume_check (plat : Platform) (now : Z) (arr : nat) (i : nat)
    (m : Machine) : Machine :=
  check_from plat now arr i (drop i (default [] (arrays m !! arr))) m.

(** A call returns normally to the one that awaits it. *)
Definition ret (plat : Platform) (k : Caller) (m : Machine) : Machine :=
  match k with
  | FromOutside => m
  | FromCheck now arr i => resume_check plat now arr (S i) m
  end.

(** An exception inside the [try] of [startServer]: the [catch] block
    runs, and the call throws (which also ends a loop that awaits it). *)
Definition throw_in_try (c : Cause) (m : Machine) : Machine :=
  let '(_, s', w') := start_catch c (sup m) (world m) in
  set_world w' (set_sup s' m).

(** The ['error'] listener of line 84 reaches the [processError] of the
    activation that spawned the child. *)
Definition blame (h : nat) (msg : string) (t : Task) : Task :=
  match t with
  | AwaitSettle a child processError k =>
      if Nat.eqb child h then AwaitSettle a child (Some msg) k else t
  | _ => t
  end.

(** What can happen next. *)
Inductive Event :=
| CallStart (a : StartArgs)
| CallStop
| CallRestart (a : StartArgs) (countdownSeconds : Z)
| CallSchedule (now_id : string) (time : Z) (a : StartArgs)
| CallCancel (id : string)
| CallCheck (now : Z)
| PathExistsAnswer (t : nat) (found : bool)
| EnsureDirAnswer (t : nat) (err : option string)
| ExeExistsAnswer (t : nat) (found : bool) (thrown : option string)
                  (new_pid : option Z)
| ReaddirAnswer (t : nat) (err : option string)
| SettleElapsed (t : nat)
| PauseElapsed (t : nat)
| ChildError (h : nat) (msg : string)
| ChildClose (h : nat)
| TimeoutFires.

Definition take (t : nat) (m : Machine) : Machine :=
  set_tasks (delete t (tasks m)) m.

Definition step (plat : Platform) (ev : Event) (m : Machine) : option Machine :=
  match ev with
  | CallStart a => Some (call_start a FromOutside m)
  | CallStop =>
      let '(_, s', w') := stopServer plat (sup m) (world m) in
      Some (set_world w' (set_sup s' m))
  | CallRestart a countdownSeconds =>
      Some (call_restart plat a countdownSeconds FromOutside m)
  | CallSchedule now_id time a =>
      let restart := {| Restart.id := now_id; Restart.time := time;
                        Restart.serverPath := a_path a;
                        Restart.profileName := a_profile a;
                        Restart.parameters := a_params a;
                        Restart.executed := false |} in
      Some (sync (set_registry (entries m ++ [restart])%list
                    (alter (fun l => (l ++ [length (entries m)])%list) (current m) (arrays m))
                    (current m) m))
  | CallCancel id =>
      let kept :=
        filter (fun e => Restart.id <$> entries m !! e <> Some id)
               (default [] (arrays m !! current m)) in
      Some (sync (set_registry (entries m) (arrays m ++ [kept])%list
                    (length (arrays m)) m))
  | CallCheck now => Some (resume_check plat now (current m) 0 m)
  | PathExistsAnswer t found =>
      match tasks m !! t with
      | Some (AwaitPathExists a k) =>
          let m := take t m in
          if found then
            let profilePath :=
              path_join (path_join (Plain (a_path a)) "profiles") (a_profile a) in
            Some (add_task (AwaitEnsureDir a k)
                    (set_world (log_call (EnsureDir profilePath) (world m)) m))
          else Some (throw_in_try (PathNotFound (a_path a)) m)
      | _ => None
      end
  | EnsureDirAnswer t err =>
      match tasks m !! t with
      | Some (AwaitEnsureDir a k) =>
          let m := take t m in
          match err with
          | Some msg => Some (throw_in_try (FsError msg) m)
          | None => Some (add_task (AwaitExeExists a k) m)
          end
      | _ => None
      end
  | ExeExistsAnswer t found thrown new_pid =>
      match tasks m !! t with
      | Some (AwaitExeExists a k) =>
          let m := take t m in
          if found then
            let serverExe := getServerExecutable plat (a_path a) in
            let m := set_world
                       (log_call (Spawn serverExe
                                    (build_args (a_profile a) (a_params a))
                                    (a_path a)) (world m)) m in
            match thrown with
            | Some msg => Some (throw_in_try (SpawnThrew msg) m)
            | None =>
                let h := length (procs (world m)) in
                let w := set_procs (procs (world m)
                                    ++ [{| pid := new_pid; killed := false;
                                           exited := false |}])%list (world m) in
                Some (add_task (AwaitSettle a h None k)
                        (set_world w (set_sup (set_serverProcess (Some h) (sup m)) m)))
            end
          else Some (add_task (AwaitReaddir a k) m)
      | _ => None
      end
  | ReaddirAnswer t err =>
      match tasks m !! t with
      | Some (AwaitReaddir a k) =>
          let m := take t m in
          match err with
          | Some msg => Some (throw_in_try (FsError msg) m)
          | None =>
              Some (throw_in_try
                      (ExecutableNotFound (getServerExecutable plat (a_path a))) m)
          end
      | _ => None
      end
  | SettleElapsed t =>
      match tasks m !! t with
      | Some (AwaitSettle a child processError k) =>
          let m := take t m in
          match processError with
          | Some msg => Some (throw_in_try (SpawnFailed msg) m)
          | None =>
              match serverProcess (sup m) with
              | None => Some (throw_in_try ProcessNull m)
              | Some h' =>
                  if killed_of (world m) h' then Some (throw_in_try KilledImmediately m)
                  else if negb (truthy_pid (pid_of (world m) h')) then
                    Some (throw_in_try NoPid m)
                  else
                    let s := set_isRunning true
                               (set_serverPath (Some (a_path a)) (sup m)) in
                    let m := listen_close h' m in
                    let '(s, w) := startMonitoring s (world m) in
                    Some (ret plat k (set_world w (set_sup s m)))
              end
          end
      | _ => None
      end
  | PauseElapsed t =>
      match tasks m !! t with
      | Some (AwaitPause a k) => Some (call_start a k (take t m))
      | _ => None
      end
  | ChildError h msg =>
      if bool_decide (h < length (procs (world m)))%nat then
        Some (set_sup (set_serverProcess None (set_isRunning false (sup m)))
                (set_tasks (blame h msg <$> tasks m) m))
      else None
  | ChildClose h =>
      if bool_decide (h < length (procs (world m)))%nat then
        let m := set_world (child_exits h (world m)) m in
        if bool_decide (h ∈ close_listeners m) then Some (set_sup (onClose (sup m)) m)
        else Some m
      else None
  | TimeoutFires => Some (set_world (fire_timeout (sup m) (world m)) m)
  end.

Inductive reachable (plat : Platform) : Machine -> Prop :=
| reachable_boot : reachable plat boot
| reachable_step ev m m' :
    reachable plat m -> step plat ev m = Some m' -> reachable plat m'.

Fixpoint run (plat : Platform) (evs : list Event) (m : Machine) : option Machine :=
  match evs with
  | [] => Some m
  | ev :: rest => m' ← step plat ev m; run plat rest m'
  end.

(** While the flag is set a child is held and monitoring is on; a held
    handle is a child that was spawned. *)
Definition steady (m : Machine) : Prop :=
  (isRunning (sup m) = true ->
     is_Some (serverProcess (sup m)) /\ is_Some (monitoringInterval (sup m)))
  /\ (forall h, serverProcess (sup m) = Some h ->
        (h < length (procs (world m)))%nat).

Definition dayz : StartArgs :=
  {| a_path := "/srv/dayz"; a_profile := "default"; a_params := [] |}.

(** A start that has spawned its child (pid 5000) and stands in the
    500 ms wait. *)
Definition start_in_flight : list Event :=
  [CallStart dayz; PathExistsAnswer 0 true; EnsureDirAnswer 0 None;
   ExeExistsAnswer 0 true None (Some 5000)].

Definition mid_start : Machine := default boot (run posix start_in_flight boot).

(** The answers one call of [startServer] gets, as events for its
    activation when it is the only one (position 0); [h] is the handle
    its child will get. *)
Definition answers (o : StartObs) (h : nat) : list Event :=
  PathExistsAnswer 0 (serverPath_exists o) ::
  (if serverPath_exists o then
     EnsureDirAnswer 0 (ensureDir_error o) ::
     match ensureDir_error o with
     | Some _ => []
     | None =>
         ExeExistsAnswer 0 (serverExe_exists o) (spawn_throws o) (child_pid o) ::
         (if serverExe_exists o then
            match spawn_throws o with
            | Some _ => []
            | None =>
                match error_event o with
                | Some msg => [ChildError h msg; SettleElapsed 0]
                | None => [SettleElapsed 0]
                end
            end
          else [ReaddirAnswer 0 (readdir_error o)])
     end
   else []).

(** The same start once the 500 ms have passed. *)
Definition started : Machine :=
  default boot (run posix (start_in_flight ++ [SettleElapsed 0]) boot).

(** Two calls of [startServer] pass the guards before either has
    spawned.  The second one goes through (child 0, pid 5000); then the
    first one spawns its own child, which gets no pid. *)
Definition double_start : list Event :=
  [CallStart dayz; CallStart dayz;
   PathExistsAnswer 1 true; EnsureDirAnswer 1 None;
   ExeExistsAnswer 1 true None (Some 5000); SettleElapsed 1;
   PathExistsAnswer 0 true; EnsureDirAnswer 0 None;
   ExeExistsAnswer 0 true None None].

Definition after_double_start : Machine :=
  default boot (run posix double_start boot).

(** Whether an argument selects the profile. *)
Definition is_profiles_arg (arg : string) : bool := String.prefix "-profiles=" arg.

End ServerControl.


(** ** Mod download queue

    JavaScript runs a piece of code to its next [await] before anything
    else gets a turn.  The queue is therefore a transition system: a
    state holds the fields of the object, the item objects, the events
    sent so far and the position [pc] of the one activation of
    [processQueue]; a step is either a call from the IPC layer, possible
    only while the loop is parked at an [await] (or not active), or the
    loop going on from where it stands. *)

Module ModQueue.

(** [item.status]: 'pending', 'downloading', 'completed', 'failed'. *)
Inductive Status := pending | downloading | completed | failed.

#[global] Instance Status_eq_dec : EqDecision Status.
Proof. solve_decision. Defined.

(** A queue item object.  [addedAt] and [modCount] are never read by the
    queue and are left out.  [id] is [Date.now() + Math.random()], taken
    from the caller here; nothing makes two ids differ. *)
Record Item := mkItem {
  id : Z;
  workshopId : option string;
  collectionId : option string;
  isCollection : bool;
  name : string;
  modIds : option (list string);
  status : Status;
  progress : Z;
  error : option string
}.

#[global] Instance Item_inhabited : Inhabited Item :=
  populate {| id := 0; workshopId := None; collectionId := None;
              isCollection := false; name := ""; modIds := None;
              status := failed; progress := 0; error := None |}.

Definition set_status (st : Status) (it : Item) : Item :=
  {| id := id it; workshopId := workshopId it; collectionId := collectionId it;
     isCollection := isCollection it; name := name it; modIds := modIds it;
     status := st; progress := progress it; error := error it |}.

Definition set_progress (p : Z) (it : Item) : Item :=
  {| id := id it; workshopId := workshopId it; collectionId := collectionId it;
     isCollection := isCollection it; name := name it; modIds := modIds it;
     status := status it; progress := p; error := error it |}.

Definition set_error (e : option string) (it : Item) : Item :=
  {| id := id it; workshopId := workshopId it; collectionId := collectionId it;
     isCollection := isCollection it; name := name it; modIds := modIds it;
     status := status it; progress := progress it; error := e |}.

(** One line of the [queue] array inside a status snapshot. *)
Record ItemView := mkView {
  v_id : Z;
  v_workshopId : option string;      (* item.workshopId || item.collectionId *)
  v_isCollection : bool;
  v_name : string;
  v_status : Status;
  v_progress : Z;
  v_error : option string
}.

Module Snapshot.
(** The object returned by [getQueueStatus()]. *)
Record t := mk {
  total : nat;
  pending : nat;
  downloading : nat;
  completed : nat;
  failed : nat;
  currentItem : option nat;
  isProcessing : bool;
  queue : list ItemView
}.
End Snapshot.

(** Events emitted by the queue and calls it makes to its collaborators
    (workshop manager, config store), oldest first. *)
Inductive Event :=
| QueueUpdated (st : Snapshot.t)
| ItemStarted (r : nat)
| ItemProgress (r : nat) (p : Z)
| ItemCompleted (r : nat)
| ItemFailed (r : nat)
| QueueCompleted
| CallDownloadMod (modId : option string) (installPath : option string)
| CallGetModDetails (modId : option string)
| CallAddMod (modId : option string) (name : string).

(** Where the one activation of [processQueue] stands.  [Head] and
    [CollHead] are points inside synchronous code (the [while] test and
    the [for] test); the others, apart from [Idle], are [await]s. *)
Inductive Loop :=
| Idle
| Head
| StaleWait                                       (* the 1 s timer, line 173 *)
| SingleDownload (r : nat)                        (* downloadMod, line 243 *)
| SingleDetails (r : nat)                         (* getModDetails, line 254 *)
| SingleAddMod (r : nat) (in_catch : bool)        (* config.addMod, lines 256-262 *)
| CollHead (r i successCount failCount : nat)     (* for test, line 196 *)
| CollDownload (r i successCount failCount : nat) (* downloadMod, line 203 *)
| CollDetails (r i successCount failCount : nat)  (* getModDetails, line 215 *)
| CollAddMod (r i successCount failCount : nat) (in_catch : bool).

(** Item objects live in [heap] under a reference; [queue] is the array
    of references.  The loop keeps its item by reference, so it writes
    to the object whether or not the array still holds it. *)
Record State := mkState {
  heap : gmap nat Item;
  next_ref : nat;
  queue : list nat;
  isProcessing : bool;
  currentItem : option nat;
  serverPath : option string;
  pc : Loop;
  events : list Event
}.

Definition init : State :=
  {| heap := ∅; next_ref := 0; queue := []; isProcessing := false;
     currentItem := None; serverPath := None; pc := Idle; events := [] |}.

Definition item (s : State) (r : nat) : Item := heap s !!! r.

Definition status_of (s : State) (r : nat) : Status := status (item s r).

(** In-place update of the object behind [r]. *)
Definition upd (r : nat) (f : Item -> Item) (s : State) : State :=
  {| heap := <[r := f (item s r)]> (heap s); next_ref := next_ref s;
     queue := queue s; isProcessing := isProcessing s;
     currentItem := currentItem s; serverPath := serverPath s;
     pc := pc s; events := events s |}.

Definition set_queue (q : list nat) (s : State) : State :=
  {| heap := heap s; next_ref := next_ref s; queue := q;
     isProcessing := isProcessing s; currentItem := currentItem s;
     serverPath := serverPath s; pc := pc s; events := events s |}.

Definition set_isProcessing (b : bool) (s : State) : State :=
  {| heap := heap s; next_ref := next_ref s; queue := queue s;
     isProcessing := b; currentItem := currentItem s;
     serverPath := serverPath s; pc := pc s; events := events s |}.

Definition set_currentItem (c : option nat) (s : State) : State :=
  {| heap := heap s; next_ref := next_ref s; queue := queue s;
     isProcessing := isProcessing s; currentItem := c;
     serverPath := serverPath s; pc := pc s; events := events s |}.

Definition setServerPath (p : option string) (s : State) : State :=
  {| heap := heap s; next_ref := next_ref s; queue := queue s;
     isProcessing := isProcessing s; currentItem := currentItem s;
     serverPath := p; pc := pc s; events := events s |}.

Definition set_pc (l : Loop) (s : State) : State :=
  {| heap := heap s; next_ref := next_ref s; queue := queue s;
     isProcessing := isProcessing s; currentItem := currentItem s;
     serverPath := serverPath s; pc := l; events := events s |}.

Definition emit (e : Event) (s : State) : State :=
  {| heap := heap s; next_ref := next_ref s; queue := queue s;
     isProcessing := isProcessing s; currentItem := currentItem s;
     serverPath := serverPath s; pc := pc s; events := events s ++ [e] |}.

(** [this.queue.push(item)] for a newly created object. *)
Definition push (it : Item) (s : State) : State :=
  {| heap := <[next_ref s := it]> (heap s); next_ref := S (next_ref s);
     queue := queue s ++ [next_ref s]; isProcessing := isProcessing s;
     currentItem := currentItem s; serverPath := serverPath s;
     pc := pc s; events := events s |}.

(** [this.queue.filter(item => item.status === st).length]. *)
Definition count (st : Status) (s : State) : nat :=
  length (filter (fun r => status_of s r = st) (queue s)).

(** JavaScript [a || b] on an optional string: [undefined], [null] and
    the empty string are falsy. *)
Definition or_else (a : option string) (b : string) : string :=
  match a with
  | Some x => if String.eqb x "" then b else x
  | None => b
  end.

Definition or_opt (a b : option string) : option string :=
  match a with
  | Some x => if String.eqb x "" then b else a
  | None => b
  end.

Definition view (it : Item) : ItemView :=
  {| v_id := id it; v_workshopId := or_opt (workshopId it) (collectionId it);
     v_isCollection := isCollection it; v_name := name it;
     v_status := status it; v_progress := progress it; v_error := error it |}.

(** [getQueueStatus()]. *)
Definition getQueueStatus (s : State) : Snapshot.t :=
  {| Snapshot.total := length (queue s);
     Snapshot.pending := count pending s;
     Snapshot.downloading := count downloading s;
     Snapshot.completed := count completed s;
     Snapshot.failed := count failed s;
     Snapshot.currentItem := currentItem s;
     Snapshot.isProcessing := isProcessing s;
     Snapshot.queue := map (fun r => view (item s r)) (queue s) |}.

(** [this.emit('queue-updated', this.getQueueStatus())]. *)
Definition emit_update (s : State) : State :=
  emit (QueueUpdated (getQueueStatus s)) s.

(** *** Numbers

    Progress percentages are computed on IEEE 754 doubles.  [num] is
    the double of an integer, [Math_round] the integer nearest to a
    finite double, ties going up. *)
Definition prec : Z := 53.
Definition emax : Z := 1024.

Definition num (z : Z) : spec_float := binary_normalize prec emax z 0 false.
Definition fdiv : spec_float -> spec_float -> spec_float := SFdiv prec emax.
Definition fmul : spec_float -> spec_float -> spec_float := SFmul prec emax.
Definition fadd : spec_float -> spec_float -> spec_float := SFadd prec emax.

Definition Math_round (x : spec_float) : Z :=
  match x with
  | S754_finite sg m e =>
      let v := if sg then Z.neg m else Z.pos m in
      if (0 <=? e)%Z then v * 2 ^ e
      else (2 * v + 2 ^ (- e)) / 2 ^ (1 - e)
  | _ => 0     (* zero; infinities and NaN do not arise from total >= 1 *)
  end.

(** [Math.round(((i + 1) / total) * 100)], line 198. *)
Definition member_start_progress (i total : nat) : Z :=
  Math_round (fmul (fdiv (num (Z.of_nat i + 1)) (num (Z.of_nat total))) (num 100)).

(** [Math.round((i / total) * 100 + (modProgress / total))], line 206. *)
Definition overall_progress (i total : nat) (modProgress : Z) : Z :=
  Math_round (fadd (fmul (fdiv (num (Z.of_nat i)) (num (Z.of_nat total))) (num 100))
                   (fdiv (num modProgress) (num (Z.of_nat total)))).

(** [progress.progress || 0]. *)
Definition progress_or_0 (p : option Z) : Z :=
  match p with Some n => n | None => 0 end.

(** *** Calls from the IPC layer *)

Inductive Error :=
| CollectionEmpty     (* 'Collection is empty or mods could not be extracted' *)
| ItemBusy            (* 'Cannot remove item that is currently downloading' *)
| ProcessingActive.   (* 'Cannot clear queue while processing' *)

(** The first two statements of [processQueue()]; the loop itself is
    continued by [step].  A second activation while one is alive cannot
    be written with a single [pc]: that case yields [None]. *)
Definition processQueue (s : State) : option State :=
  if isProcessing s then Some s
  else match pc s with
       | Idle => Some (set_pc Head (set_isProcessing true s))
       | _ => None
       end.

(** [addToQueue(workshopId, isCollection, name)]. *)
Definition addToQueue (new_id : Z) (wid : string) (isColl : bool)
    (nm : option string) (s : State) : option (Z * State) :=
  let it := {| id := new_id; workshopId := Some wid; collectionId := None;
               isCollection := isColl; name := or_else nm ("Mod " +:+ wid);
               modIds := None; status := pending; progress := 0;
               error := None |} in
  s' ← processQueue (emit_update (push it s));
  Some (new_id, s').

(** [addCollectionToQueue(collectionId, collectionName)] once
    [getCollectionDetails] has answered with [coll_name] and [ids]. *)
Definition addCollectionToQueue (new_id : Z) (cid : string)
    (collectionName coll_name : option string) (ids : list string)
    (s : State) : option ((Error + Z) * State) :=
  match ids with
  | [] => Some (inl CollectionEmpty, s)
  | _ =>
      let it := {| id := new_id; workshopId := None; collectionId := Some cid;
                   isCollection := true;
                   name := or_else collectionName
                             (or_else coll_name ("Collection " +:+ cid));
                   modIds := Some ids; status := pending; progress := 0;
                   error := None |} in
      s' ← processQueue (emit_update (push it s));
      Some (inr new_id, s')
  end.

(** [removeFromQueue(itemId)]. *)
Definition removeFromQueue (itemId : Z) (s : State) : (Error + bool) * State :=
  match list_find (fun r => id (item s r) = itemId) (queue s) with
  | Some (index, r) =>
      if decide (status_of s r = downloading) then (inl ItemBusy, s)
      else (inr true, emit_update (set_queue (delete index (queue s)) s))
  | None => (inr false, s)
  end.

(** [clearCompleted()]. *)
Definition clearCompleted (s : State) : nat * State :=
  let before := length (queue s) in
  let s1 := set_queue
              (filter (fun r => status_of s r ≠ completed ∧ status_of s r ≠ failed)
                      (queue s)) s in
  let removed := (before - length (queue s1))%nat in
  (removed, if decide (0 < removed)%nat then emit_update s1 else s1).

(** [clearAll()]. *)
Definition clearAll (s : State) : (Error + unit) * State :=
  if isProcessing s then (inl ProcessingActive, s)
  else (inr tt, emit_update (set_queue [] s)).

(** *** The processing loop *)

(** JavaScript falsiness of [this.serverPath]. *)
Definition falsy (p : option string) : bool :=
  match p with Some x => String.eqb x "" | None => true end.

(** Text of an optional string inside a template literal. *)
Definition text_of (o : option string) : string := default "undefined" o.

(** After the [while] loop: [this.isProcessing = false;
    this.emit('queue-completed')]. *)
Definition exit_loop (s : State) : State :=
  set_pc Idle (emit QueueCompleted (set_isProcessing false s)).

(** The end of an iteration: [this.currentItem = null;
    this.emit('queue-updated', ...)], then back to the [while] test. *)
Definition finish (s : State) : State :=
  set_pc Head (emit_update (set_currentItem None s)).

(** The outer [catch]: [item.status = 'failed'; item.error = error.message;
    this.emit('item-failed', item)]. *)
Definition catch (r : nat) (msg : string) (s : State) : State :=
  finish (emit (ItemFailed r)
            (upd r (fun it => set_error (Some msg) (set_status failed it)) s)).

(** One pass from the [while] test to the first [await] of the
    iteration (or out of the loop). *)
Definition loop_head (s : State) : State :=
  match queue s with
  | [] => exit_loop s
  | _ =>
    match find (fun r => bool_decide (status_of s r = pending)) (queue s) with
    | None =>
        match find (fun r => bool_decide (status_of s r = downloading)) (queue s) with
        | None => exit_loop s
        | Some _ => set_pc StaleWait s
        end
    | Some r =>
        let s := upd r (set_status downloading) (set_currentItem (Some r) s) in
        let s := emit (ItemStarted r) (emit_update s) in
        if falsy (serverPath s) then catch r "Server path not set" s
        else
          match isCollection (item s r), modIds (item s r) with
          | true, Some _ => set_pc (CollHead r 0 0 0) s
          | _, _ =>
              set_pc (SingleDownload r)
                (emit (CallDownloadMod (workshopId (item s r)) (serverPath s)) s)
          end
    end
  end.

(** The status a collection gets once all its members were tried,
    lines 234-240. *)
Definition settle_collection (total successCount failCount : nat) (it : Item) : Item :=
  let it := set_progress 100 it in
  if decide (failCount = 0%nat) then set_status completed it
  else
    set_error (Some (pretty successCount +:+ " succeeded, " +:+
                     pretty failCount +:+ " failed"))
      (set_status (if decide (failCount = total) then failed else completed) it).

(** From the [for] test to the [await] of the member's download, or,
    past the last member, to the end of the iteration. *)
Definition coll_head (r i successCount failCount : nat) (s : State) : State :=
  let ms := default [] (modIds (item s r)) in
  let total := length ms in
  match ms !! i with
  | Some modId =>
      let s := upd r (set_progress (member_start_progress i total)) s in
      let s := emit (ItemProgress r (progress (item s r))) (emit_update s) in
      set_pc (CollDownload r i successCount failCount)
        (emit (CallDownloadMod (Some modId) (serverPath s)) s)
  | None =>
      finish (emit (ItemCompleted r)
                (upd r (settle_collection total successCount failCount) s))
  end.

(** What makes the queue move: a call from the IPC layer, or the loop
    going on, by itself ([Tau]) or because something it awaits
    answered. *)
Inductive Label :=
| AddToQueue (new_id : Z) (workshopId : string) (isCollection : bool)
             (name : option string)
| AddCollectionToQueue (new_id : Z) (collectionId : string)
             (collectionName coll_name : option string) (ids : list string)
| RemoveFromQueue (itemId : Z)
| ClearCompleted
| ClearAll
| SetServerPath (p : option string)
| Tau
| TimerElapsed
| OnProgress (p : option Z)            (* the sink gets { progress: p } *)
| DownloadReturned (success : bool) (err : option string)
| DownloadThrew (msg : string)
| DetailsReturned (name : option string)  (* modDetails && modDetails.name *)
| DetailsThrew
| AddModReturned
| AddModThrew (msg : string).

(** The loop is parked at an [await] (or not active): calls from the
    IPC layer can run. *)
Definition suspended (l : Loop) : bool :=
  match l with
  | Head | CollHead _ _ _ _ => false
  | _ => true
  end.

Definition member (s : State) (r i : nat) : option string :=
  default [] (modIds (item s r)) !! i.

Definition call_addMod (modId : option string) (nm : option string) : Event :=
  CallAddMod modId (or_else nm ("Mod " +:+ text_of modId)).

Definition step (l : Label) (s : State) : option State :=
  match l with
  | AddToQueue new_id wid isColl nm =>
      if suspended (pc s) then snd <$> addToQueue new_id wid isColl nm s else None
  | AddCollectionToQueue new_id cid cname coll_name ids =>
      if suspended (pc s)
      then snd <$> addCollectionToQueue new_id cid cname coll_name ids s
      else None
  | RemoveFromQueue itemId =>
      if suspended (pc s) then Some (snd (removeFromQueue itemId s)) else None
  | ClearCompleted =>
      if suspended (pc s) then Some (snd (clearCompleted s)) else None
  | ClearAll =>
      if suspended (pc s) then Some (snd (clearAll s)) else None
  | SetServerPath p =>
      if suspended (pc s) then Some (setServerPath p s) else None
  | Tau =>
      match pc s with
      | Head => Some (loop_head s)
      | CollHead r i sc fc => Some (coll_head r i sc fc s)
      | _ => None
      end
  | TimerElapsed =>
      match pc s with
      | StaleWait => Some (set_pc Head s)
      | _ => None
      end
  | OnProgress p =>
      match pc s with
      | SingleDownload r =>
          let s := upd r (set_progress (progress_or_0 p)) s in
          Some (emit (ItemProgress r (progress (item s r))) s)
      | CollDownload r i sc fc =>
          let total := length (default [] (modIds (item s r))) in
          let s := upd r (set_progress (overall_progress i total (progress_or_0 p))) s in
          Some (emit (ItemProgress r (progress (item s r))) s)
      | _ => None
      end
  | DownloadReturned success err =>
      match pc s with
      | SingleDownload r =>
          if success then
            let s := upd r (fun it => set_status completed (set_progress 100 it)) s in
            Some (set_pc (SingleDetails r)
                    (emit (CallGetModDetails (workshopId (item s r))) s))
          else
            let s := upd r (fun it => set_error (Some (or_else err "Download failed"))
                                        (set_status failed it)) s in
            Some (finish (emit (ItemCompleted r) s))
      | CollDownload r i sc fc =>
          if success then
            Some (set_pc (CollDetails r i (S sc) fc)
                    (emit (CallGetModDetails (member s r i)) s))
          else Some (set_pc (CollHead r (S i) sc (S fc)) s)
      | _ => None
      end
  | DownloadThrew msg =>
      match pc s with
      | SingleDownload r => Some (catch r msg s)
      | CollDownload r i sc fc => Some (set_pc (CollHead r (S i) sc (S fc)) s)
      | _ => None
      end
  | DetailsReturned nm =>
      match pc s with
      | SingleDetails r =>
          Some (set_pc (SingleAddMod r false)
                  (emit (call_addMod (workshopId (item s r)) nm) s))
      | CollDetails r i sc fc =>
          Some (set_pc (CollAddMod r i sc fc false)
                  (emit (call_addMod (member s r i) nm) s))
      | _ => None
      end
  | DetailsThrew =>
      match pc s with
      | SingleDetails r =>
          Some (set_pc (SingleAddMod r true)
                  (emit (call_addMod (workshopId (item s r)) None) s))
      | CollDetails r i sc fc =>
          Some (set_pc (CollAddMod r i sc fc true)
                  (emit (call_addMod (member s r i) None) s))
      | _ => None
      end
  | AddModReturned =>
      match pc s with
      | SingleAddMod r _ => Some (finish (emit (ItemCompleted r) s))
      | CollAddMod r i sc fc _ => Some (set_pc (CollHead r (S i) sc fc) s)
      | _ => None
      end
  | AddModThrew msg =>
      match pc s with
      | SingleAddMod r false =>
          Some (set_pc (SingleAddMod r true)
                  (emit (call_addMod (workshopId (item s r)) None) s))
      | SingleAddMod r true => Some (catch r msg s)
      | CollAddMod r i sc fc false =>
          Some (set_pc (CollAddMod r i sc fc true)
                  (emit (call_addMod (member s r i) None) s))
      | CollAddMod r i sc fc true => Some (set_pc (CollHead r (S i) sc (S fc)) s)
      | _ => None
      end
  end.

(** States the queue can be in. *)
Inductive reachable : State -> Prop :=
| reachable_init : reachable init
| reachable_step l s s' : reachable s -> step l s = Some s' -> reachable s'.

Fixpoint run (ls : list Label) (s : State) : option State :=
  match ls with
  | [] => Some s
  | l :: ls' => s' ← step l s; run ls' s'
  end.

(** The percentages carried by the 'item-progress' events. *)
Definition progress_reports (s : State) : list Z :=
  flat_map (fun e => match e with ItemProgress _ p => [p] | _ => [] end) (events s).

(** The snapshots carried by the 'queue-updated' events. *)
Definition snapshots (s : State) : list Snapshot.t :=
  flat_map (fun e => match e with QueueUpdated st => [st] | _ => [] end) (events s).

(** The item the loop has marked 'downloading' and not yet settled. *)
Definition in_flight (l : Loop) : option nat :=
  match l with
  | SingleDownload r | CollHead r _ _ _ | CollDownload r _ _ _
  | CollDetails r _ _ _ | CollAddMod r _ _ _ _ => Some r
  | _ => None
  end.

(** The labels that are calls from the IPC layer. *)
Definition is_call (lbl : Label) : bool :=
  match lbl with
  | AddToQueue _ _ _ _ | AddCollectionToQueue _ _ _ _ _ | RemoveFromQueue _
  | ClearCompleted | ClearAll | SetServerPath _ => true
  | _ => false
  end.

(** The item reference the loop holds, and the one it holds as a
    collection. *)
Definition pc_ref (l : Loop) : option nat :=
  match l with
  | SingleDownload r | SingleDetails r | SingleAddMod r _
  | CollHead r _ _ _ | CollDownload r _ _ _
  | CollDetails r _ _ _ | CollAddMod r _ _ _ _ => Some r
  | _ => None
  end.

Definition coll_ref (l : Loop) : option nat :=
  match l with
  | CollHead r _ _ _ | CollDownload r _ _ _
  | CollDetails r _ _ _ | CollAddMod r _ _ _ _ => Some r
  | _ => None
  end.

Definition is_idle (l : Loop) : bool :=
  match l with Idle => true | _ => false end.

(** *** The invariant of the queue

    Stated for a loop position [l], which is [pc s] in every reachable
    state: the array holds no reference twice; an item of the array is
    'downloading' only if it is the one the loop has in flight; the
    references in use are allocated; a stored member list is never empty;
    every snapshot sent so far counted at most one 'downloading' item. *)
Record Sound (l : Loop) (s : State) : Prop := mkSound {
  Sound_nodup : NoDup (queue s);
  Sound_down : forall r, r ∈ queue s -> status_of s r = downloading ->
                     in_flight l = Some r;
  Sound_fresh : forall r, r ∈ queue s -> (r < next_ref s)%nat;
  Sound_modIds : forall r ms, modIds (item s r) = Some ms -> ms <> [];
  Sound_snap : forall st, st ∈ snapshots s -> (Snapshot.downloading st <= 1)%nat;
  Sound_ref : forall r, pc_ref l = Some r -> (r < next_ref s)%nat;
  Sound_coll : forall r, coll_ref l = Some r -> is_Some (modIds (item s r))
}.

Definition Inv (s : State) : Prop :=
  Sound (pc s) s /\ isProcessing s = negb (is_idle (pc s)).

(** *** Concrete runs used below *)

(** A collection of two members is queued and its first member reports
    10 % of its download. *)
Definition two_member_run : list Label :=
  [SetServerPath (Some "/srv/dayz");
   AddCollectionToQueue 1 "222" None (Some "Pack") ["1"; "2"];
   Tau; Tau; OnProgress (Some 10)].

(** Collection 222 with members 1, 2, 3; the download of member 2
    fails; stopped at the [for] test after the last member. *)
Definition three_member_run : list Label :=
  [SetServerPath (Some "/srv/dayz");
   AddCollectionToQueue 1 "222" None (Some "Pack") ["1"; "2"; "3"];
   Tau;
   Tau; DownloadReturned true None; DetailsReturned (Some "One"); AddModReturned;
   Tau; DownloadThrew "Failed to download mod: timeout";
   Tau; DownloadReturned true None; DetailsReturned (Some "Three"); AddModReturned].

Definition after_three_members : State :=
  default init (run three_member_run init).

(** The same run, one step further: the collection has got its final
    status. *)
Definition three_members_settled : State :=
  default init (run (three_member_run ++ [Tau]) init).




(** Collection 333 with the single member 7, while the mod list of the
    configuration is not an array ([config.json] holds ["mods": {}], so
    [mods.find] is no function): the download succeeds and both calls of
    [config.addMod] throw. *)
Definition sole_member_run : list Label :=
  [SetServerPath (Some "/srv/dayz");
   AddCollectionToQueue 1 "333" None (Some "Solo") ["7"];
   Tau;
   Tau; DownloadReturned true None; DetailsReturned (Some "Seven");
   AddModThrew "mods.find is not a function";
   AddModThrew "mods.find is not a function"].

Definition after_sole_member : State :=
  default init (run sole_member_run init).

Definition sole_member_settled : State :=
  default init (run (sole_member_run ++ [Tau]) init).

(** Two mods queued one after the other; the first is being downloaded. *)
Definition two_mods_run : list Label :=
  [SetServerPath (Some "/srv/dayz");
   AddToQueue 1 "111" false None; Tau;
   AddToQueue 2 "112" false None].

Definition first_of_two_downloading : State :=
  default init (run two_mods_run init).

(** Whether a list of percentages never goes down. *)
Fixpoint nondecreasing (l : list Z) : bool :=
  match l with
  | a :: (b :: _) as t => (a <=? b)%Z && nondecreasing t
  | _ => true
  end.

(** *** Further properties of the queue: vocabulary *)

(** How far an item has got: pending, then downloading, then settled. *)
Definition rank (st : Status) : nat :=
  match st with pending => 0 | downloading => 1 | completed | failed => 2 end.

Definition settled_status (st : Status) : Prop := st = completed \/ st = failed.

(** The fields of an item that say what it is. *)
Definition same_identity (a b : Item) : Prop :=
  id a = id b /\ workshopId a = workshopId b /\ collectionId a = collectionId b
  /\ isCollection a = isCollection b /\ name a = name b /\ modIds a = modIds b.

(** From [s] to [s']: no item object is lost or re-used, none changes
    what it is, and none moves backwards. *)
Definition evolves (s s' : State) : Prop :=
  (next_ref s <= next_ref s')%nat
  /\ forall r, (r < next_ref s)%nat ->
       same_identity (item s r) (item s' r)
       /\ (rank (status_of s r) <= rank (status_of s' r))%nat.

(** Number of members of the collection behind [r]. *)
Definition members (s : State) (r : nat) : nat :=
  length (default [] (modIds (item s r))).

(** What the counters of the member loop satisfy at each position. *)
Definition counters_ok (s : State) (l : Loop) : Prop :=
  match l with
  | CollHead r i sc fc =>
      (i <= members s r /\ sc <= i /\ fc <= i /\ i <= sc + fc)%nat
  | CollDownload r i sc fc =>
      (i < members s r /\ sc <= i /\ fc <= i /\ i <= sc + fc)%nat
  | CollDetails r i sc fc | CollAddMod r i sc fc _ =>
      (i < members s r /\ sc <= S i /\ fc <= i /\ S i <= sc + fc)%nat
  | _ => True
  end.

(** A second invariant: [currentItem] is the item the loop holds; an
    idle queue holds settled items only; the counters are in range. *)
Definition tidy (s : State) : Prop :=
  currentItem s = pc_ref (pc s)
  /\ (pc s = Idle -> forall r, r ∈ queue s -> settled_status (status_of s r))
  /\ counters_ok s (pc s).

(** What a snapshot that says "not processing" looks like: nothing is
    being downloaded, there is no current item, and at most one item is
    pending ([addToQueue] sends its snapshot, line 31, before
    [processQueue] sets the flag, so the item just pushed shows as
    pending in it). *)
Definition quiet (st : Snapshot.t) : Prop :=
  Snapshot.isProcessing st = false ->
  Snapshot.downloading st = 0%nat /\ Snapshot.currentItem st = None
  /\ (Snapshot.pending st <= 1)%nat.

(** Every snapshot sent so far with 'queue-updated' is [quiet]. *)
Definition calm (s : State) : Prop :=
  forall st, st ∈ snapshots s -> quiet st.

(** The run of [two_mods_run] once the first mod is done: the loop is
    back at the [while] test, the second mod still waits. *)
Definition second_of_two_waiting : State :=
  default init
    (run (two_mods_run ++ [DownloadReturned true None; DetailsReturned None;
                           AddModReturned]) init).

(** A server path is set and one mod has gone through the queue. *)
Definition one_mod_run : list Label :=
  [SetServerPath (Some "/srv/dayz");
   AddToQueue 1 "111" false None; Tau; DownloadReturned true None;
   DetailsReturned (Some "Name"); AddModReturned; Tau].

Definition one_mod_done : State := default init (run one_mod_run init).

(** The object [addToQueue] creates. *)
Definition new_item (new_id : Z) (wid : string) (isColl : bool) (nm : option string) : Item :=
  {| id := new_id; workshopId := Some wid; collectionId := None;
     isCollection := isColl; name := or_else nm ("Mod " +:+ wid);
     modIds := None; status := pending; progress := 0; error := None |}.

(** A mod is queued while no server path is set. *)
Definition no_path_download (new_id : Z) (wid : string) (isColl : bool)
    (nm : option string) : list Label :=
  [AddToQueue new_id wid isColl nm; Tau; Tau].

(** One mod goes through the queue without a hitch. *)
Definition good_download (new_id : Z) (wid : string) (isColl : bool)
    (nm dname : option string) : list Label :=
  [AddToQueue new_id wid isColl nm; Tau; DownloadReturned true None;
   DetailsReturned dname; AddModReturned; Tau].

End ModQueue.



(** * Properties *)

(** ** RCON client *)

Section RCON_facts.
Import RCON.

Lemma getNextRequestId_value (s : State) :
  fst (getNextRequestId s) = (requestId s + 1) mod (2 ^ 32 - 1)
  /\ requestId (snd (getNextRequestId s)) = fst (getNextRequestId s).
Proof. split; reflexivity. Qed.

(** Below the last but one value of the range the allocator does
    increase by one modulo 2^32. *)
Lemma getNextRequestId_below (s : State) :
  0 <= requestId s < 2 ^ 32 - 2 ->
  fst (getNextRequestId s) = (requestId s + 1) mod 2 ^ 32.
Proof.
  intros H. cbn [getNextRequestId fst].
  rewrite !Z.mod_small; lia.
Qed.

(** C4. The allocator reduces modulo 0xFFFFFFFF = 2^32 - 1, not 2^32,
    for every counter value; from counter 4294967294 the next id is 0,
    where increment modulo 2^32 gives 4294967295. *)
Theorem getNextRequestId_wraps_at_0xFFFFFFFF :
  (forall s, fst (getNextRequestId s) = (requestId s + 1) mod (2 ^ 32 - 1))
  /\ let s := {| socket := None; host := "127.0.0.1"; port := 2302;
                 password := ""; isConnected := false;
                 requestId := 4294967294; pendingRequests := [] |} in
     fst (getNextRequestId s) = 0
     /\ (requestId s + 1) mod 2 ^ 32 = 4294967295
     /\ fst (getNextRequestId s) <> (requestId s + 1) mod 2 ^ 32.
Proof.
  split; [intros s; reflexivity|].
  cbv zeta. vm_compute. repeat split; congruence.
Qed.

(** The ['error'] listener rejects one promise per pending entry. *)
Lemma onSocketError_rejects_all (s : State) :
  rejected (snd (onSocketError s))
  = map (fun kv => (promise (snd kv), ConnectionError)) (pendingRequests s)
  /\ pendingRequests (fst (onSocketError s)) = [].
Proof.
  split; [|reflexivity]. unfold onSocketError; cbn [snd].
  induction (pendingRequests s) as [|[k v] m IH]; [reflexivity|].
  cbn. f_equal. exact IH.
Qed.

(** C1. Whatever is pending, [disconnect] closes the socket, clears the
    flag and empties the map, and rejects (or resolves) no promise at
    all.  With two commands in flight both entries are dropped uncalled,
    where the socket ['error'] listener, on the same state, rejects
    both. *)
Theorem disconnect_drops_pending :
  (forall s,
     rejected (snd (disconnect s)) = []
     /\ settled (snd (disconnect s)) = []
     /\ pendingRequests (fst (disconnect s)) = []
     /\ isConnected (fst (disconnect s)) = false
     /\ socket (fst (disconnect s)) = None)
  /\ map fst (pendingRequests two_in_flight) = [2; 3]
  /\ snd (disconnect two_in_flight) = [SocketClose]
  /\ rejected (snd (disconnect two_in_flight)) = []
  /\ rejected (snd (onSocketError two_in_flight))
     = [(0%nat, ConnectionError); (1%nat, ConnectionError)].
Proof.
  split.
  - intros s. unfold disconnect. destruct (socket s); repeat split.
  - vm_compute. repeat split.
Qed.

(** What becomes of a dropped request: its promise is settled only when
    its own 10 s timer fires, with the timeout error. *)
Example dropped_request_times_out :
  snd (commandTimeout 2 0 (fst (disconnect two_in_flight)))
  = [Reject 0 CommandTimeout].
Proof. reflexivity. Qed.

End RCON_facts.

(** ** Server process supervisor *)

Section ServerControl_facts.
Import ServerControl.

Implicit Types (s : State) (w : World) (o : StartObs) (plat : Platform).

(** The second guard of [startServer] is the negation of
    [no_live_process]. *)
Lemma no_live_process_guard s w :
  no_live_process s w
  = negb (match serverProcess s with
          | Some h => truthy_pid (pid_of w h)
          | None => false
          end).
Proof. unfold no_live_process. destruct (serverProcess s); reflexivity. Qed.

(** C8. While the server is running (the flag is set, or a child with a
    pid is held), [startServer] fails with the already-running error
    and returns the supervisor and the world as they were: handle, pid,
    flag and install path are those from before the call. *)
Theorem startServer_already_running plat o path profileName parameters s w :
  isRunning s = true \/ no_live_process s w = false ->
  exists e,
    is_AlreadyRunning e = true
    /\ startServer plat o path profileName parameters s w = (inl e, s, w).
Proof.
  intros H. unfold startServer.
  destruct (isRunning s) eqn:Hrun.
  - exists AlreadyRunning. auto.
  - destruct H as [H|H]; [discriminate|].
    rewrite no_live_process_guard in H. apply negb_false_iff in H.
    rewrite H. exists ProcessAlreadyExists. auto.
Qed.

Lemma startServer_already_running_witness :
  isRunning running_state = true
  /\ exists e,
       is_AlreadyRunning e = true
       /\ startServer posix ok_obs "/srv/dayz" "default" [] running_state live_world
          = (inl e, running_state, live_world).
Proof.
  split; [reflexivity|].
  apply (startServer_already_running posix ok_obs "/srv/dayz" "default" []
           running_state live_world).
  left. reflexivity.
Defined.

(** The new child sits at the end of the table of children. *)
Lemma pid_of_spawned w c :
  pid_of (set_procs (procs w ++ [c]) w) (length (procs w)) = pid c.
Proof.
  unfold pid_of; cbn. rewrite list_lookup_middle by reflexivity. reflexivity.
Qed.

Lemma killed_of_spawned w c :
  killed_of (set_procs (procs w ++ [c]) w) (length (procs w)) = killed c.
Proof.
  unfold killed_of; cbn. rewrite list_lookup_middle by reflexivity. reflexivity.
Qed.






Lemma calls_kill h sig w :
  calls (kill h sig w) = (calls w ++ [Kill h sig])%list.
Proof. unfold kill. repeat case_match; reflexivity. Qed.

(** The escalation callback signals the child held in
    [this.serverProcess] when it runs, and no other. *)
Lemma escalate_targets_current s w h :
  Kill h SIGKILL ∈ calls (escalate s w) ->
  Kill h SIGKILL ∈ calls w \/ serverProcess s = Some h.
Proof.
  unfold escalate. destruct (serverProcess s) as [h'|]; [|auto].
  destruct (negb (killed_of w h')); [|auto].
  rewrite calls_kill. intros Hc.
  apply elem_of_app in Hc as [Hc|Hc]; [auto|].
  apply list_elem_of_singleton in Hc. injection Hc as ->. auto.
Qed.

(** C3. On the non-Windows branch [stopServer] sends SIGTERM to the
    child (still alive, with a pid) and arms the 5 s timer, then clears
    [this.serverProcess] before returning.  When the timer fires the
    callback finds no handle and sends nothing, although the child has
    not exited; with the handle still in place it would find [killed]
    already set by the SIGTERM and send nothing either.  Whenever it
    runs later, it never signals the stopped child unless that child is
    the current handle again. *)
Theorem stopServer_escalation_never_fires s w h c :
  isRunning s = true ->
  serverProcess s = Some h ->
  procs w !! h = Some c ->
  is_Some (pid c) ->
  exited c = false ->
  exists s' w',
    stopServer posix s w = (inr Stopped, s', w')
    /\ calls w' = (calls w ++ [Kill h SIGTERM])%list
    /\ timers w' = (timers w ++ [Escalation h 5000])%list
    /\ procs w' !! h = Some {| pid := pid c; killed := true; exited := false |}
    /\ serverProcess s' = None
    /\ calls (escalate s' w') = calls w'
    /\ calls (escalate s w') = calls w'
    /\ forall s2 w2,
         serverProcess s2 <> Some h ->
         Kill h SIGKILL ∉ calls w2 ->
         Kill h SIGKILL ∉ calls (escalate s2 w2).
Proof.
  intros Hrun Hproc Hc [p Hp] Hex.
  assert (Hlt : (h < length (procs w))%nat) by (eapply lookup_lt_Some; eauto).
  unfold stopServer. rewrite Hrun, Hproc.
  eexists _, _. split; [reflexivity|].
  unfold kill. rewrite Hc, Hp, Hex. cbn.
  rewrite list_lookup_insert_eq by exact Hlt.
  repeat split.
  - unfold escalate. rewrite Hproc. unfold killed_of. cbn.
    rewrite list_lookup_insert_eq by exact Hlt. reflexivity.
  - intros s2 w2 Hne Hnot Hin.
    apply escalate_targets_current in Hin as [Hin|Hin]; contradiction.
Qed.

Lemma stopServer_escalation_never_fires_witness :
  isRunning running_state = true
  /\ serverProcess running_state = Some 0%nat
  /\ procs live_world !! 0%nat
     = Some {| pid := Some 4242; killed := false; exited := false |}
  /\ exists s' w',
       stopServer posix running_state live_world = (inr Stopped, s', w')
       /\ calls w' = (calls live_world ++ [Kill 0%nat SIGTERM])%list
       /\ timers w' = (timers live_world ++ [Escalation 0%nat 5000])%list
       /\ procs w' !! 0%nat
          = Some {| pid := Some 4242; killed := true; exited := false |}
       /\ serverProcess s' = None
       /\ calls (escalate s' w') = calls w'
       /\ calls (escalate running_state w') = calls w'
       /\ forall s2 w2,
            serverProcess s2 <> Some 0%nat ->
            Kill 0%nat SIGKILL ∉ calls w2 ->
            Kill 0%nat SIGKILL ∉ calls (escalate s2 w2).
Proof.
  split; [reflexivity|]. split; [reflexivity|]. split; [reflexivity|].
  apply (stopServer_escalation_never_fires running_state live_world 0%nat
           {| pid := Some 4242; killed := false; exited := false |}).
  - reflexivity.
  - reflexivity.
  - reflexivity.
  - exists 4242. reflexivity.
  - reflexivity.
Defined.

(** What the armed timer does after a restart: when it fires, the
    handle is the freshly started child, whose [killed] is still false,
    so that child gets the SIGKILL. *)
Example restart_then_timer_kills_new_child :
  let '(r, s, w) := restartServer posix ok_obs "/srv/dayz" "default" [] 0
                      running_state live_world in
  r = inr (Started (Some 5000))
  /\ serverProcess s = Some 1%nat
  /\ timers w = [Escalation 0%nat 5000]
  /\ calls (fire_timeout s w) = (calls w ++ [Kill 1%nat SIGKILL])%list.
Proof. vm_compute. repeat split. Qed.

(** *** Scheduled restarts *)












(** The restart made for the last entry throws (its install path is
    gone): the call fails, and both entries are marked executed all the
    same. *)
Example own_restart_throws_still_marked :
  let '(r, fired, s', _) :=
    checkScheduledRestarts posix 5000
      (fun i => match i with O => ok_obs | _ => gone_obs end)
      (set_scheduledRestarts [entry_ok; entry_gone] running_state) live_world in
  r = inl (FailedToStart (PathNotFound "/gone"))
  /\ fired = [0%nat; 1%nat]
  /\ map Restart.executed (scheduledRestarts s') = [true; true].
Proof. vm_compute. repeat split. Qed.


End ServerControl_facts.

(** ** Mod download queue *)

Section ModQueue_facts.
Import ModQueue.

Implicit Types (s : State) (l : Loop) (r : nat) (it : Item).

(** *** Reading items after a write *)

Lemma item_upd r f s r' :
  item (upd r f s) r' = if decide (r = r') then f (item s r) else item s r'.
Proof.
  unfold item, upd; cbn. destruct (decide (r = r')) as [->|Hne].
  - apply lookup_total_insert_eq.
  - apply lookup_total_insert_ne. exact Hne.
Qed.

Lemma item_push it s r' :
  item (push it s) r' = if decide (next_ref s = r') then it else item s r'.
Proof.
  unfold item, push; cbn. destruct (decide (next_ref s = r')) as [->|Hne].
  - apply lookup_total_insert_eq.
  - apply lookup_total_insert_ne. exact Hne.
Qed.

(** *** clearCompleted *)

Lemma filter_filter_implied {A} (P Q : A -> Prop)
    `{forall x, Decision (P x)} `{forall x, Decision (Q x)} (xs : list A) :
  (forall x, P x -> Q x) -> filter P (filter Q xs) = filter P xs.
Proof.
  intros HPQ. induction xs as [|x xs IH]; [reflexivity|].
  rewrite !filter_cons. destruct (decide (Q x)) as [HQ|HQ].
  - rewrite filter_cons. destruct (decide (P x)); rewrite IH; reflexivity.
  - destruct (decide (P x)) as [HP|HP]; [|exact IH].
    exfalso. apply HQ, HPQ, HP.
Qed.

Lemma filter_filter_excluded {A} (P Q : A -> Prop)
    `{forall x, Decision (P x)} `{forall x, Decision (Q x)} (xs : list A) :
  (forall x, P x -> ~ Q x) -> filter P (filter Q xs) = [].
Proof.
  intros HPQ. induction xs as [|x xs IH]; [reflexivity|].
  rewrite filter_cons. destruct (decide (Q x)) as [HQ|HQ]; [|exact IH].
  rewrite filter_cons. destruct (decide (P x)) as [HP|HP]; [|exact IH].
  exfalso. exact (HPQ x HP HQ).
Qed.

Lemma length_split_by_status (f : nat -> Status) (xs : list nat) :
  length xs
  = (length (filter (fun r => f r <> completed /\ f r <> failed) xs)
     + (length (filter (fun r => f r = completed) xs)
        + length (filter (fun r => f r = failed) xs)))%nat.
Proof.
  induction xs as [|x xs IH]; [reflexivity|].
  rewrite !filter_cons. cbn [length]. rewrite IH.
  destruct (f x) eqn:Hx; repeat case_decide; cbn [length];
    try lia; exfalso; intuition congruence.
Qed.

(** C10. [clearCompleted] keeps exactly the items that are pending or
    downloading, in their order, drops every completed and every failed
    item, returns the number of items dropped, touches no item, and is
    defined for every queue (it is a total function, and the call is
    possible whenever the loop is parked). *)
Theorem clearCompleted_spec s :
  let removed := fst (clearCompleted s) in
  let s' := snd (clearCompleted s) in
  (forall r, r ∈ queue s' <->
             r ∈ queue s /\ (status_of s r = pending \/ status_of s r = downloading))
  /\ queue s' `sublist_of` queue s
  /\ filter (fun r => status_of s r = pending) (queue s')
     = filter (fun r => status_of s r = pending) (queue s)
  /\ filter (fun r => status_of s r = downloading) (queue s')
     = filter (fun r => status_of s r = downloading) (queue s)
  /\ count completed s' = 0%nat
  /\ count failed s' = 0%nat
  /\ removed = (count completed s + count failed s)%nat
  /\ (removed + length (queue s') = length (queue s))%nat
  /\ heap s' = heap s
  /\ (suspended (pc s) = true -> step ClearCompleted s = Some s').
Proof.
  cbv zeta.
  set (keep := fun r => status_of s r <> completed /\ status_of s r <> failed).
  assert (Hq : queue (snd (clearCompleted s)) = filter keep (queue s)).
  { unfold clearCompleted. cbn. case_decide; reflexivity. }
  assert (Hh : heap (snd (clearCompleted s)) = heap s).
  { unfold clearCompleted. cbn. case_decide; reflexivity. }
  assert (Hst : forall r, status_of (snd (clearCompleted s)) r = status_of s r).
  { intros r. unfold status_of, item. rewrite Hh. reflexivity. }
  assert (Hrem : fst (clearCompleted s)
                 = (length (queue s) - length (filter keep (queue s)))%nat)
    by reflexivity.
  pose proof (length_split_by_status (status_of s) (queue s)) as Hsplit.
  fold keep in Hsplit.
  split; [|split; [|split; [|split; [|split; [|split; [|split; [|split; [|split]]]]]]]].
  - intros r. rewrite Hq, list_elem_of_filter. unfold keep.
    destruct (status_of s r); intuition congruence.
  - rewrite Hq. apply sublist_filter.
  - rewrite Hq. apply filter_filter_implied. unfold keep. intros r ->.
    split; discriminate.
  - rewrite Hq. apply filter_filter_implied. unfold keep. intros r ->.
    split; discriminate.
  - unfold count. rewrite Hq.
    rewrite (list_filter_iff _ (fun r => status_of s r = completed))
      by (intros r; rewrite Hst; reflexivity).
    rewrite filter_filter_excluded; [reflexivity|].
    unfold keep. intros r Hc [Hn _]. contradiction.
  - unfold count. rewrite Hq.
    rewrite (list_filter_iff _ (fun r => status_of s r = failed))
      by (intros r; rewrite Hst; reflexivity).
    rewrite filter_filter_excluded; [reflexivity|].
    unfold keep. intros r Hc [_ Hn]. contradiction.
  - rewrite Hrem. unfold count. lia.
  - rewrite Hrem, Hq. pose proof (length_filter keep (queue s)). lia.
  - exact Hh.
  - intros Hsus. cbn. rewrite Hsus. reflexivity.
Qed.

(** The two places that report the progress of a collection: the start
    of member [i] reports [member_start_progress i total]; the progress
    sink, called with [p] during the download of member [i], reports
    [overall_progress i total p]. *)
Lemma coll_head_reports r i sc fc s modId :
  member s r i = Some modId ->
  progress_reports (coll_head r i sc fc s)
  = (progress_reports s
     ++ [member_start_progress i (length (default [] (modIds (item s r))))])%list.
Proof.
  unfold member, coll_head. intros ->.
  unfold progress_reports. cbn [events set_pc emit emit_update upd].
  rewrite !flat_map_app. cbn [flat_map app]. rewrite !app_nil_r.
  rewrite item_upd, decide_True by reflexivity. reflexivity.
Qed.

Lemma on_progress_reports r i sc fc s s' p :
  pc s = CollDownload r i sc fc ->
  step (OnProgress p) s = Some s' ->
  progress_reports s'
  = (progress_reports s
     ++ [overall_progress i (length (default [] (modIds (item s r))))
           (progress_or_0 p)])%list.
Proof.
  intros Hpc. cbn. rewrite Hpc. intros [= <-].
  unfold progress_reports. cbn [events emit upd].
  rewrite flat_map_app. cbn [flat_map app].
  rewrite item_upd, decide_True by reflexivity. reflexivity.
Qed.

(** C5. For a collection of two members the loop first reports
    [Math.round(((0 + 1) / 2) * 100) = 50] before the first download has
    begun, and then, when that member reports 10 % of its own download,
    [Math.round((0 / 2) * 100 + 10 / 2) = 5]: the first value is not the
    blend of completed members and sub-progress (which is 0 there), and
    the reported values go down. *)
Theorem collection_progress_goes_back :
  exists s,
    run two_member_run init = Some s
    /\ pc s = CollDownload 0 0 0 0
    /\ progress_reports s = [50; 5]
    /\ nondecreasing (progress_reports s) = false
    /\ member_start_progress 0 2 = 50
    /\ overall_progress 0 2 0 = 0
    /\ overall_progress 0 2 10 = 5.
Proof.
  eexists. split; [vm_compute; reflexivity|].
  vm_compute. repeat split.
Qed.

(** The same gap for every collection of up to 20 members: the value
    reported when member [i] starts is above the blend for [i] completed
    members and a download that has not moved yet. *)
Example member_start_overshoots :
  forallb (fun total =>
             forallb (fun i => (overall_progress i total 0
                                <? member_start_progress i total)%Z)
                     (seq 0 total))
          (seq 1 20)
  = true.
Proof. vm_compute. reflexivity. Qed.

(** *** The invariant is kept by every building block of the loop *)

Lemma NoDup_all_equal (xs : list nat) (x : nat) :
  NoDup xs -> (forall y, y ∈ xs -> y = x) -> (length xs <= 1)%nat.
Proof.
  intros Hnd Hall. destruct xs as [|a [|b t]]; cbn; [lia|lia|].
  exfalso. apply NoDup_cons in Hnd as [Hnotin _].
  apply Hnotin. rewrite (Hall a), <- (Hall b); [left|right; left|left].
Qed.

(** At most one item of the array is 'downloading'. *)
Lemma Sound_count l s : Sound l s -> (count downloading s <= 1)%nat.
Proof.
  intros HI. unfold count.
  destruct (in_flight l) as [x|] eqn:Hfl.
  - apply (NoDup_all_equal _ x).
    + apply NoDup_filter, (Sound_nodup _ _ HI).
    + intros y Hy. apply list_elem_of_filter in Hy as [Hd Hin].
      pose proof (Sound_down _ _ HI y Hin Hd) as Hy. congruence.
  - destruct (filter _ (queue s)) as [|y t] eqn:Hf; [cbn; lia|].
    assert (Hy : y ∈ filter (fun r => status_of s r = downloading) (queue s))
      by (rewrite Hf; left).
    apply list_elem_of_filter in Hy as [Hd Hin].
    pose proof (Sound_down _ _ HI y Hin Hd). congruence.
Qed.

(** Writes that touch neither items, array, allocator nor event log. *)
Lemma Sound_frame l s s' :
  heap s' = heap s -> queue s' = queue s -> next_ref s' = next_ref s ->
  events s' = events s -> Sound l s -> Sound l s'.
Proof.
  intros Hh Hq Hn He [H1 H2 H3 H4 H5 H6 H7].
  unfold status_of, item, snapshots in *.
  split; unfold status_of, item, snapshots; rewrite ?Hh, ?Hq, ?Hn, ?He; assumption.
Qed.

Lemma Sound_set_pc l l' s : Sound l s -> Sound l (set_pc l' s).
Proof. apply Sound_frame; reflexivity. Qed.

Lemma Sound_set_currentItem l c s : Sound l s -> Sound l (set_currentItem c s).
Proof. apply Sound_frame; reflexivity. Qed.

Lemma Sound_set_isProcessing l b s : Sound l s -> Sound l (set_isProcessing b s).
Proof. apply Sound_frame; reflexivity. Qed.

Lemma Sound_setServerPath l p s : Sound l s -> Sound l (setServerPath p s).
Proof. apply Sound_frame; reflexivity. Qed.

Lemma snapshots_emit e s :
  snapshots (emit e s)
  = (snapshots s ++ match e with QueueUpdated st => [st] | _ => [] end)%list.
Proof.
  unfold snapshots, emit; cbn. rewrite flat_map_app. cbn.
  rewrite app_nil_r. reflexivity.
Qed.

Lemma Sound_emit l e s :
  (forall st, e = QueueUpdated st -> (Snapshot.downloading st <= 1)%nat) ->
  Sound l s -> Sound l (emit e s).
Proof.
  intros He [H1 H2 H3 H4 H5 H6 H7]. split; try assumption.
  intros st. rewrite snapshots_emit. intros Hin.
  apply elem_of_app in Hin as [Hin|Hin]; [auto|].
  destruct e; try (inversion Hin; fail).
  apply list_elem_of_singleton in Hin. subst. apply He. reflexivity.
Qed.

Lemma Sound_emit_update l s : Sound l s -> Sound l (emit_update s).
Proof.
  intros HI. apply Sound_emit; [|exact HI].
  intros st [= <-]. cbn. exact (Sound_count _ _ HI).
Qed.

(** A write that leaves status and member list of the item alone. *)
Lemma Sound_upd_keep l r f s :
  (forall it, status (f it) = status it /\ modIds (f it) = modIds it) ->
  Sound l s -> Sound l (upd r f s).
Proof.
  intros Hf [H1 H2 H3 H4 H5 H6 H7].
  assert (Hst : forall r', status_of (upd r f s) r' = status_of s r').
  { intros r'. unfold status_of. rewrite item_upd.
    case_decide; [subst; apply Hf|reflexivity]. }
  assert (Hm : forall r', modIds (item (upd r f s) r') = modIds (item s r')).
  { intros r'. rewrite item_upd. case_decide; [subst; apply Hf|reflexivity]. }
  split; try assumption.
  - intros r' Hin. rewrite Hst. auto.
  - intros r' ms. rewrite Hm. apply H4.
  - intros r' Hr'. rewrite Hm. auto.
Qed.

(** The loop position changes; the item in flight stays the same. *)
Lemma Sound_relabel l l' s :
  in_flight l' = in_flight l ->
  (forall r, pc_ref l' = Some r -> (r < next_ref s)%nat) ->
  (forall r, coll_ref l' = Some r -> is_Some (modIds (item s r))) ->
  Sound l s -> Sound l' s.
Proof.
  intros Hfl Hr Hc [H1 H2 H3 H4 H5 H6 H7]. split; try assumption.
  intros r Hin Hd. rewrite Hfl. auto.
Qed.

(** The item in flight (if any) gets a status other than 'downloading':
    nothing in the array is 'downloading' afterwards. *)
Lemma Sound_settle l l' r f s :
  (forall it, status (f it) <> downloading /\ modIds (f it) = modIds it) ->
  (forall x, in_flight l = Some x -> x = r) ->
  (forall x, pc_ref l' = Some x -> (x < next_ref s)%nat) ->
  coll_ref l' = None ->
  Sound l s -> Sound l' (upd r f s).
Proof.
  intros Hf Hfl Hr Hc [H1 H2 H3 H4 H5 H6 H7].
  assert (Hm : forall r', modIds (item (upd r f s) r') = modIds (item s r')).
  { intros r'. rewrite item_upd. case_decide; [subst; apply Hf|reflexivity]. }
  split; try assumption.
  - intros r' Hin. unfold status_of. rewrite item_upd. case_decide.
    + intros Hd. exfalso. exact (proj1 (Hf _) Hd).
    + intros Hd. exfalso. pose proof (H2 r' Hin Hd) as Hx.
      apply Hfl in Hx. congruence.
  - intros r' ms. rewrite Hm. apply H4.
  - intros r' Hr'. congruence.
Qed.

(** With nothing 'downloading', an item of the array is marked. *)
Lemma Sound_start l l' r s :
  in_flight l = None ->
  in_flight l' = Some r ->
  pc_ref l' = Some r ->
  (forall x, coll_ref l' = Some x -> is_Some (modIds (item s x))) ->
  r ∈ queue s ->
  Sound l s -> Sound l' (upd r (set_status downloading) s).
Proof.
  intros Hnone Hfl Hpr Hc Hin [H1 H2 H3 H4 H5 H6 H7].
  assert (Hm : forall r', modIds (item (upd r (set_status downloading) s) r')
                          = modIds (item s r')).
  { intros r'. rewrite item_upd. case_decide; [subst|]; reflexivity. }
  split; try assumption.
  - intros r' Hin'. unfold status_of. rewrite item_upd. case_decide.
    + intros _. congruence.
    + intros Hd. pose proof (H2 r' Hin' Hd). congruence.
  - intros r' ms. rewrite Hm. apply H4.
  - intros r' Hr'. assert (r' = r) by congruence. subst. cbn. auto.
  - intros r' Hr'. rewrite Hm. auto.
Qed.

Lemma coll_ref_pc_ref l r : coll_ref l = Some r -> pc_ref l = Some r.
Proof. destruct l; cbn; congruence. Qed.

Lemma in_flight_pc_ref l r : in_flight l = Some r -> pc_ref l = Some r.
Proof. destruct l; cbn; congruence. Qed.

(** A new pending item is appended. *)
Lemma Sound_push l it s :
  status it = pending ->
  (forall ms, modIds it = Some ms -> ms <> []) ->
  Sound l s -> Sound l (push it s).
Proof.
  intros Hst Hms [H1 H2 H3 H4 H5 H6 H7].
  split; cbn [queue next_ref push].
  - apply NoDup_app. split; [exact H1|]. split; [|apply NoDup_singleton].
    intros x Hx Hx'. apply list_elem_of_singleton in Hx'. subst.
    apply H3 in Hx. lia.
  - intros r Hin. unfold status_of. rewrite item_push. case_decide.
    + rewrite Hst. discriminate.
    + apply elem_of_app in Hin as [Hin|Hin]; [apply H2, Hin|].
      apply list_elem_of_singleton in Hin. congruence.
  - intros r Hin. apply elem_of_app in Hin as [Hin|Hin].
    + apply H3 in Hin. lia.
    + apply list_elem_of_singleton in Hin. lia.
  - intros r ms. rewrite item_push. case_decide; [apply Hms|apply H4].
  - exact H5.
  - intros r Hr. apply H6 in Hr. lia.
  - intros r Hr. rewrite item_push. case_decide.
    + apply coll_ref_pc_ref, H6 in Hr. lia.
    + auto.
Qed.

(** Items leave the array. *)
Lemma Sound_set_queue l q s :
  q `sublist_of` queue s -> Sound l s -> Sound l (set_queue q s).
Proof.
  intros Hsub [H1 H2 H3 H4 H5 H6 H7]. split; try assumption; cbn [queue set_queue].
  - eapply sublist_NoDup; eauto.
  - intros r Hin. apply H2. eapply elem_of_sublist; eauto.
  - intros r Hin. apply H3. eapply elem_of_sublist; eauto.
Qed.

(** *** The invariant is kept by every step *)

Ltac frame_sound :=
  repeat first
    [ apply Sound_set_pc | apply Sound_set_currentItem | apply Sound_set_isProcessing
    | apply Sound_setServerPath | apply Sound_emit_update
    | apply Sound_emit; [intros ? [=]|] ].

Ltac keep_f := intros []; split; reflexivity.

Ltac settle_f :=
  intros []; unfold settle_collection; repeat case_decide; cbn;
  split; (discriminate || reflexivity).

Lemma Sound_finish s : Sound Head s -> Sound Head (finish s).
Proof. intros HI. unfold finish. frame_sound. exact HI. Qed.

Lemma Sound_catch l r msg s :
  (forall x, in_flight l = Some x -> x = r) -> Sound l s -> Sound Head (catch r msg s).
Proof.
  intros Hfl HI. unfold catch. apply Sound_finish. frame_sound.
  apply (Sound_settle l Head); [settle_f|exact Hfl|intros ? [=]|reflexivity|exact HI].
Qed.

Lemma Inv_init : Inv init.
Proof.
  split; [|reflexivity]. split; cbn.
  - apply NoDup_nil_2.
  - intros r Hin. inversion Hin.
  - intros r Hin. inversion Hin.
  - intros r ms. unfold item. cbn. rewrite lookup_total_empty. discriminate.
  - intros st Hin. inversion Hin.
  - intros r [=].
  - intros r [=].
Qed.

Lemma Inv_processQueue s s' : Inv s -> processQueue s = Some s' -> Inv s'.
Proof.
  intros [HI Hflag]. unfold processQueue.
  destruct (isProcessing s) eqn:Hp; [intros [= <-]; split; [assumption|congruence]|].
  destruct (pc s) eqn:Hpc; intros [= <-]. split; [|reflexivity].
  cbn [pc set_pc]. frame_sound.
  apply (Sound_relabel Idle Head); [reflexivity|intros ? [=]|intros ? [=]|exact HI].
Qed.

Lemma Inv_same_pc s s' :
  pc s' = pc s -> isProcessing s' = isProcessing s ->
  Sound (pc s) s' -> Inv s -> Inv s'.
Proof.
  intros Hpc Hp HI [_ Hflag]. split; rewrite Hpc; [exact HI|congruence].
Qed.

Lemma Inv_push it s :
  status it = pending ->
  (forall ms, modIds it = Some ms -> ms <> []) ->
  Inv s -> Inv (emit_update (push it s)).
Proof.
  intros Hst Hms HInv.
  apply (Inv_same_pc s); [reflexivity|reflexivity| |exact HInv].
  frame_sound. apply Sound_push; [exact Hst|exact Hms|apply HInv].
Qed.

Lemma Inv_api s s' lbl :
  match lbl with
  | AddToQueue _ _ _ _ | AddCollectionToQueue _ _ _ _ _ | RemoveFromQueue _
  | ClearCompleted | ClearAll | SetServerPath _ => True
  | _ => False
  end ->
  Inv s -> step lbl s = Some s' -> Inv s'.
Proof.
  intros Hapi HInv Hstep. destruct lbl; try contradiction; cbn in Hstep;
    destruct (suspended (pc s)); try discriminate.
  - unfold addToQueue in Hstep.
    destruct (processQueue _) as [s1|] eqn:Hq; [|discriminate].
    cbn in Hstep. injection Hstep as <-.
    eapply Inv_processQueue; [|exact Hq].
    apply Inv_push; [reflexivity|discriminate|exact HInv].
  - unfold addCollectionToQueue in Hstep. destruct ids as [|i0 ids].
    + cbn in Hstep. injection Hstep as <-. exact HInv.
    + destruct (processQueue _) as [s1|] eqn:Hq; [|discriminate].
      cbn in Hstep. injection Hstep as <-.
      eapply Inv_processQueue; [|exact Hq].
      apply Inv_push; [reflexivity|intros ms [= <-]; discriminate|exact HInv].
  - injection Hstep as <-. unfold removeFromQueue.
    destruct (list_find _ _) as [[index r]|]; [|exact HInv].
    case_decide; [exact HInv|]. cbn [snd].
    apply (Inv_same_pc s); [reflexivity|reflexivity| |exact HInv].
    frame_sound. apply Sound_set_queue; [apply sublist_delete|apply HInv].
  - injection Hstep as <-. unfold clearCompleted. cbn [snd].
    apply (Inv_same_pc s); [case_decide; reflexivity|case_decide; reflexivity|
                            |exact HInv].
    case_decide; frame_sound; (apply Sound_set_queue; [apply sublist_filter|apply HInv]).
  - injection Hstep as <-. unfold clearAll.
    destruct (isProcessing s); [exact HInv|]. cbn [snd].
    apply (Inv_same_pc s); [reflexivity|reflexivity| |exact HInv].
    frame_sound. apply Sound_set_queue; [apply sublist_nil_l|apply HInv].
  - injection Hstep as <-.
    apply (Inv_same_pc s); [reflexivity|reflexivity| |exact HInv].
    frame_sound. apply HInv.
Qed.

Lemma Inv_exit_loop s : Sound Head s -> Inv (exit_loop s).
Proof.
  intros HI. split; [|reflexivity]. unfold exit_loop. cbn [pc set_pc]. frame_sound.
  apply (Sound_relabel Head Idle); [reflexivity|intros ? [=]|intros ? [=]|exact HI].
Qed.

Lemma Inv_back_to_head s s0 :
  isProcessing s0 = true -> isProcessing s = isProcessing s0 ->
  pc s = Head -> Sound Head s -> Inv s.
Proof. intros Hp0 Hp Hpc HI. split; rewrite Hpc; [exact HI|cbn; congruence]. Qed.

Lemma Inv_loop_head s : Inv s -> pc s = Head -> Inv (loop_head s).
Proof.
  intros [HI Hflag] Hpc. rewrite Hpc in HI, Hflag. cbn in Hflag.
  unfold loop_head. destruct (queue s) as [|q0 qs] eqn:Hq.
  { apply Inv_exit_loop, HI. }
  rewrite <- Hq. clear Hq q0 qs.
  destruct (find (fun r => bool_decide (status_of s r = pending)) (queue s))
    as [r|] eqn:Hfind.
  - apply find_some in Hfind as [Hin _]. apply list_elem_of_In in Hin.
    set (s1 := upd r (set_status downloading) (set_currentItem (Some r) s)).
    set (s2 := emit (ItemStarted r) (emit_update s1)).
    assert (Hit : item s2 r = set_status downloading (item s r)).
    { unfold s2, s1. unfold item at 1. cbn [heap emit emit_update upd].
      fold (item (set_currentItem (Some r) s) r).
      rewrite lookup_total_insert_eq. reflexivity. }
    assert (Hmk : forall l', in_flight l' = Some r -> pc_ref l' = Some r ->
                    (forall x, coll_ref l' = Some x -> is_Some (modIds (item s x))) ->
                    Sound l' s2).
    { intros l' Hfl Hpr Hc. unfold s2, s1. frame_sound.
      apply (Sound_start Head l'); [reflexivity|exact Hfl|exact Hpr| | |].
      - exact Hc.
      - exact Hin.
      - frame_sound. exact HI. }
    assert (Hps : isProcessing s2 = true) by exact Hflag.
    clearbody s2. clear s1.
    destruct (falsy (serverPath s2)).
    + apply (Inv_back_to_head _ s2); [exact Hps|reflexivity|reflexivity|].
      apply (Sound_catch (SingleDownload r)); [intros x [= <-]; reflexivity|].
      apply Hmk; [reflexivity|reflexivity|intros x [=]].
    + rewrite Hit. cbn [isCollection modIds set_status].
      destruct (isCollection (item s r)) eqn:Hcoll;
        [destruct (modIds (item s r)) as [ms|] eqn:Hms|].
      * split; [|exact Hps]. cbn [pc set_pc]. frame_sound.
        apply Hmk; [reflexivity|reflexivity|].
        intros x [= <-]. rewrite Hms. eauto.
      * split; [|exact Hps]. cbn [pc set_pc]. frame_sound.
        apply Hmk; [reflexivity|reflexivity|intros x [=]].
      * split; [|exact Hps]. cbn [pc set_pc]. frame_sound.
        apply Hmk; [reflexivity|reflexivity|intros x [=]].
  - destruct (find (fun r => bool_decide (status_of s r = downloading)) (queue s))
      as [d|] eqn:Hfd.
    + split; [|exact Hflag]. cbn [pc set_pc]. frame_sound.
      apply (Sound_relabel Head StaleWait);
        [reflexivity|intros ? [=]|intros ? [=]|exact HI].
    + apply Inv_exit_loop, HI.
Qed.

Lemma Inv_coll_head r i sc fc s :
  Inv s -> pc s = CollHead r i sc fc -> Inv (coll_head r i sc fc s).
Proof.
  intros [HI Hflag] Hpc. rewrite Hpc in HI, Hflag. cbn in Hflag.
  unfold coll_head. destruct (_ !! i) as [modId|].
  - split; [|exact Hflag]. cbn [pc set_pc]. frame_sound.
    apply Sound_upd_keep; [keep_f|].
    apply (Sound_relabel (CollHead r i sc fc)); [reflexivity| |exact (Sound_coll _ _ HI)|exact HI].
    exact (Sound_ref _ _ HI).
  - apply (Inv_back_to_head _ s); [exact Hflag|reflexivity|reflexivity|].
    apply Sound_finish. frame_sound.
    apply (Sound_settle (CollHead r i sc fc) Head);
      [settle_f|intros x [= <-]; reflexivity|intros ? [=]|reflexivity|exact HI].
Qed.

Lemma Inv_intro l' s' :
  pc s' = l' -> isProcessing s' = negb (is_idle l') -> Sound l' s' -> Inv s'.
Proof. intros <- Hp HI. split; assumption. Qed.

Ltac solve_sound HI Href Hcoll :=
  match type of HI with
  | Sound ?l _ =>
    first
      [ apply (Sound_catch l); [cbn; intros x [= <-]; reflexivity|exact HI]
      | apply Sound_finish; frame_sound;
        first
          [ apply (Sound_settle l Head);
            [settle_f|cbn; intros x [= <-]; reflexivity
            |intros ? [=]|reflexivity|exact HI]
          | apply (Sound_relabel l Head);
            [reflexivity|intros ? [=]|intros ? [=]|exact HI] ]
      | frame_sound;
        first
          [ exact HI
          | apply Sound_upd_keep; [keep_f|]; exact HI
          | apply (Sound_settle l);
            [settle_f|cbn; intros x [= <-]; reflexivity
            |exact Href|reflexivity|exact HI]
          | apply (Sound_relabel l); [reflexivity|exact Href|exact Hcoll|exact HI]
          | apply (Sound_relabel l);
            [reflexivity|intros ? [=]|intros ? [=]|exact HI] ] ]
  end.

(** Every step keeps the invariant. *)
Lemma Inv_step lbl s s' : Inv s -> step lbl s = Some s' -> Inv s'.
Proof.
  intros HInv Hstep.
  destruct lbl; try (eapply Inv_api; [|exact HInv|exact Hstep]; exact Logic.I);
    cbn in Hstep; destruct (pc s) eqn:Hpc; try discriminate;
    try destruct in_catch; try destruct success;
    injection Hstep as <-;
    try (apply Inv_loop_head; assumption);
    try (apply Inv_coll_head; assumption);
    destruct HInv as [HI Hflag]; rewrite Hpc in HI, Hflag; cbn in Hflag;
    pose proof (Sound_ref _ _ HI) as Href; pose proof (Sound_coll _ _ HI) as Hcoll;
    (eapply Inv_intro;
     [ cbn [pc set_pc emit emit_update upd finish catch set_currentItem];
       first [exact Hpc|reflexivity]
     | exact Hflag
     | solve_sound HI Href Hcoll ]).
Qed.

Lemma reachable_Inv s : reachable s -> Inv s.
Proof.
  induction 1 as [|lbl s s' _ IH Hstep]; [exact Inv_init|].
  exact (Inv_step lbl s s' IH Hstep).
Qed.

Lemma run_reachable ls s s' : reachable s -> run ls s = Some s' -> reachable s'.
Proof.
  revert s. induction ls as [|lbl ls IH]; intros s Hs; cbn.
  - intros [= <-]. exact Hs.
  - destruct (step lbl s) as [s1|] eqn:Hstep; [|discriminate]. cbn.
    apply IH. exact (reachable_step lbl s s1 Hs Hstep).
Qed.

(** While the loop is parked, every call from the IPC layer goes through:
    the one case the model cannot express (a second activation of
    [processQueue]) never arises. *)
Lemma calls_enabled s lbl :
  reachable s -> suspended (pc s) = true -> is_call lbl = true ->
  is_Some (step lbl s).
Proof.
  intros Hreach Hsus Hcall. destruct (reachable_Inv s Hreach) as [_ Hflag].
  assert (Hpq : forall s0, isProcessing s0 = isProcessing s -> pc s0 = pc s ->
                  is_Some (processQueue s0)).
  { intros s0 Hp0 Hpc0. unfold processQueue. rewrite Hp0, Hpc0, Hflag.
    destruct (pc s); cbn; eauto. }
  destruct lbl; try discriminate; cbn; rewrite Hsus; eauto.
  - unfold addToQueue.
    destruct (Hpq (emit_update (push
                {| id := new_id; workshopId := Some workshopId0;
                   collectionId := None; isCollection := isCollection0;
                   name := or_else name0 ("Mod " +:+ workshopId0);
                   modIds := None; status := pending; progress := 0;
                   error := None |} s)) eq_refl eq_refl) as [s1 Hs1].
    rewrite Hs1. cbn. eauto.
  - unfold addCollectionToQueue. destruct ids as [|i0 ids]; [cbn; eauto|].
    destruct (Hpq (emit_update (push
                {| id := new_id; workshopId := None;
                   collectionId := Some collectionId0; isCollection := true;
                   name := or_else collectionName
                             (or_else coll_name ("Collection " +:+ collectionId0));
                   modIds := Some (i0 :: ids); status := pending; progress := 0;
                   error := None |} s)) eq_refl eq_refl) as [s1 Hs1].
    rewrite Hs1. cbn. eauto.
Qed.

(** C9. In every state the queue can reach by calls of [addToQueue],
    [addCollectionToQueue], [removeFromQueue], [clearCompleted],
    [clearAll], [setServerPath] and by steps of the processing loop, at
    most one item of the queue is 'downloading'; so the status snapshot
    of that state, and every snapshot sent with a 'queue-updated' event
    on the way there, reports a downloading count of at most 1. *)
Theorem at_most_one_downloading s :
  reachable s ->
  (count downloading s <= 1)%nat
  /\ (Snapshot.downloading (getQueueStatus s) <= 1)%nat
  /\ (forall st, st ∈ snapshots s -> (Snapshot.downloading st <= 1)%nat)
  /\ (forall r1 r2, r1 ∈ queue s -> r2 ∈ queue s ->
        status_of s r1 = downloading -> status_of s r2 = downloading -> r1 = r2).
Proof.
  intros Hreach. destruct (reachable_Inv s Hreach) as [HI _].
  pose proof (Sound_count _ _ HI) as Hc.
  split; [exact Hc|]. split; [exact Hc|]. split; [exact (Sound_snap _ _ HI)|].
  intros r1 r2 H1 H2 Hd1 Hd2.
  pose proof (Sound_down _ _ HI r1 H1 Hd1). pose proof (Sound_down _ _ HI r2 H2 Hd2).
  congruence.
Qed.

Lemma at_most_one_downloading_witness :
  reachable first_of_two_downloading
  /\ (count downloading first_of_two_downloading <= 1)%nat
  /\ (Snapshot.downloading (getQueueStatus first_of_two_downloading) <= 1)%nat
  /\ (forall st, st ∈ snapshots first_of_two_downloading ->
        (Snapshot.downloading st <= 1)%nat)
  /\ (forall r1 r2,
        r1 ∈ queue first_of_two_downloading ->
        r2 ∈ queue first_of_two_downloading ->
        status_of first_of_two_downloading r1 = downloading ->
        status_of first_of_two_downloading r2 = downloading -> r1 = r2).
Proof.
  assert (Hreach : reachable first_of_two_downloading).
  { apply (run_reachable two_mods_run init); [apply reachable_init|].
    vm_compute. reflexivity. }
  split; [exact Hreach|].
  apply (at_most_one_downloading first_of_two_downloading). exact Hreach.
Defined.

(** The state of the witness: the first mod is 'downloading', the second
    waits. *)
Example first_of_two_downloading_counts :
  map (status_of first_of_two_downloading) (queue first_of_two_downloading)
  = [downloading; pending]
  /\ map Snapshot.downloading (snapshots first_of_two_downloading)
     = [0%nat; 1%nat; 1%nat].
Proof. vm_compute. split; reflexivity. Qed.


(** With one member, downloaded but not written to the configuration,
    the counters are 1 and 1: the item is settled as 'failed' with the
    summary "1 succeeded, 1 failed". *)
Example sole_member_counted_twice :
  run sole_member_run init = Some after_sole_member
  /\ pc after_sole_member = CollHead 0 1 1 1
  /\ modIds (item after_sole_member 0) = Some ["7"]
  /\ step Tau after_sole_member = Some sole_member_settled
  /\ status_of sole_member_settled 0 = failed
  /\ error (item sole_member_settled 0) = Some "1 succeeded, 1 failed".
Proof. vm_compute. repeat split. Qed.

(** The run of the specification: collection 222 with members 1, 2, 3,
    the download of member 2 failing. *)
Example mixed_collection_outcome :
  status_of three_members_settled 0 = completed
  /\ error (item three_members_settled 0) = Some "2 succeeded, 1 failed"
  /\ progress (item three_members_settled 0) = 100.
Proof. vm_compute. repeat split. Qed.

End ModQueue_facts.

(** ** RCON client: wire format, correlation, authentication *)

Section RCON_more.
Import RCON.

Implicit Types (s : State) (m : PendingMap).

Lemma map_get_set_eq k v m : map_get k (map_set k v m) = Some v.
Proof.
  induction m as [|[k' v'] m IH]; cbn; [rewrite Z.eqb_refl; reflexivity|].
  destruct (Z.eqb_spec k k') as [->|Hne]; cbn.
  - rewrite Z.eqb_refl. reflexivity.
  - destruct (Z.eqb_spec k k'); [contradiction|exact IH].
Qed.

Lemma map_get_set_ne k k' v m :
  k <> k' -> map_get k' (map_set k v m) = map_get k' m.
Proof.
  intros Hne. induction m as [|[k0 v0] m IH]; cbn.
  - destruct (Z.eqb_spec k' k); [congruence|reflexivity].
  - destruct (Z.eqb_spec k k0) as [->|Hk]; cbn.
    + destruct (Z.eqb_spec k' k0); [congruence|reflexivity].
    + destruct (Z.eqb_spec k' k0); [reflexivity|exact IH].
Qed.

Lemma map_get_None_keys k m : k ∉ map fst m -> map_get k m = None.
Proof.
  induction m as [|[k' v'] m IH]; cbn; [reflexivity|]. intros Hnot.
  apply not_elem_of_cons in Hnot as [Hne Hnot].
  destruct (Z.eqb_spec k k'); [contradiction|auto].
Qed.

Lemma map_get_delete_eq k m :
  NoDup (map fst m) -> map_get k (map_delete k m) = None.
Proof.
  induction m as [|[k' v'] m IH]; cbn; [reflexivity|]. intros Hnd.
  apply NoDup_cons in Hnd as [Hnot Hnd].
  destruct (Z.eqb_spec k k') as [->|Hne]; cbn.
  - apply map_get_None_keys, Hnot.
  - destruct (Z.eqb_spec k k'); [contradiction|auto].
Qed.

Lemma map_get_delete_ne k k' m :
  k <> k' -> map_get k' (map_delete k m) = map_get k' m.
Proof.
  intros Hne. induction m as [|[k0 v0] m IH]; cbn; [reflexivity|].
  destruct (Z.eqb_spec k k0) as [->|Hk]; cbn.
  - destruct (Z.eqb_spec k' k0); [congruence|reflexivity].
  - destruct (Z.eqb_spec k' k0); [reflexivity|exact IH].
Qed.

Lemma keys_map_set k v m :
  NoDup (map fst m) -> NoDup (map fst (map_set k v m))
  /\ (forall x, x ∈ map fst (map_set k v m) <-> x = k \/ x ∈ map fst m).
Proof.
  induction m as [|[k' v'] m IH]; cbn; intros Hnd.
  - split; [apply NoDup_singleton|]. intros x.
    rewrite list_elem_of_singleton, elem_of_nil. tauto.
  - apply NoDup_cons in Hnd as [Hnot Hnd]. destruct (IH Hnd) as [IH1 IH2].
    destruct (Z.eqb_spec k k') as [->|Hne]; cbn.
    + split; [apply NoDup_cons; auto|]. intros x. rewrite elem_of_cons. tauto.
    + split.
      * apply NoDup_cons. split; [|exact IH1]. rewrite IH2. intros [?|?]; auto.
      * intros x. rewrite !elem_of_cons, IH2. tauto.
Qed.

Lemma keys_map_delete k m :
  NoDup (map fst m) -> NoDup (map fst (map_delete k m))
  /\ (forall x, x ∈ map fst (map_delete k m) -> x ∈ map fst m).
Proof.
  induction m as [|[k' v'] m IH]; cbn; intros Hnd; [split; auto|].
  apply NoDup_cons in Hnd as [Hnot Hnd]. destruct (IH Hnd) as [IH1 IH2].
  destruct (Z.eqb_spec k k'); cbn.
  - split; [exact Hnd|]. intros x Hx. right. exact Hx.
  - split.
    + apply NoDup_cons. split; [|exact IH1]. intros Hin. apply Hnot, IH2, Hin.
    + intros x Hx. apply elem_of_cons in Hx as [->|Hx]; [left|right; auto].
Qed.

(** The four bytes written for an id decode to that id. *)
Lemma read_write_UInt32BE v rest :
  0 <= v <= 4294967295 ->
  exists idBuffer,
    writeUInt32BE v = Some idBuffer
    /\ length idBuffer = 4%nat
    /\ Forall (fun b => 0 <= b < 256) idBuffer
    /\ readUInt32BE (idBuffer ++ rest) = v.
Proof.
  intros Hv. unfold writeUInt32BE.
  destruct (Z.leb_spec 0 v); [|lia]. destruct (Z.leb_spec v 4294967295); [|lia].
  cbn [andb]. eexists. split; [reflexivity|]. split; [reflexivity|]. split.
  - repeat constructor; apply Z.mod_pos_bound; lia.
  - cbn [readUInt32BE app]. Z.div_mod_to_equations. lia.
Qed.

(** X1. Every id the allocator hands out (from a counter that is not
    negative) lies in 0 .. 2^32 - 2, so writing it into the 4-byte header
    never throws; a datagram carrying that header and any body is read
    back by [handleMessage] as that id and that body. *)
Theorem allocated_id_survives_the_wire ok_marker text s body :
  0 <= requestId s ->
  let rid := fst (getNextRequestId s) in
  0 <= rid <= 4294967294
  /\ exists msg,
       packet rid body = Some msg
       /\ length msg = (4 + length body)%nat
       /\ forall s', handleDatagram ok_marker text msg s'
                     = handleMessage ok_marker rid (text body) s'.
Proof.
  intros Hc. cbn [getNextRequestId fst].
  assert (Hr : 0 <= (requestId s + 1) mod 4294967295 < 4294967295)
    by (apply Z.mod_pos_bound; lia).
  split; [lia|].
  destruct (read_write_UInt32BE ((requestId s + 1) mod 4294967295) body)
    as (idb & Hw & Hlen & _ & Hread); [lia|].
  exists (idb ++ body)%list. unfold packet. rewrite Hw. cbn.
  split; [reflexivity|]. split; [rewrite length_app, Hlen; reflexivity|].
  intros s'. unfold handleDatagram.
  rewrite length_app, Hlen. cbn [Nat.ltb Nat.leb Nat.add].
  rewrite Hread, drop_app_length'; [reflexivity|symmetry; exact Hlen].
Qed.

Lemma allocated_id_survives_the_wire_witness :
  0 <= requestId connected_session
  /\ 0 <= fst (getNextRequestId connected_session) <= 4294967294
  /\ exists msg,
       packet (fst (getNextRequestId connected_session)) [79; 75] = Some msg
       /\ length msg = (4 + length [79; 75])%nat
       /\ forall s', handleDatagram auth_ok (fun _ => "OK") msg s'
                     = handleMessage auth_ok
                         (fst (getNextRequestId connected_session)) "OK" s'.
Proof.
  split; [cbn; lia|].
  apply (allocated_id_survives_the_wire auth_ok (fun _ => "OK")
           connected_session [79; 75]).
  cbn. lia.
Defined.

Lemma sendCommand_registers p t command s s1 effs :
  sendCommand p t command s = (inr tt, s1, effs) ->
  requestId s1 = fst (getNextRequestId s)
  /\ pendingRequests s1
     = map_set (requestId s1)
         {| origin := FromSendCommand; promise := p; timeout := t |}
         (pendingRequests s)
  /\ effs = [SetTimeout t 10000; SocketSend (requestId s1) command]
  /\ socket s1 = socket s /\ isConnected s1 = isConnected s.
Proof.
  unfold sendCommand.
  destruct (negb (isConnected s) || negb (bool_decide (is_Some (socket s))));
    [discriminate|].
  cbn. intros [= <- <-]. cbn. repeat split.
Qed.

(** X2. A command sent on a connected session is answered by the
    datagram that carries its id: the command's timer is cleared, its
    promise resolves with the response text, its entry leaves the map,
    and every other request is as pending as before. *)
Theorem response_resolves_its_request ok_marker p t command response s s1 effs :
  keys_distinct s ->
  sendCommand p t command s = (inr tt, s1, effs) ->
  snd (handleMessage ok_marker (requestId s1) response s1)
  = [ClearTimeout t; Resolve p (Some response)]
  /\ map_get (requestId s1)
       (pendingRequests (fst (handleMessage ok_marker (requestId s1) response s1)))
     = None
  /\ forall k, k <> requestId s1 ->
       map_get k (pendingRequests
                    (fst (handleMessage ok_marker (requestId s1) response s1)))
       = map_get k (pendingRequests s).
Proof.
  intros Hk Hsend.
  destruct (sendCommand_registers _ _ _ _ _ _ Hsend) as (_ & Hp & _).
  assert (Hg : map_get (requestId s1) (pendingRequests s1)
               = Some {| origin := FromSendCommand; promise := p; timeout := t |})
    by (rewrite Hp; apply map_get_set_eq).
  unfold handleMessage. rewrite Hg. cbn.
  split; [reflexivity|]. rewrite Hp. split.
  - apply map_get_delete_eq, keys_map_set, Hk.
  - intros k Hne. rewrite map_get_delete_ne by congruence.
    apply map_get_set_ne. congruence.
Qed.

Lemma response_resolves_its_request_witness :
  keys_distinct connected_session
  /\ snd (handleMessage auth_ok 2 "Players: 0" (snd (fst
            (sendCommand 0 10 "#players" connected_session))))
     = [ClearTimeout 10; Resolve 0 (Some "Players: 0")].
Proof.
  assert (Hk : keys_distinct connected_session) by apply NoDup_nil_2.
  split; [exact Hk|].
  exact (proj1 (response_resolves_its_request auth_ok 0 10 "#players"
                  "Players: 0" connected_session _ _ Hk eq_refl)).
Defined.

(** X3. A datagram whose id matches no pending request settles nothing
    and changes nothing (it is only logged); in particular, after a
    command was sent, a datagram with any other id leaves that command
    pending.  A datagram shorter than four bytes is dropped without even
    being logged. *)
Theorem foreign_datagram_is_ignored ok_marker text p t command s s1 effs :
  sendCommand p t command s = (inr tt, s1, effs) ->
  (forall k response s0,
     map_get k (pendingRequests s0) = None ->
     handleMessage ok_marker k response s0 = (s0, [LogUnsolicited response]))
  /\ (forall k response,
        k <> requestId s1 ->
        map_get (requestId s1)
          (pendingRequests (fst (handleMessage ok_marker k response s1)))
        = Some {| origin := FromSendCommand; promise := p; timeout := t |})
  /\ (forall msg s0, (length msg < 4)%nat ->
        handleDatagram ok_marker text msg s0 = (s0, [])).
Proof.
  intros Hsend.
  destruct (sendCommand_registers _ _ _ _ _ _ Hsend) as (_ & Hp & _).
  split; [|split].
  - intros k response s0 Hnone. unfold handleMessage. rewrite Hnone. reflexivity.
  - intros k response Hne. unfold handleMessage.
    destruct (map_get k (pendingRequests s1)); cbn.
    + rewrite map_get_delete_ne by exact Hne. rewrite Hp. apply map_get_set_eq.
    + rewrite Hp. apply map_get_set_eq.
  - intros msg s0 Hlen. unfold handleDatagram.
    apply Nat.ltb_lt in Hlen. rewrite Hlen. reflexivity.
Qed.

Lemma foreign_datagram_is_ignored_witness :
  handleMessage auth_ok 77 "hello" two_in_flight
  = (two_in_flight, [LogUnsolicited "hello"]).
Proof.
  destruct (foreign_datagram_is_ignored auth_ok (fun _ => "") 0 10 "#players"
              connected_session _ _ eq_refl) as (Hforeign & _).
  apply Hforeign. reflexivity.
Defined.

(** X4. A request is settled at most once.  Once its timer has fired
    (rejecting with the timeout error), or the send has failed, or its
    response has arrived, the entry is gone: a response arriving later is
    logged as unsolicited and a send failure reported later does
    nothing. *)
Theorem request_settled_once ok_marker rid p msg response response' s :
  keys_distinct s ->
  forall s1,
    s1 = fst (commandTimeout rid p s)
    \/ s1 = fst (sendFailed rid msg s)
    \/ s1 = fst (handleMessage ok_marker rid response s) ->
    handleMessage ok_marker rid response' s1 = (s1, [LogUnsolicited response'])
    /\ sendFailed rid msg s1 = (s1, [])
    /\ keys_distinct s1.
Proof.
  intros Hk s1 Hs1.
  assert (Hgone : map_get rid (pendingRequests s1) = None /\ keys_distinct s1).
  { unfold keys_distinct in *.
    destruct Hs1 as [->|[->| ->]]; unfold sendFailed, handleMessage; cbn.
    - split; [apply map_get_delete_eq, Hk|apply keys_map_delete, Hk].
    - destruct (map_get rid (pendingRequests s)) eqn:Hg; cbn.
      + split; [apply map_get_delete_eq, Hk|apply keys_map_delete, Hk].
      + split; assumption.
    - destruct (map_get rid (pendingRequests s)) eqn:Hg; cbn.
      + split; [apply map_get_delete_eq, Hk|apply keys_map_delete, Hk].
      + split; assumption. }
  destruct Hgone as [Hgone Hk1].
  unfold handleMessage, sendFailed. rewrite Hgone. auto.
Qed.

Lemma request_settled_once_witness :
  keys_distinct two_in_flight
  /\ snd (commandTimeout 2 0 two_in_flight) = [Reject 0 CommandTimeout]
  /\ handleMessage auth_ok 2 "late" (fst (commandTimeout 2 0 two_in_flight))
     = (fst (commandTimeout 2 0 two_in_flight), [LogUnsolicited "late"]).
Proof.
  assert (Hk : keys_distinct two_in_flight).
  { unfold keys_distinct. vm_compute.
    apply NoDup_cons. split; [|apply NoDup_singleton].
    intros Hin. apply list_elem_of_singleton in Hin. discriminate Hin. }
  split; [exact Hk|]. split; [reflexivity|].
  exact (proj1 (request_settled_once auth_ok 2 0 "" "" "late" two_in_flight Hk
                  _ (or_introl eq_refl))).
Defined.

(** X5. Opening a session on a manager that is not connected: the
    authentication datagram is "BE" followed by the password, under a
    fresh id.  The response with that id clears the 5 s timer and
    resolves the authentication exactly when its text contains "OK";
    then the session is reported connected, with the host and port given
    (or the defaults).  Any other text rejects with the
    authentication-failed error, and the [catch] branch leaves no socket,
    no pending entry and the connected flag cleared. *)
Theorem connect_outcome h prt pw sock p t response s :
  isConnected s = false ->
  let s1 := fst (connect_open h prt pw sock s) in
  let s2 := fst (authenticate p t s1) in
  let rid := requestId s2 in
  let s3 := fst (handleMessage auth_ok rid response s2) in
  snd (authenticate p t s1)
  = [SetTimeout t 5000; SocketSend rid ("BE" +:+ or_string pw "")]
  /\ rid = fst (getNextRequestId s)
  /\ snd (handleMessage auth_ok rid response s2)
     = [ClearTimeout t;
        if includes "OK" response then Resolve p None else Reject p AuthFailed]
  /\ getStatus (connect_authenticated s3)
     = {| connected := true; st_host := or_string h "127.0.0.1";
          st_port := or_port prt 2302;
          hasPassword := negb (String.eqb (or_string pw "") "") |}
  /\ connected (getStatus (fst (connect_failed s3))) = false
  /\ socket (fst (connect_failed s3)) = None
  /\ pendingRequests (fst (connect_failed s3)) = []
  /\ snd (connect_failed s3) = [SocketClose].
Proof.
  intros Hc. cbv zeta. unfold connect_open. cbn [isConnected]. rewrite Hc.
  cbn [fst snd authenticate getNextRequestId requestId pendingRequests
       password socket host port isConnected].
  unfold handleMessage. cbn [pendingRequests]. rewrite map_get_set_eq.
  cbn. repeat split.
Qed.

Lemma connect_outcome_witness :
  isConnected init = false
  /\ snd (handleMessage auth_ok 1 "Login OK"
            (fst (authenticate 0 5 (fst (connect_open (Some "10.0.0.5")
                                            (Some 2305) (Some "secret") 0 init)))))
     = [ClearTimeout 5; Resolve 0 None].
Proof.
  split; [reflexivity|].
  exact (proj1 (proj2 (proj2 (connect_outcome (Some "10.0.0.5") (Some 2305)
                                (Some "secret") 0 0 5 "Login OK" init eq_refl)))).
Defined.

End RCON_more.

(** ** Server process supervisor: the other methods *)

Section ServerControl_more.
Import ServerControl.

Implicit Types (s : State) (w : World) (o : StartObs) (plat : Platform).

Lemma prefix_append (a b : string) : String.prefix a (a +:+ b) = true.
Proof.
  induction a as [|c a IH]; [destruct b; reflexivity|].
  change (String c a +:+ b) with (String c (a +:+ b)). cbn [String.prefix].
  destruct (Ascii.ascii_dec c c); [exact IH|contradiction].
Qed.

Lemma profiles_arg_built profileName :
  is_profiles_arg ("-profiles=" +:+ profileName) = true.
Proof. apply prefix_append. Qed.

(** X6. The argument list handed to [spawn] selects the profile exactly
    once, with the supervisor's own [-profiles=<profileName>] in second
    place; the caller's other parameters follow the five fixed ones in
    their order, and any [-profiles=] parameter of the caller is gone. *)
Theorem build_args_one_profile profileName parameters :
  filter (fun a => is_profiles_arg a = true) (build_args profileName parameters)
  = ["-profiles=" +:+ profileName]
  /\ build_args profileName parameters !! 1%nat = Some ("-profiles=" +:+ profileName)
  /\ drop 5 (build_args profileName parameters)
     = filter (fun a => is_profiles_arg a = false) parameters
  /\ (forall a, a ∈ parameters -> is_profiles_arg a = false ->
                a ∈ build_args profileName parameters).
Proof.
  unfold build_args.
  set (kept := filter (fun param => String.prefix "-profiles=" param = false)
                 parameters).
  assert (Hkept : filter (fun a => is_profiles_arg a = true) kept = []).
  { unfold kept. induction parameters as [|a ps IH]; [reflexivity|].
    rewrite filter_cons. case_decide as Ha; [|exact IH].
    rewrite filter_cons. case_decide as Hb; [|exact IH].
    unfold is_profiles_arg in Hb. congruence. }
  split; [|split; [|split]].
  - rewrite filter_app, Hkept, app_nil_r.
    rewrite !filter_cons, filter_nil.
    rewrite (decide_True (P := is_profiles_arg ("-profiles=" +:+ profileName) = true))
      by apply profiles_arg_built.
    repeat (rewrite decide_False by (vm_compute; discriminate)). reflexivity.
  - reflexivity.
  - reflexivity.
  - intros a Hin Ha. apply elem_of_app. right.
    apply list_elem_of_filter. split; [exact Ha|exact Hin].
Qed.

(** What a successful [startServer] has done. *)
Lemma startServer_started plat o path profileName parameters s w r s' w' :
  startServer plat o path profileName parameters s w = (inr r, s', w') ->
  r = Started (child_pid o)
  /\ truthy_pid (child_pid o) = true
  /\ isRunning s = false
  /\ isRunning s' = true
  /\ serverProcess s' = Some (length (procs w))
  /\ serverPath s' = Some path
  /\ is_Some (monitoringInterval s')
  /\ scheduledRestarts s' = scheduledRestarts s
  /\ procs w' = (procs w ++ [{| pid := child_pid o; killed := false;
                                exited := false |}])%list
  /\ calls w'
     = (calls w
        ++ [EnsureDir (path_join (path_join (Plain path) "profiles") profileName);
            Spawn (getServerExecutable plat path)
                  (build_args profileName parameters) path])%list
  /\ timers w' = timers w.
Proof.
  unfold startServer. destruct (isRunning s) eqn:Hrun; [discriminate|].
  destruct (match serverProcess s with Some _ => _ | None => _ end);
    [discriminate|].
  destruct (start_body _ _ _ _ _ _ _) as [[[c|p] s1] w1] eqn:Hb.
  { unfold start_catch. cbn. destruct (serverProcess s1); discriminate. }
  intros [= <- <- <-]. revert Hb. unfold start_body.
  destruct (serverPath_exists o); cbn [negb]; [|discriminate].
  destruct (ensureDir_error o); [discriminate|].
  destruct (serverExe_exists o); cbn [negb];
    [|destruct (readdir_error o); discriminate].
  destruct (spawn_throws o); [discriminate|].
  destruct (error_event o); [discriminate|].
  cbn [serverProcess set_serverProcess].
  rewrite killed_of_spawned, pid_of_spawned. cbn [killed pid].
  destruct (truthy_pid (child_pid o)) eqn:Hpid; cbn [negb]; [|discriminate].
  unfold startMonitoring. cbn [monitoringInterval set_isRunning set_serverPath
                               set_serverProcess].
  destruct (monitoringInterval s) eqn:Hm.
  - intros [= <- <- <-]. cbn. rewrite Hm.
    repeat split; eauto;
      first [ f_equal; unfold pid_of; cbn;
              rewrite list_lookup_middle by reflexivity; reflexivity
            | rewrite <- app_assoc; reflexivity ].
  - intros [= <- <- <-]. cbn.
    repeat split; eauto;
      first [ f_equal; unfold pid_of; cbn;
              rewrite list_lookup_middle by reflexivity; reflexivity
            | rewrite <- app_assoc; reflexivity ].
Qed.

(** X7. When [startServer] reports success, the pid it returns is a real
    one (not [undefined], not 0) and is the pid [getServerStatus] reports
    from then on, together with [isRunning = true]; the child is a new
    one, monitoring is on, and the operating system was asked exactly to
    ensure the profile directory, [path.join(path.join(serverPath,
    'profiles'), profileName)], and to spawn the executable,
    [path.join(serverPath, <executable name>)], with the built argument
    list and the install path as working directory.  (What [path.join]
    makes of its arguments is Node's business and is not interpreted.) *)
Theorem start_success_is_visible plat o path profileName parameters s w r s' w' :
  startServer plat o path profileName parameters s w = (inr r, s', w') ->
  exists p,
    r = Started (Some p) /\ p <> 0
    /\ getServerStatus s' w' = {| st_isRunning := true; st_pid := Some p |}
    /\ serverProcess s' = Some (length (procs w))
    /\ is_Some (monitoringInterval s')
    /\ calls w'
       = (calls w
          ++ [EnsureDir (path_join (path_join (Plain path) "profiles") profileName);
              Spawn (getServerExecutable plat path)
                    (build_args profileName parameters) path])%list.
Proof.
  intros Hstart.
  destruct (startServer_started _ _ _ _ _ _ _ _ _ _ Hstart)
    as (-> & Hpid & _ & Hrun & Hproc & _ & Hmon & _ & Hprocs & Hcalls & _).
  destruct (child_pid o) as [p|] eqn:Hp; [|discriminate].
  exists p. split; [reflexivity|]. split.
  - intros ->. discriminate.
  - split; [|auto]. unfold getServerStatus, pid_of. rewrite Hrun, Hproc, Hprocs.
    rewrite list_lookup_middle by reflexivity. reflexivity.
Qed.

Lemma start_success_is_visible_witness :
  exists p,
    Started (Some 5000) = Started (Some p) /\ p <> 0
    /\ getServerStatus
         (snd (fst (startServer posix ok_obs "/srv/dayz" "default" [] init
                      empty_world)))
         (snd (startServer posix ok_obs "/srv/dayz" "default" [] init empty_world))
       = {| st_isRunning := true; st_pid := Some p |}
    /\ calls (snd (startServer posix ok_obs "/srv/dayz/" "default" [] init
                     empty_world))
       = [EnsureDir (path_join (path_join (Plain "/srv/dayz/") "profiles") "default");
          Spawn (path_join (Plain "/srv/dayz/") "DayZServer")
                (build_args "default" []) "/srv/dayz/"].
Proof.
  destruct (start_success_is_visible posix ok_obs "/srv/dayz" "default" []
              init empty_world (Started (Some 5000)) _ _ eq_refl)
    as (p & H1 & H2 & H3 & _).
  destruct (start_success_is_visible posix ok_obs "/srv/dayz/" "default" []
              init empty_world (Started (Some 5000)) _ _ eq_refl)
    as (_ & _ & _ & _ & _ & _ & Hcalls).
  exists p. auto.
Defined.

Lemma stopServer_running plat s w h :
  isRunning s = true -> serverProcess s = Some h ->
  exists s' w',
    stopServer plat s w = (inr Stopped, s', w')
    /\ isRunning s' = false /\ serverProcess s' = None
    /\ monitoringInterval s' = None
    /\ scheduledRestarts s' = scheduledRestarts s
    /\ match plat with
       | win32 =>
           calls w' = (calls w ++ [Exec ("taskkill /PID "
                                          +:+ pid_text (pid_of w h)
                                          +:+ " /T /F")])%list
           /\ timers w' = timers w /\ procs w' = procs w
       | posix =>
           calls w' = (calls w ++ [Kill h SIGTERM])%list
           /\ timers w' = (timers w ++ [Escalation h 5000])%list
           /\ length (procs w') = length (procs w)
       end.
Proof.
  intros Hrun Hproc. unfold stopServer. rewrite Hrun, Hproc.
  eexists _, _. split; [reflexivity|]. cbn.
  split; [reflexivity|]. split; [reflexivity|].
  split; [unfold stopMonitoring; destruct (monitoringInterval s) eqn:Hm;
          cbn; auto|].
  split; [unfold stopMonitoring; destruct (monitoringInterval s); reflexivity|].
  destruct plat; cbn.
  - auto.
  - rewrite calls_kill. split; [reflexivity|].
    unfold kill. repeat case_match; cbn; rewrite ?length_insert; auto.
Qed.

(** X8. [stopServer] succeeds exactly when the flag is set and a child is
    held.  It then clears flag, handle and monitoring interval, and asks
    the operating system for one thing: on Windows the [taskkill] command
    for the child's pid (no timer); elsewhere SIGTERM for the child, and
    it arms the 5 s timer.  In every other state it fails with the
    not-running error and neither the supervisor nor the world
    changes. *)
Theorem stopServer_outcome plat s w :
  (forall h, isRunning s = true -> serverProcess s = Some h ->
     exists s' w',
       stopServer plat s w = (inr Stopped, s', w')
       /\ isRunning s' = false /\ serverProcess s' = None
       /\ monitoringInterval s' = None
       /\ scheduledRestarts s' = scheduledRestarts s
       /\ match plat with
          | win32 =>
              calls w' = (calls w ++ [Exec ("taskkill /PID "
                                             +:+ pid_text (pid_of w h)
                                             +:+ " /T /F")])%list
              /\ timers w' = timers w /\ procs w' = procs w
          | posix =>
              calls w' = (calls w ++ [Kill h SIGTERM])%list
              /\ timers w' = (timers w ++ [Escalation h 5000])%list
              /\ length (procs w') = length (procs w)
          end)
  /\ (isRunning s = false \/ serverProcess s = None ->
      stopServer plat s w = (inl NotRunning, s, w)).
Proof.
  split.
  - intros h Hrun Hproc. exact (stopServer_running plat s w h Hrun Hproc).
  - intros [Hrun|Hproc]; unfold stopServer.
    + rewrite Hrun. reflexivity.
    + rewrite Hproc. destruct (isRunning s); reflexivity.
Qed.


Lemma length_procs_kill h sig w : length (procs (kill h sig w)) = length (procs w).
Proof.
  unfold kill. repeat case_match; cbn; rewrite ?length_insert; reflexivity.
Qed.


Lemma stopServer_outcome_witness :
  isRunning running_state = true
  /\ serverProcess running_state = Some 0%nat
  /\ exists s' w',
       stopServer posix running_state live_world = (inr Stopped, s', w')
       /\ isRunning s' = false /\ serverProcess s' = None
       /\ monitoringInterval s' = None
       /\ scheduledRestarts s' = scheduledRestarts running_state
       /\ calls w' = (calls live_world ++ [Kill 0%nat SIGTERM])%list
       /\ timers w' = (timers live_world ++ [Escalation 0%nat 5000])%list
       /\ length (procs w') = length (procs live_world).
Proof.
  split; [reflexivity|]. split; [reflexivity|].
  exact (proj1 (stopServer_outcome posix running_state live_world)
           0%nat eq_refl eq_refl).
Defined.



(** *** The supervisor between its awaits *)

(** [steady] reads the supervisor's scalar fields and the children
    only. *)
Lemma steady_same m m' :
  isRunning (sup m') = isRunning (sup m) ->
  serverProcess (sup m') = serverProcess (sup m) ->
  monitoringInterval (sup m') = monitoringInterval (sup m) ->
  length (procs (world m')) = length (procs (world m)) ->
  steady m -> steady m'.
Proof.
  intros Hr Hp Hm Hl [H1 H2]. split.
  - rewrite Hr, Hp, Hm. exact H1.
  - intros h. rewrite Hp, Hl. apply H2.
Qed.

(** Flag cleared, children kept. *)
Lemma steady_stopped m m' :
  isRunning (sup m') = false ->
  (serverProcess (sup m') = None \/ serverProcess (sup m') = serverProcess (sup m)) ->
  length (procs (world m')) = length (procs (world m)) ->
  steady m -> steady m'.
Proof.
  intros Hr Hp Hl [H1 H2]. split.
  - rewrite Hr. discriminate.
  - intros h Hh. rewrite Hl. destruct Hp as [Hp|Hp]; [congruence|].
    apply H2. congruence.
Qed.

Lemma length_procs_fire s w : length (procs (fire_timeout s w)) = length (procs w).
Proof.
  unfold fire_timeout. destruct (timers w) as [|[h ms] rest]; [reflexivity|].
  unfold escalate. destruct (serverProcess s); [|reflexivity].
  destruct (negb _); [|reflexivity]. rewrite length_procs_kill. reflexivity.
Qed.

Lemma steady_boot : steady boot.
Proof. split; [discriminate|discriminate]. Qed.

Lemma steady_add_task t m : steady m -> steady (add_task t m).
Proof. apply steady_same; reflexivity. Qed.

Lemma steady_take t m : steady m -> steady (take t m).
Proof. apply steady_same; reflexivity. Qed.

Lemma steady_sync m : steady m -> steady (sync m).
Proof. apply steady_same; reflexivity. Qed.

Lemma steady_set_registry es arrs cur m : steady m -> steady (set_registry es arrs cur m).
Proof. apply steady_same; reflexivity. Qed.

Lemma steady_stopServer plat m r s' w' :
  stopServer plat (sup m) (world m) = (r, s', w') ->
  steady m -> steady (set_world w' (set_sup s' m)).
Proof.
  unfold stopServer. intros Hstop Hm.
  destruct (isRunning (sup m)) eqn:Hr; [destruct (serverProcess (sup m)) eqn:Hp|];
    injection Hstop as <- <- <-.
  - apply (steady_stopped m); [reflexivity|left; reflexivity| |exact Hm].
    destruct plat; cbn; [reflexivity|]. apply length_procs_kill.
  - apply (steady_same m); try reflexivity. exact Hm.
  - apply (steady_same m); try reflexivity. exact Hm.
Qed.

Lemma steady_throw c m : steady m -> steady (throw_in_try c m).
Proof.
  intros Hm. unfold throw_in_try, start_catch. cbn [serverProcess set_isRunning].
  destruct (serverProcess (sup m)) eqn:Hp.
  - apply (steady_stopped m); [reflexivity|left; reflexivity| |exact Hm].
    cbn. apply length_procs_kill.
  - apply (steady_stopped m); [reflexivity|left; exact Hp|reflexivity|exact Hm].
Qed.

Lemma steady_call_start a k m : steady m -> steady (call_start a k m).
Proof.
  intros Hm. unfold call_start. repeat case_match; exact Hm.
Qed.

Lemma steady_call_restart plat a c k m : steady m -> steady (call_restart plat a c k m).
Proof.
  intros Hm. unfold call_restart. destruct (0 <? c)%Z; [exact Hm|].
  destruct (isRunning (sup m)); [|apply steady_call_start, Hm].
  destruct (stopServer plat (sup m) (world m)) as [[[e|x] s'] w'] eqn:Hstop;
    [exact Hm|].
  apply steady_add_task. exact (steady_stopServer _ _ _ _ _ Hstop Hm).
Qed.

Lemma steady_check_from plat now arr todo :
  forall i m, steady m -> steady (check_from plat now arr i todo m).
Proof.
  induction todo as [|e rest IH]; intros i m Hm; [exact Hm|].
  cbn [check_from]. destruct (entries m !! e) as [restart|]; [|apply IH, Hm].
  destruct (negb (Restart.executed restart) && (Restart.time restart <=? now)%Z);
    [|apply IH, Hm].
  set (m1 := sync _).
  assert (Hm1 : steady m1) by (apply steady_sync, steady_set_registry, Hm).
  clearbody m1. destruct (isRunning (sup m1)); [|apply IH, Hm1].
  apply steady_call_restart, Hm1.
Qed.

Lemma steady_ret plat k m : steady m -> steady (ret plat k m).
Proof.
  intros Hm. destruct k as [|now arr i]; [exact Hm|].
  apply steady_check_from, Hm.
Qed.

Lemma steady_step plat ev m m' : steady m -> step plat ev m = Some m' -> steady m'.
Proof.
  intros Hm Hstep. destruct ev; cbn [step] in Hstep.
  - injection Hstep as <-. apply steady_call_start, Hm.
  - destruct (stopServer plat (sup m) (world m)) as [[r s'] w'] eqn:Hstop.
    injection Hstep as <-. exact (steady_stopServer _ _ _ _ _ Hstop Hm).
  - injection Hstep as <-. apply steady_call_restart, Hm.
  - injection Hstep as <-. apply steady_sync, steady_set_registry, Hm.
  - injection Hstep as <-. apply steady_sync, steady_set_registry, Hm.
  - injection Hstep as <-. apply steady_check_from, Hm.
  - destruct (tasks m !! t) as [[a k|a k|a k|a k|a c pe k|a k]|]; try discriminate;
      cbn zeta in Hstep.
    destruct found; injection Hstep as <-.
    + apply steady_add_task. apply (steady_same (take t m)); try reflexivity.
      apply steady_take, Hm.
    + apply steady_throw, steady_take, Hm.
  - destruct (tasks m !! t) as [[a k|a k|a k|a k|a c pe k|a k]|]; try discriminate;
      cbn zeta in Hstep.
    destruct err; injection Hstep as <-.
    + apply steady_throw, steady_take, Hm.
    + apply steady_add_task, steady_take, Hm.
  - destruct (tasks m !! t) as [[a k|a k|a k|a k|a c pe k|a k]|]; try discriminate;
      cbn zeta in Hstep.
    destruct found; [|injection Hstep as <-; apply steady_add_task, steady_take, Hm].
    destruct thrown; injection Hstep as <-.
    + apply steady_throw. apply (steady_same (take t m)); try reflexivity.
      apply steady_take, Hm.
    + apply steady_add_task. destruct Hm as [H1 H2]. split.
      * cbn. intros Hr. destruct (H1 Hr) as [_ Hmon]. split; [eauto|exact Hmon].
      * cbn. intros h [= <-]. rewrite length_app. cbn. lia.
  - destruct (tasks m !! t) as [[a k|a k|a k|a k|a c pe k|a k]|]; try discriminate;
      cbn zeta in Hstep.
    destruct err; injection Hstep as <-; apply steady_throw, steady_take, Hm.
  - destruct (tasks m !! t) as [[a k|a k|a k|a k|a c pe k|a k]|]; try discriminate;
      cbn zeta in Hstep.
    destruct pe; [injection Hstep as <-; apply steady_throw, steady_take, Hm|].
    cbn [sup take set_tasks] in Hstep.
    destruct (serverProcess (sup m)) as [h'|] eqn:Hp;
      [|injection Hstep as <-; apply steady_throw, steady_take, Hm].
    cbn [world take set_tasks] in Hstep.
    destruct (killed_of (world m) h');
      [injection Hstep as <-; apply steady_throw, steady_take, Hm|].
    destruct (negb (truthy_pid (pid_of (world m) h')));
      [injection Hstep as <-; apply steady_throw, steady_take, Hm|].
    cbn [world listen_close] in Hstep.
    destruct (startMonitoring _ _) as [s1 w1] eqn:Hmon.
    injection Hstep as <-. apply steady_ret.
    unfold startMonitoring in Hmon. cbn [monitoringInterval set_isRunning set_serverPath] in Hmon.
    destruct Hm as [H1 H2]. specialize (H2 h' Hp).
    destruct (monitoringInterval (sup m)) eqn:Hmi; injection Hmon as <- <-.
    + split; cbn.
      * intros _. rewrite Hp, Hmi. split; eauto.
      * intros h. rewrite Hp. intros [= <-]. exact H2.
    + split; cbn.
      * intros _. rewrite Hp. split; eauto.
      * intros h. rewrite Hp. intros [= <-]. exact H2.
  - destruct (tasks m !! t) as [[a k|a k|a k|a k|a c pe k|a k]|]; try discriminate;
      cbn zeta in Hstep.
    injection Hstep as <-. apply steady_call_start, steady_take, Hm.
  - case_bool_decide; [|discriminate]. injection Hstep as <-.
    apply (steady_stopped m); [reflexivity|left; reflexivity|reflexivity|exact Hm].
  - case_bool_decide; [|discriminate].
    assert (Hlen : length (procs (child_exits h (world m))) = length (procs (world m))).
    { unfold child_exits. cbn. apply length_alter. }
    cbn zeta in Hstep. case_bool_decide; injection Hstep as <-.
    + apply (steady_stopped m); [reflexivity|left; reflexivity|exact Hlen|exact Hm].
    + apply (steady_same m); try reflexivity; [exact Hlen|exact Hm].
  - injection Hstep as <-.
    apply (steady_same m); try reflexivity; [|exact Hm]. apply length_procs_fire.
Qed.

Lemma reachable_steady plat m : reachable plat m -> steady m.
Proof.
  induction 1 as [|ev m m' Hm IH Hstep]; [exact steady_boot|].
  exact (steady_step plat ev m m' IH Hstep).
Qed.

Lemma machine_run_reachable plat evs m m' :
  reachable plat m -> run plat evs m = Some m' -> reachable plat m'.
Proof.
  revert m. induction evs as [|ev rest IH]; intros m Hm Hrun; cbn in Hrun.
  - injection Hrun as <-. exact Hm.
  - destruct (step plat ev m) as [m1|] eqn:Hstep; [|discriminate].
    cbn in Hrun. exact (IH m1 (reachable_step plat ev m m1 Hm Hstep) Hrun).
Qed.

Lemma machine_run_cons plat ev rest m m1 :
  step plat ev m = Some m1 -> run plat (ev :: rest) m = run plat rest m1.
Proof. intros H. cbn [run]. rewrite H. reflexivity. Qed.

(** One activation alone: the machine right after each of its steps. *)
Ltac alone Ht :=
  cbn [tasks add_task take set_tasks set_world set_sup listen_close sup world];
  rewrite ?Ht; reflexivity.

Ltac one_step Ht :=
  erewrite machine_run_cons
    by (cbn [step]; cbn [tasks add_task take set_tasks set_world set_sup
                          listen_close sup world];
        rewrite ?Ht; cbn [app lookup list_lookup delete list_delete];
        reflexivity).

(** X24. One call of [startServer] that passes its two guards, with
    nothing interleaved: the machine, fed the answers of [o] at the
    call's [await]s, ends with the fields and the world that
    [startServer] gives as one function, with no activation left and the
    registry untouched. *)
Theorem start_alone plat o a m r s' w' :
  tasks m = [] ->
  startServer plat o (a_path a) (a_profile a) (a_params a) (sup m) (world m)
  = (r, s', w') ->
  (forall e, r = inl e -> is_AlreadyRunning e = false) ->
  exists m',
    run plat (CallStart a :: answers o (length (procs (world m)))) m = Some m'
    /\ sup m' = s' /\ world m' = w' /\ tasks m' = []
    /\ entries m' = entries m /\ arrays m' = arrays m /\ current m' = current m.
Proof.
  intros Ht Hstart Hnot. unfold startServer in Hstart.
  destruct (isRunning (sup m)) eqn:Hrun.
  { injection Hstart as <- <- <-. discriminate (Hnot _ eq_refl). }
  destruct (match serverProcess (sup m) with
            | Some h => truthy_pid (pid_of (world m) h)
            | None => false
            end) eqn:Hlive.
  { injection Hstart as <- <- <-. discriminate (Hnot _ eq_refl). }
  erewrite machine_run_cons
    by (cbn [step]; unfold call_start; rewrite Hrun, Hlive; reflexivity).
  unfold answers, start_body in *.
  destruct o as [pe ede see rde st cp ee]; cbn [serverPath_exists ensureDir_error
    serverExe_exists readdir_error spawn_throws child_pid error_event] in *.
  destruct pe; cbn [negb] in Hstart.
  2: { one_step Ht. cbn [run]. unfold throw_in_try.
       cbn [sup world take add_task set_tasks tasks].
       destruct (start_catch _ _ _) as [[rr ss] ww].
       injection Hstart as <- <- <-. eexists. split; [reflexivity|].
       cbn. rewrite Ht. repeat split. }
  one_step Ht. cbn zeta in Hstart.
  destruct ede as [msg|].
  { one_step Ht. cbn [run]. unfold throw_in_try.
    cbn [sup world take add_task set_tasks tasks set_world].
    destruct (start_catch _ _ _) as [[rr ss] ww].
    injection Hstart as <- <- <-. eexists. split; [reflexivity|].
    cbn. rewrite Ht. repeat split. }
  one_step Ht.
  destruct see; cbn [negb] in Hstart.
  2: { one_step Ht.
       destruct rde; one_step Ht; cbn [run]; unfold throw_in_try;
         cbn [sup world take add_task set_tasks tasks set_world];
         destruct (start_catch _ _ _) as [[rr ss] ww];
         injection Hstart as <- <- <-; (eexists; split; [reflexivity|]);
         cbn; rewrite Ht; repeat split. }
  cbn zeta in Hstart.
  destruct st as [msg|].
  { one_step Ht. cbn [run]. unfold throw_in_try.
    cbn [sup world take add_task set_tasks tasks set_world].
    destruct (start_catch _ _ _) as [[rr ss] ww].
    injection Hstart as <- <- <-. eexists. split; [reflexivity|].
    cbn. rewrite Ht. repeat split. }
  one_step Ht.
  cbn [sup world take add_task set_tasks tasks set_world set_sup].
  set (W := log_call (Spawn _ _ _) _) in *.
  assert (HW : length (procs W) = length (procs (world m))) by reflexivity.
  change (procs (world m)) with (procs W) in Hstart.
  change (length (procs (world m))) with (length (procs W)).
  set (c := {| pid := cp; killed := false; exited := false |}) in *.
  pose proof (killed_of_spawned W c) as Hk.
  pose proof (pid_of_spawned W c) as Hpid.
  clearbody W. cbn [killed pid c] in Hk, Hpid.
  destruct ee as [msg|].
  - cbn [start_catch serverProcess set_serverProcess set_isRunning] in Hstart.
    injection Hstart as <- <- <-.
    erewrite machine_run_cons
      by (cbn [step world add_task set_tasks set_world];
          cbn [procs set_procs]; rewrite length_app; cbn [length];
          rewrite bool_decide_eq_true_2 by lia; reflexivity).
    erewrite machine_run_cons
      by (cbn [step]; cbn [tasks add_task take set_tasks set_world set_sup sup world];
          rewrite ?Ht; cbn [app lookup list_lookup delete list_delete fmap list_fmap blame];
          rewrite Nat.eqb_refl; cbn [lookup list_lookup]; reflexivity).
    cbn [run]. unfold throw_in_try.
    cbn [start_catch sup world take add_task set_tasks tasks set_world set_sup
         serverProcess set_serverProcess set_isRunning].
    eexists. split; [reflexivity|].
    cbn [sup world tasks entries arrays current take add_task set_tasks set_world set_sup].
    rewrite ?Ht. repeat split.
  - cbn [serverProcess set_serverProcess] in Hstart. rewrite Hk, Hpid in Hstart.
    destruct (negb (truthy_pid cp)) eqn:Hcp.
    + cbn [start_catch serverProcess set_serverProcess set_isRunning] in Hstart.
      injection Hstart as <- <- <-.
      erewrite machine_run_cons
        by (cbn [step]; cbn [tasks add_task take set_tasks set_world set_sup sup world];
            rewrite ?Ht; cbn [app lookup list_lookup delete list_delete];
            cbn zeta; cbn [tasks add_task take set_tasks set_world set_sup sup world
                           serverProcess set_serverProcess];
            rewrite Hk, Hpid, Hcp; reflexivity).
      cbn [run]. unfold throw_in_try.
      cbn [start_catch sup world take add_task set_tasks tasks set_world set_sup
           serverProcess set_serverProcess set_isRunning].
      eexists. split; [reflexivity|].
      cbn [sup world tasks entries arrays current take add_task set_tasks set_world set_sup].
      rewrite ?Ht. repeat split.
    + destruct (startMonitoring _ _) as [s1 w1] eqn:Hmon.
      injection Hstart as <- <- <-.
      erewrite machine_run_cons
        by (cbn [step]; cbn [tasks add_task take set_tasks set_world set_sup sup world];
            rewrite ?Ht; cbn [app lookup list_lookup delete list_delete];
            cbn zeta; cbn [tasks add_task take set_tasks set_world set_sup sup world
                           serverProcess set_serverProcess listen_close];
            rewrite Hk, Hpid, Hcp, Hmon; reflexivity).
      cbn [run ret]. eexists. split; [reflexivity|].
      cbn [sup world tasks entries arrays current take add_task set_tasks set_world
           set_sup listen_close].
      rewrite ?Ht. repeat split.
Qed.

Lemma start_alone_witness :
  tasks boot = []
  /\ exists m',
      run posix (CallStart dayz :: answers ok_obs 0) boot = Some m'
      /\ isRunning (sup m') = true
      /\ serverProcess (sup m') = Some 0%nat
      /\ tasks m' = [].
Proof.
  split; [reflexivity|].
  destruct (start_alone posix ok_obs dayz boot
              (fst (fst (startServer posix ok_obs "/srv/dayz" "default" [] init empty_world)))
              (snd (fst (startServer posix ok_obs "/srv/dayz" "default" [] init empty_world)))
              (snd (startServer posix ok_obs "/srv/dayz" "default" [] init empty_world))
              eq_refl eq_refl)
    as (m' & Hrun & Hs & _ & Ht & _).
  { intros e He. vm_compute in He. discriminate He. }
  exists m'. split; [exact Hrun|].
  split; [rewrite Hs; vm_compute; reflexivity|].
  split; [rewrite Hs; vm_compute; reflexivity|exact Ht].
Defined.

(** X10. At every point where other code can run, that is between two
    calls and also at each [await] inside [startServer], [restartServer] and
    [checkScheduledRestarts], whatever calls, child events and timers
    were interleaved — a set running flag means that a child handle is
    held and that the monitoring interval exists; a held handle is a
    child that was spawned; and with no handle held [getServerStatus]
    reports "not running" and no pid.  (The converse does not hold: see
    [handle_held_while_not_running] and [flag_set_without_pid].) *)
Theorem running_flag_matches_handle plat m :
  reachable plat m ->
  (isRunning (sup m) = true ->
     is_Some (serverProcess (sup m)) /\ is_Some (monitoringInterval (sup m)))
  /\ (forall h, serverProcess (sup m) = Some h ->
        (h < length (procs (world m)))%nat)
  /\ (serverProcess (sup m) = None ->
      getServerStatus (sup m) (world m)
      = {| st_isRunning := false; st_pid := None |}).
Proof.
  intros Hreach. destruct (reachable_steady plat m Hreach) as [H1 H2].
  split; [exact H1|]. split; [exact H2|].
  intros Hp. unfold getServerStatus. rewrite Hp.
  destruct (isRunning (sup m)) eqn:Hr; [|reflexivity].
  destruct (H1 eq_refl) as [[h Hh] _]. congruence.
Qed.

Lemma running_flag_matches_handle_witness :
  reachable posix started
  /\ isRunning (sup started) = true
  /\ serverProcess (sup started) = Some 0%nat
  /\ is_Some (monitoringInterval (sup started))
  /\ (0 < length (procs (world started)))%nat
  /\ getServerStatus (sup started) (world started)
     = {| st_isRunning := true; st_pid := Some 5000 |}.
Proof.
  assert (Hreach : reachable posix started).
  { apply (machine_run_reachable posix (start_in_flight ++ [SettleElapsed 0]) boot);
      [apply reachable_boot|]. vm_compute. reflexivity. }
  assert (Hrun : isRunning (sup started) = true) by (vm_compute; reflexivity).
  assert (Hproc : serverProcess (sup started) = Some 0%nat)
    by (vm_compute; reflexivity).
  destruct (running_flag_matches_handle posix started Hreach) as (H1 & H2 & _).
  split; [exact Hreach|]. split; [exact Hrun|]. split; [exact Hproc|].
  split; [exact (proj2 (H1 Hrun))|]. split; [exact (H2 0%nat Hproc)|].
  vm_compute. reflexivity.
Defined.

(** During the 500 ms wait of [startServer] the new child is held, and
    [getServerStatus] reports its pid, while the flag is still clear. *)
Example handle_held_while_not_running :
  run posix start_in_flight boot = Some mid_start
  /\ tasks mid_start = [AwaitSettle dayz 0 None FromOutside]
  /\ getServerStatus (sup mid_start) (world mid_start)
     = {| st_isRunning := false; st_pid := Some 5000 |}.
Proof. vm_compute. repeat split. Qed.

(** Two overlapping calls of [startServer]: the flag set by the one
    that finished first is still set when the other one has replaced the
    handle by its own child, which has no pid. *)
Example flag_set_without_pid :
  run posix double_start boot = Some after_double_start
  /\ getServerStatus (sup after_double_start) (world after_double_start)
     = {| st_isRunning := true; st_pid := None |}
  /\ serverProcess (sup after_double_start) = Some 1%nat
  /\ pid_of (world after_double_start) 0 = Some 5000.
Proof. vm_compute. repeat split. Qed.



(** X12. [scheduleRestart] appends an unexecuted entry, which
    [getScheduledRestarts] lists last.  [cancelScheduledRestart] removes
    every entry that carries the id and no other entry; cancelling the id
    of an entry just scheduled gives the registry that cancelling that id
    would have given without it, so with an id not in use before, the
    registry is back to what it was. *)
Theorem schedule_then_cancel now_id time path profileName parameters s :
  let entry := fst (scheduleRestart now_id time path profileName parameters s) in
  let s1 := snd (scheduleRestart now_id time path profileName parameters s) in
  Restart.executed entry = false /\ Restart.id entry = now_id
  /\ Restart.time entry = time
  /\ getScheduledRestarts s1 = (getScheduledRestarts s ++ [entry])%list
  /\ (forall id e, e ∈ scheduledRestarts (cancelScheduledRestart id s1) <->
                   e ∈ scheduledRestarts s1 /\ Restart.id e <> id)
  /\ cancelScheduledRestart now_id s1 = cancelScheduledRestart now_id s
  /\ ((forall e, e ∈ scheduledRestarts s -> Restart.id e <> now_id) ->
      cancelScheduledRestart now_id s1 = s).
Proof.
  cbv zeta. unfold scheduleRestart, getScheduledRestarts, cancelScheduledRestart.
  cbn [fst snd scheduledRestarts set_scheduledRestarts Restart.executed
       Restart.id Restart.time].
  split; [reflexivity|]. split; [reflexivity|]. split; [reflexivity|].
  split; [rewrite filter_app; reflexivity|].
  split; [intros id e; rewrite list_elem_of_filter; tauto|].
  assert (Hcancel : filter (fun r => Restart.id r <> now_id)
                      (scheduledRestarts s ++
                       [{| Restart.id := now_id; Restart.time := time;
                           Restart.serverPath := path;
                           Restart.profileName := profileName;
                           Restart.parameters := parameters;
                           Restart.executed := false |}])%list
                    = filter (fun r => Restart.id r <> now_id) (scheduledRestarts s)).
  { rewrite filter_app, filter_cons, decide_False by (cbn; tauto).
    rewrite filter_nil. apply app_nil_r. }
  split.
  - unfold set_scheduledRestarts. cbn. rewrite Hcancel. reflexivity.
  - intros Hfresh. unfold set_scheduledRestarts. cbn. rewrite Hcancel.
    assert (Hall : filter (fun r => Restart.id r <> now_id) (scheduledRestarts s)
                   = scheduledRestarts s).
    { clear Hcancel. induction (scheduledRestarts s) as [|e l IH]; [reflexivity|].
      rewrite filter_cons, decide_True by (apply Hfresh; left).
      rewrite IH; [reflexivity|]. intros e' He'. apply Hfresh. right. exact He'. }
    rewrite Hall. destruct s; reflexivity.
Qed.

End ServerControl_more.

(** ** Mod download queue: the other methods and the course of an item *)

Section ModQueue_more.
Import ModQueue.

Implicit Types (s : State) (l : Loop) (r : nat) (it : Item).

Lemma status_counts_total s :
  length (queue s)
  = (count pending s + count downloading s + count completed s + count failed s)%nat
  /\ True.
Proof.
  split; [|exact Logic.I]. unfold count.
  induction (queue s) as [|r q IH]; [reflexivity|].
  rewrite !filter_cons. cbn [length]. rewrite IH.
  destruct (status_of s r) eqn:Hr; repeat case_decide; try congruence;
    cbn [length]; lia.
Qed.

(** X13. The four counts of a status snapshot add up to its total, and
    the snapshot lists one line per item of the queue, in order. *)
Theorem status_counts_add_up s :
  let st := getQueueStatus s in
  Snapshot.total st
  = (Snapshot.pending st + Snapshot.downloading st
     + Snapshot.completed st + Snapshot.failed st)%nat
  /\ length (Snapshot.queue st) = Snapshot.total st
  /\ map v_status (Snapshot.queue st) = map (status_of s) (queue s).
Proof.
  cbn. split; [|split].
  - exact (proj1 (status_counts_total s)).
  - apply length_map.
  - rewrite map_map. reflexivity.
Qed.

(** X14. [removeFromQueue] looks at the first item carrying the id.  If
    there is none it returns false and nothing changes.  If that item is
    'downloading' it throws and nothing changes.  Otherwise exactly that
    item leaves the queue (one item fewer, the others in their order, no
    item object touched), it returns true, and the update is
    announced. *)
Theorem removeFromQueue_outcome itemId s :
  match removeFromQueue itemId s with
  | (inr false, s') =>
      s' = s /\ forall r, r ∈ queue s -> id (item s r) <> itemId
  | (inl e, s') =>
      e = ItemBusy /\ s' = s
      /\ exists index r,
           queue s !! index = Some r /\ id (item s r) = itemId
           /\ status_of s r = downloading
  | (inr true, s') =>
      exists index r,
        queue s !! index = Some r /\ id (item s r) = itemId
        /\ status_of s r <> downloading
        /\ (forall j r', (j < index)%nat -> queue s !! j = Some r' ->
                         id (item s r') <> itemId)
        /\ queue s' = delete index (queue s)
        /\ S (length (queue s')) = length (queue s)
        /\ heap s' = heap s
        /\ events s' = (events s ++ [QueueUpdated (getQueueStatus s')])%list
  end.
Proof.
  unfold removeFromQueue.
  destruct (list_find _ (queue s)) as [[index r]|] eqn:Hfind.
  - apply list_find_Some in Hfind as (Hl & Hid & Hfirst).
    case_decide as Hd.
    + split; [reflexivity|]. split; [reflexivity|]. eauto.
    + exists index, r. split; [exact Hl|]. split; [exact Hid|].
      split; [exact Hd|]. split; [|split; [reflexivity|split; [|split]]].
      * intros j r' Hj Hr'. exact (Hfirst j r' Hr' Hj).
      * cbn. rewrite length_delete by eauto.
        apply lookup_lt_Some in Hl. lia.
      * reflexivity.
      * reflexivity.
  - split; [reflexivity|]. intros r Hin.
    apply list_find_None in Hfind. rewrite Forall_forall in Hfind.
    exact (Hfind r Hin).
Qed.

(** *** Items only move forward *)

Lemma evolves_refl s : evolves s s.
Proof. split; [lia|]. intros r _. unfold same_identity. auto 10. Qed.

Lemma evolves_trans s1 s2 s3 : evolves s1 s2 -> evolves s2 s3 -> evolves s1 s3.
Proof.
  intros [Hn1 H1] [Hn2 H2]. split; [lia|]. intros r Hr.
  destruct (H1 r Hr) as [Hi1 Hr1]. destruct (H2 r ltac:(lia)) as [Hi2 Hr2].
  split; [|lia]. unfold same_identity in *.
  destruct Hi1 as (?&?&?&?&?&?), Hi2 as (?&?&?&?&?&?).
  repeat split; congruence.
Qed.

Lemma evolves_frame s s' :
  heap s' = heap s -> next_ref s' = next_ref s -> evolves s s'.
Proof.
  intros Hh Hn. split; [lia|]. intros r _.
  unfold status_of, item. rewrite Hh. unfold same_identity. auto 10.
Qed.

Lemma evolves_upd r f s :
  same_identity (item s r) (f (item s r)) ->
  (rank (status_of s r) <= rank (status (f (item s r))))%nat ->
  evolves s (upd r f s).
Proof.
  intros Hid Hrank. split; [reflexivity|]. intros r' _.
  unfold status_of. rewrite item_upd. case_decide; [subst; auto|].
  unfold same_identity. auto 10.
Qed.

Lemma evolves_push it s : evolves s (push it s).
Proof.
  split; [cbn; lia|]. intros r Hr. unfold status_of. rewrite item_push.
  case_decide; [lia|]. unfold same_identity. auto 10.
Qed.

Lemma evolves_via s s1 s' :
  evolves s s1 -> heap s' = heap s1 -> next_ref s' = next_ref s1 -> evolves s s'.
Proof.
  intros H Hh Hn. eapply evolves_trans; [exact H|]. apply evolves_frame; assumption.
Qed.

Lemma evolves_settle r f s :
  (forall it, same_identity it (f it) /\ rank (status (f it)) = 2%nat) ->
  evolves s (upd r f s).
Proof.
  intros Hf. apply evolves_upd; [apply Hf|].
  rewrite (proj2 (Hf _)). destruct (status_of s r); cbn; lia.
Qed.

Lemma evolves_keep r f s :
  (forall it, same_identity it (f it) /\ status (f it) = status it) ->
  evolves s (upd r f s).
Proof.
  intros Hf. apply evolves_upd; [apply Hf|].
  rewrite (proj2 (Hf _)). reflexivity.
Qed.

Ltac identity_f :=
  intros []; unfold same_identity, settle_collection; repeat case_decide;
  cbn; auto 10.

Lemma evolves_loop_head s : evolves s (loop_head s).
Proof.
  unfold loop_head. destruct (queue s) as [|q0 qs] eqn:Hq;
    [apply evolves_frame; reflexivity|].
  rewrite <- Hq. clear Hq.
  destruct (find (fun r => bool_decide (status_of s r = pending)) (queue s))
    as [r|] eqn:Hfind.
  - apply find_some in Hfind as [_ Hpend]. apply bool_decide_eq_true in Hpend.
    set (s1 := upd r (set_status downloading) (set_currentItem (Some r) s)).
    assert (H1 : evolves s s1).
    { eapply evolves_trans; [apply (evolves_frame s (set_currentItem (Some r) s));
                             reflexivity|].
      apply evolves_upd; [unfold same_identity; cbn; auto 10|].
      change (status_of (set_currentItem (Some r) s) r) with (status_of s r).
      rewrite Hpend. cbn. lia. }
    set (s2 := emit (ItemStarted r) (emit_update s1)).
    assert (H2 : evolves s s2) by (apply (evolves_via s s1); [exact H1| |]; reflexivity).
    clearbody s2. clear s1 H1.
    destruct (falsy (serverPath s2)).
    + unfold catch. eapply evolves_via; [| reflexivity | reflexivity].
      eapply evolves_trans; [exact H2|]. apply evolves_settle. identity_f.
    + destruct (isCollection (item s2 r)); [destruct (modIds (item s2 r))|];
        (eapply evolves_via; [exact H2|reflexivity|reflexivity]).
  - destruct (find (fun r => bool_decide (status_of s r = downloading)) (queue s));
      apply evolves_frame; reflexivity.
Qed.

Lemma evolves_coll_head r i sc fc s : evolves s (coll_head r i sc fc s).
Proof.
  unfold coll_head. destruct (_ !! i).
  - eapply evolves_via; [|reflexivity|reflexivity].
    apply evolves_keep. identity_f.
  - eapply evolves_via; [|reflexivity|reflexivity].
    apply evolves_settle. identity_f.
Qed.

Lemma step_evolves lbl s s' : step lbl s = Some s' -> evolves s s'.
Proof.
  intros Hstep.
  destruct lbl; cbn in Hstep.
    - destruct (suspended (pc s)); [|discriminate].
      unfold addToQueue, processQueue in Hstep.
      cbn [isProcessing emit_update emit push pc] in Hstep.
      destruct (isProcessing s); [|destruct (pc s); try discriminate];
        cbn in Hstep; injection Hstep as <-;
        (eapply evolves_via; [apply evolves_push|reflexivity|reflexivity]).
    - destruct (suspended (pc s)); [|discriminate].
      unfold addCollectionToQueue, processQueue in Hstep.
      destruct ids as [|i0 ids]; [cbn in Hstep; injection Hstep as <-;
                                  apply evolves_refl|].
      cbn [isProcessing emit_update emit push pc] in Hstep.
      destruct (isProcessing s); [|destruct (pc s); try discriminate];
        cbn in Hstep; injection Hstep as <-;
        (eapply evolves_via; [apply evolves_push|reflexivity|reflexivity]).
    - destruct (suspended (pc s)); [|discriminate]. injection Hstep as <-.
      unfold removeFromQueue. destruct (list_find _ _) as [[? ?]|];
        [case_decide|]; apply evolves_frame; reflexivity.
    - destruct (suspended (pc s)); [|discriminate]. injection Hstep as <-.
      unfold clearCompleted. cbn [snd]. case_decide; apply evolves_frame; reflexivity.
    - destruct (suspended (pc s)); [|discriminate]. injection Hstep as <-.
      unfold clearAll. destruct (isProcessing s); apply evolves_frame; reflexivity.
    - destruct (suspended (pc s)); [|discriminate]. injection Hstep as <-.
      apply evolves_frame; reflexivity.
    - destruct (pc s); try discriminate; injection Hstep as <-;
        [apply evolves_loop_head|apply evolves_coll_head].
    - destruct (pc s); try discriminate; injection Hstep as <-.
      apply evolves_frame; reflexivity.
    - destruct (pc s); try discriminate; injection Hstep as <-;
        (eapply evolves_via; [|reflexivity|reflexivity]);
        apply evolves_keep; identity_f.
    - destruct (pc s); try discriminate; destruct success;
        injection Hstep as <-;
        first [ apply evolves_frame; reflexivity
              | unfold finish;
                (eapply evolves_via; [|reflexivity|reflexivity]);
                apply evolves_settle; identity_f ].
    - destruct (pc s); try discriminate; injection Hstep as <-;
        first [ apply evolves_frame; reflexivity
              | unfold catch, finish;
                (eapply evolves_via; [|reflexivity|reflexivity]);
                apply evolves_settle; identity_f ].
    - destruct (pc s); try discriminate; injection Hstep as <-;
        apply evolves_frame; reflexivity.
    - destruct (pc s); try discriminate; injection Hstep as <-;
        apply evolves_frame; reflexivity.
    - destruct (pc s); try discriminate; injection Hstep as <-;
        apply evolves_frame; reflexivity.
    - destruct (pc s); try discriminate; try destruct in_catch;
        injection Hstep as <-;
        first [ apply evolves_frame; reflexivity
              | unfold catch, finish;
                (eapply evolves_via; [|reflexivity|reflexivity]);
                apply evolves_settle; identity_f ].
Qed.

(** X15. No step of the queue (a call or a move of the loop) changes what
    an existing item is (id, workshop or collection id, kind, name,
    member list) or moves it backwards: a pending item can only become
    downloading or settled, a downloading item can only become settled,
    and a settled item stays settled; and every item that existed still
    exists. *)
Theorem step_moves_items_forward lbl s s' r :
  step lbl s = Some s' ->
  (r < next_ref s)%nat ->
  (r < next_ref s')%nat
  /\ same_identity (item s r) (item s' r)
  /\ (rank (status_of s r) <= rank (status_of s' r))%nat.
Proof.
  intros Hstep Hr.
  destruct (step_evolves lbl s s' Hstep) as [Hn He].
  destruct (He r Hr) as [Hid Hrank].
  split; [lia|]. split; assumption.
Qed.

Lemma step_moves_items_forward_witness :
  exists s',
    step (DownloadReturned true None) first_of_two_downloading = Some s'
    /\ (0 < next_ref first_of_two_downloading)%nat
    /\ status_of first_of_two_downloading 0 = downloading
    /\ status_of s' 0 = completed
    /\ (rank (status_of first_of_two_downloading 0) <= rank (status_of s' 0))%nat.
Proof.
  eexists. split; [vm_compute; reflexivity|].
  split; [vm_compute; lia|]. split; [vm_compute; reflexivity|].
  split; [vm_compute; reflexivity|].
  eapply (step_moves_items_forward (DownloadReturned true None)
            first_of_two_downloading _ 0%nat).
  - vm_compute. reflexivity.
  - vm_compute. lia.
Defined.

(** *** The second invariant *)

Lemma members_evolves s s' r :
  evolves s s' -> (r < next_ref s)%nat -> members s' r = members s r.
Proof.
  intros [_ He] Hr. destruct (He r Hr) as [(_ & _ & _ & _ & _ & Hm) _].
  unfold members. rewrite Hm. reflexivity.
Qed.

Lemma counters_evolves s s' l :
  evolves s s' ->
  (forall r, pc_ref l = Some r -> (r < next_ref s)%nat) ->
  counters_ok s l -> counters_ok s' l.
Proof.
  intros He Href. destruct l; cbn; auto;
    rewrite (members_evolves s s' r He) by (apply Href; reflexivity); auto.
Qed.

Lemma tidy_init : tidy init.
Proof.
  split; [reflexivity|]. split; [|exact Logic.I].
  intros _ r Hin. inversion Hin.
Qed.

(** A step that keeps the loop where it is and removes items at most. *)
Lemma tidy_same_pc s s' :
  pc s' = pc s -> currentItem s' = currentItem s -> heap s' = heap s ->
  next_ref s' = next_ref s ->
  (forall r, r ∈ queue s' -> r ∈ queue s) ->
  Inv s -> tidy s -> tidy s'.
Proof.
  intros Hpc Hcur Hheap Hn Hq [HS _] (Ha & Hb & Hc).
  split; [congruence|]. split.
  - rewrite Hpc. intros Hidle r Hin. unfold status_of, item. rewrite Hheap.
    apply (Hb Hidle r), Hq, Hin.
  - rewrite Hpc. apply (counters_evolves s s'); [|exact (Sound_ref _ _ HS)|exact Hc].
    apply evolves_frame; assumption.
Qed.

Lemma tidy_enqueue it s s' :
  Inv s -> tidy s -> processQueue (emit_update (push it s)) = Some s' -> tidy s'.
Proof.
  intros [HS Hflag] (Ha & Hb & Hc). unfold processQueue.
  cbn [isProcessing emit_update emit push pc].
  destruct (isProcessing s) eqn:Hp.
  - intros [= <-]. split; [exact Ha|]. split.
    + cbn [pc emit_update emit push]. intros Hidle. rewrite Hidle in Hflag.
      discriminate Hflag.
    + apply (counters_evolves s); [|exact (Sound_ref _ _ HS)|exact Hc].
      eapply evolves_via; [apply evolves_push|reflexivity|reflexivity].
  - destruct (pc s) eqn:Hpc; try discriminate. intros [= <-].
    split; [exact Ha|]. split; [intros [=]|exact Logic.I].
Qed.

Lemma tidy_api s s' lbl :
  is_call lbl = true -> Inv s -> tidy s -> step lbl s = Some s' -> tidy s'.
Proof.
  intros Hcall HInv Ht Hstep. destruct lbl; try discriminate; cbn in Hstep;
    destruct (suspended (pc s)); try discriminate.
  - unfold addToQueue in Hstep.
    destruct (processQueue _) as [s1|] eqn:Hq; [|discriminate].
    cbn in Hstep. injection Hstep as <-. exact (tidy_enqueue _ _ _ HInv Ht Hq).
  - unfold addCollectionToQueue in Hstep. destruct ids as [|i0 ids].
    + cbn in Hstep. injection Hstep as <-. exact Ht.
    + destruct (processQueue _) as [s1|] eqn:Hq; [|discriminate].
      cbn in Hstep. injection Hstep as <-. exact (tidy_enqueue _ _ _ HInv Ht Hq).
  - injection Hstep as <-. unfold removeFromQueue.
    destruct (list_find _ _) as [[index r]|]; [|exact Ht].
    case_decide; [exact Ht|]. cbn [snd].
    apply (tidy_same_pc s); try reflexivity; [|exact HInv|exact Ht].
    intros r' Hin. eapply elem_of_sublist; [exact Hin|apply sublist_delete].
  - injection Hstep as <-. unfold clearCompleted. cbn [snd].
    apply (tidy_same_pc s); try (case_decide; reflexivity); [|exact HInv|exact Ht].
    intros r' Hin.
    assert (Hin' : r' ∈ filter (fun r => status_of s r <> completed
                                         /\ status_of s r <> failed) (queue s))
      by (revert Hin; case_decide; auto).
    apply list_elem_of_filter in Hin'. tauto.
  - injection Hstep as <-. unfold clearAll.
    destruct (isProcessing s); [exact Ht|]. cbn [snd].
    apply (tidy_same_pc s); try reflexivity; [|exact HInv|exact Ht].
    intros r' Hin. inversion Hin.
  - injection Hstep as <-.
    apply (tidy_same_pc s); try reflexivity; [auto|exact HInv|exact Ht].
Qed.

Lemma find_none_status s st :
  find (fun r => bool_decide (status_of s r = st)) (queue s) = None ->
  forall r, r ∈ queue s -> status_of s r <> st.
Proof.
  intros Hnone r Hin Hst. apply list_elem_of_In in Hin.
  pose proof (find_none _ _ Hnone r Hin) as Hb. cbn in Hb.
  apply bool_decide_eq_false in Hb. contradiction.
Qed.

Lemma tidy_loop_head s : Inv s -> tidy s -> pc s = Head -> tidy (loop_head s).
Proof.
  intros [HS Hflag] (Ha & _ & _) Hpc. rewrite Hpc in Ha. cbn in Ha.
  unfold loop_head. destruct (queue s) as [|q0 qs] eqn:Hq.
  { split; [exact Ha|]. split; [|exact Logic.I].
    intros _ r Hin. cbn in Hin. rewrite Hq in Hin. inversion Hin. }
  rewrite <- Hq. clear Hq q0 qs.
  destruct (find (fun r => bool_decide (status_of s r = pending)) (queue s))
    as [r|] eqn:Hfind.
  - set (s2 := emit (ItemStarted r)
                 (emit_update (upd r (set_status downloading)
                                 (set_currentItem (Some r) s)))).
    assert (Hcur : currentItem s2 = Some r) by reflexivity.
    clearbody s2.
    destruct (falsy (serverPath s2)).
    + split; [reflexivity|]. split; [intros [=]|exact Logic.I].
    + destruct (isCollection (item s2 r)); [destruct (modIds (item s2 r))|].
      * split; [exact Hcur|]. split; [intros [=]|]. cbn. lia.
      * split; [exact Hcur|]. split; [intros [=]|exact Logic.I].
      * split; [exact Hcur|]. split; [intros [=]|exact Logic.I].
  - destruct (find (fun r => bool_decide (status_of s r = downloading)) (queue s))
      as [d|] eqn:Hfd.
    + split; [exact Ha|]. split; [intros [=]|exact Logic.I].
    + split; [exact Ha|]. split; [|exact Logic.I].
      intros _ r Hin.
      change (r ∈ queue s) in Hin.
      change (settled_status (status_of s r)).
      pose proof (find_none_status s pending Hfind r Hin).
      pose proof (find_none_status s downloading Hfd r Hin).
      unfold settled_status. destruct (status_of s r); auto; contradiction.
Qed.

Lemma tidy_coll_head r i sc fc s :
  Inv s -> tidy s -> pc s = CollHead r i sc fc -> tidy (coll_head r i sc fc s).
Proof.
  intros [HS Hflag] (Ha & Hb & Hc) Hpc. rewrite Hpc in Ha, Hc, HS.
  cbn in Ha, Hc. pose proof (evolves_coll_head r i sc fc s) as He.
  pose proof (members_evolves _ _ r He (Sound_ref _ _ HS r eq_refl)) as Hm.
  revert He Hm. unfold coll_head.
  destruct (default [] (modIds (item s r)) !! i) as [modId|] eqn:Hl; intros He Hm.
  - split; [exact Ha|]. split; [intros [=]|].
    cbn [pc set_pc counters_ok]. rewrite Hm.
    apply lookup_lt_Some in Hl. fold (members s r) in Hl. lia.
  - split; [reflexivity|]. split; [intros [=]|exact Logic.I].
Qed.

Lemma tidy_step lbl s s' : Inv s -> tidy s -> step lbl s = Some s' -> tidy s'.
Proof.
  intros HInv Ht Hstep.
  destruct (is_call lbl) eqn:Hcall; [exact (tidy_api _ _ _ Hcall HInv Ht Hstep)|].
  destruct lbl; try discriminate Hcall.
  1: { cbn in Hstep. destruct (pc s) eqn:Hpc; try discriminate;
         injection Hstep as <-;
         [apply tidy_loop_head|apply tidy_coll_head]; assumption. }
  all: pose proof (step_evolves _ _ _ Hstep) as He;
    destruct HInv as [HS Hflag]; destruct Ht as (Ha & Hb & Hc);
    pose proof (counters_evolves s s' _ He (Sound_ref _ _ HS) Hc) as Hc';
    cbn in Hstep;
    destruct (pc s) eqn:Hpc; try discriminate;
    try destruct in_catch; try destruct success;
    injection Hstep as Hs';
    pose proof (f_equal pc Hs') as Hpc';
    pose proof (f_equal currentItem Hs') as Hcur';
    cbn [pc currentItem set_pc emit upd finish catch emit_update set_currentItem]
      in Hpc', Hcur';
    rewrite ?Hpc in Hpc';
    cbn in Ha;
    unfold tidy; rewrite <- Hpc', <- Hcur';
    (split; [first [exact Ha|reflexivity]|]);
    (split; [intros [=]|]);
    cbn [counters_ok] in Hc' |- *;
    first [exact Logic.I|lia].
Qed.

Lemma reachable_tidy s : reachable s -> tidy s.
Proof.
  induction 1 as [|lbl s s' Hs IH Hstep]; [exact tidy_init|].
  exact (tidy_step lbl s s' (reachable_Inv s Hs) IH Hstep).
Qed.

Lemma count_zero s st :
  (forall r, r ∈ queue s -> status_of s r <> st) -> count st s = 0%nat.
Proof.
  intros Hno. unfold count.
  destruct (filter _ (queue s)) as [|r t] eqn:Hf; [reflexivity|].
  assert (Hin : r ∈ filter (fun r => status_of s r = st) (queue s))
    by (rewrite Hf; left).
  apply list_elem_of_filter in Hin as [Hst Hin]. exfalso. exact (Hno r Hin Hst).
Qed.

Lemma idle_when_not_processing s :
  reachable s -> isProcessing s = false -> pc s = Idle.
Proof.
  intros Hreach Hp. destruct (reachable_Inv s Hreach) as [_ Hflag].
  rewrite Hp in Hflag. destruct (pc s); cbn in Hflag; congruence.
Qed.

(** *** Snapshots taken while the loop is not active *)

Lemma calm_frame s s' : events s' = events s -> calm s -> calm s'.
Proof. intros He Hc st. unfold snapshots. rewrite He. apply Hc. Qed.

Lemma calm_emit e s :
  match e with QueueUpdated st => quiet st | _ => True end ->
  calm s -> calm (emit e s).
Proof.
  intros He Hc st. rewrite snapshots_emit. intros Hin.
  apply elem_of_app in Hin as [Hin|Hin]; [exact (Hc st Hin)|].
  destruct e; try (inversion Hin; fail).
  apply list_elem_of_singleton in Hin as ->. exact He.
Qed.

Lemma calm_emit_update s : quiet (getQueueStatus s) -> calm s -> calm (emit_update s).
Proof. intros Hq. apply (calm_emit (QueueUpdated (getQueueStatus s))). exact Hq. Qed.

Lemma quiet_busy s : isProcessing s = true -> quiet (getQueueStatus s).
Proof. intros Hp Hf. cbn in Hf. congruence. Qed.

(** An idle queue from which items were taken away at most. *)
Lemma quiet_sub s q' :
  Inv s -> tidy s -> (forall r, r ∈ q' -> r ∈ queue s) ->
  quiet (getQueueStatus (set_queue q' s)).
Proof.
  intros [_ Hflag] (Hcur & Hsettled & _) Hsub Hp. cbn in Hp.
  assert (Hidle : pc s = Idle).
  { rewrite Hp in Hflag. destruct (pc s); cbn in Hflag; congruence. }
  specialize (Hsettled Hidle).
  cbn [getQueueStatus Snapshot.downloading Snapshot.currentItem Snapshot.pending
       currentItem set_queue].
  split; [|split].
  - apply count_zero. intros r Hin Hst. change (status_of s r = downloading) in Hst.
    destruct (Hsettled r (Hsub r Hin)); congruence.
  - rewrite Hcur, Hidle. reflexivity.
  - rewrite count_zero; [lia|]. intros r Hin Hst.
    change (status_of s r = pending) in Hst.
    destruct (Hsettled r (Hsub r Hin)); congruence.
Qed.

(** An idle queue that has just been given a new item. *)
Lemma quiet_push s it :
  status it = pending -> Inv s -> tidy s -> quiet (getQueueStatus (push it s)).
Proof.
  intros Hit [HS Hflag] (Hcur & Hsettled & _) Hp. cbn in Hp.
  assert (Hidle : pc s = Idle).
  { rewrite Hp in Hflag. destruct (pc s); cbn in Hflag; congruence. }
  specialize (Hsettled Hidle).
  assert (Hold : forall r, r ∈ queue s ->
            settled_status (status_of (push it s) r)).
  { intros r Hin. pose proof (Sound_fresh _ _ HS r Hin) as Hlt.
    unfold status_of. rewrite item_push. rewrite decide_False by lia.
    exact (Hsettled r Hin). }
  assert (Hnew : status_of (push it s) (next_ref s) = pending).
  { unfold status_of. rewrite item_push. rewrite decide_True by reflexivity.
    exact Hit. }
  cbn [getQueueStatus Snapshot.downloading Snapshot.currentItem Snapshot.pending
       currentItem push].
  split; [|split].
  - apply count_zero. cbn [queue push]. intros r Hin Hst.
    apply elem_of_app in Hin as [Hin|Hin].
    + destruct (Hold r Hin); congruence.
    + apply list_elem_of_singleton in Hin as ->. congruence.
  - rewrite Hcur, Hidle. reflexivity.
  - unfold count. apply (NoDup_all_equal _ (next_ref s)).
    + apply NoDup_filter. cbn [queue push]. apply NoDup_app.
      split; [exact (Sound_nodup _ _ HS)|]. split; [|apply NoDup_singleton].
      intros x Hx Hx'. apply list_elem_of_singleton in Hx'. subst.
      pose proof (Sound_fresh _ _ HS _ Hx). lia.
    + intros y Hy. apply list_elem_of_filter in Hy as [Hd Hin].
      cbn [queue push] in Hin. apply elem_of_app in Hin as [Hin|Hin].
      * destruct (Hold y Hin); congruence.
      * apply list_elem_of_singleton in Hin. exact Hin.
Qed.

Lemma calm_init : calm init.
Proof. intros st Hin. inversion Hin. Qed.

Ltac calm_peel Hp :=
  repeat first
    [ assumption
    | apply calm_emit_update;
        [apply quiet_busy; exact Hp|]
    | apply calm_emit; [exact Logic.I|]
    | match goal with
      | |- calm (finish ?x) => unfold finish
      | |- calm (catch ?r ?m ?x) => unfold catch
      | |- calm (exit_loop ?x) => unfold exit_loop
      | |- calm (set_pc ?l ?x) => apply (calm_frame x); [reflexivity|]
      | |- calm (set_currentItem ?l ?x) => apply (calm_frame x); [reflexivity|]
      | |- calm (set_isProcessing ?l ?x) => apply (calm_frame x); [reflexivity|]
      | |- calm (setServerPath ?l ?x) => apply (calm_frame x); [reflexivity|]
      | |- calm (set_queue ?l ?x) => apply (calm_frame x); [reflexivity|]
      | |- calm (upd ?r ?f ?x) => apply (calm_frame x); [reflexivity|]
      | |- calm (push ?it ?x) => apply (calm_frame x); [reflexivity|]
      end ].

Lemma busy_when_active s : Inv s -> pc s <> Idle -> isProcessing s = true.
Proof.
  intros [_ Hflag] Hne. rewrite Hflag. destruct (pc s); cbn; congruence.
Qed.

Lemma calm_enqueue it s s' :
  status it = pending -> Inv s -> tidy s -> calm s ->
  processQueue (emit_update (push it s)) = Some s' -> calm s'.
Proof.
  intros Hit HInv Ht Hc. unfold processQueue.
  cbn [isProcessing emit_update emit push pc].
  assert (Hc1 : calm (emit_update (push it s))).
  { apply calm_emit_update; [apply quiet_push; assumption|].
    apply (calm_frame s); [reflexivity|exact Hc]. }
  destruct (isProcessing s); [intros [= <-]; exact Hc1|].
  destruct (pc s); try discriminate. intros [= <-].
  apply (calm_frame (emit_update (push it s))); [reflexivity|exact Hc1].
Qed.

Lemma calm_api s s' lbl :
  is_call lbl = true -> Inv s -> tidy s -> calm s -> step lbl s = Some s' -> calm s'.
Proof.
  intros Hcall HInv Ht Hc Hstep. destruct lbl; try discriminate; cbn in Hstep;
    destruct (suspended (pc s)); try discriminate.
  - unfold addToQueue in Hstep.
    destruct (processQueue _) as [s1|] eqn:Hq; [|discriminate].
    cbn in Hstep. injection Hstep as <-.
    eapply calm_enqueue; [|exact HInv|exact Ht|exact Hc|exact Hq]; reflexivity.
  - unfold addCollectionToQueue in Hstep. destruct ids as [|i0 ids].
    + cbn in Hstep. injection Hstep as <-. exact Hc.
    + destruct (processQueue _) as [s1|] eqn:Hq; [|discriminate].
      cbn in Hstep. injection Hstep as <-.
      eapply calm_enqueue; [|exact HInv|exact Ht|exact Hc|exact Hq]; reflexivity.
  - injection Hstep as <-. unfold removeFromQueue.
    destruct (list_find _ _) as [[index r]|]; [|exact Hc].
    case_decide; [exact Hc|]. cbn [snd].
    apply calm_emit_update.
    + apply quiet_sub; [exact HInv|exact Ht|].
      intros r' Hin. eapply elem_of_sublist; [exact Hin|apply sublist_delete].
    + apply (calm_frame s); [reflexivity|exact Hc].
  - injection Hstep as <-. unfold clearCompleted. cbn [snd].
    case_decide; [|apply (calm_frame s); [reflexivity|exact Hc]].
    apply calm_emit_update.
    + apply quiet_sub; [exact HInv|exact Ht|].
      intros r' Hin. apply list_elem_of_filter in Hin. tauto.
    + apply (calm_frame s); [reflexivity|exact Hc].
  - injection Hstep as <-. unfold clearAll.
    destruct (isProcessing s); [exact Hc|]. cbn [snd].
    apply calm_emit_update.
    + apply quiet_sub; [exact HInv|exact Ht|]. intros r' Hin. inversion Hin.
    + apply (calm_frame s); [reflexivity|exact Hc].
  - injection Hstep as <-. apply (calm_frame s); [reflexivity|exact Hc].
Qed.

Lemma calm_step lbl s s' :
  Inv s -> tidy s -> calm s -> step lbl s = Some s' -> calm s'.
Proof.
  intros HInv Ht Hc Hstep.
  destruct (is_call lbl) eqn:Hcall; [exact (calm_api _ _ _ Hcall HInv Ht Hc Hstep)|].
  destruct lbl; try discriminate Hcall; cbn in Hstep;
    destruct (pc s) eqn:Hpc; try discriminate;
    (assert (Hp : isProcessing s = true)
       by (apply busy_when_active; [exact HInv|rewrite Hpc; discriminate]));
    try destruct in_catch; try destruct success;
    injection Hstep as <-;
    unfold loop_head, coll_head; repeat case_match; cbn zeta;
    calm_peel Hp.
Qed.

Lemma reachable_calm s : reachable s -> calm s.
Proof.
  induction 1 as [|lbl s s' Hs IH Hstep]; [exact calm_init|].
  exact (calm_step lbl s s' (reachable_Inv s Hs) (reachable_tidy s Hs) IH Hstep).
Qed.

(** X16. Two kinds of status snapshots exist.  The one [getQueueStatus]
    returns to a caller from outside is taken between two steps of the
    queue: when it says that the queue is not processing, nothing is left
    to do (no item pending or downloading, no current item, every item
    completed or failed).  The ones the queue sends with 'queue-updated'
    are taken inside its methods: one that says "not processing" shows no
    download and no current item, but it can show one pending item, since
    [addToQueue] and [addCollectionToQueue] send it before the loop is
    started. *)
Theorem idle_queue_is_drained s :
  reachable s ->
  (Snapshot.isProcessing (getQueueStatus s) = false ->
     Snapshot.pending (getQueueStatus s) = 0%nat
     /\ Snapshot.downloading (getQueueStatus s) = 0%nat
     /\ Snapshot.currentItem (getQueueStatus s) = None
     /\ Snapshot.total (getQueueStatus s)
        = (Snapshot.completed (getQueueStatus s)
           + Snapshot.failed (getQueueStatus s))%nat
     /\ forall r, r ∈ queue s -> settled_status (status_of s r))
  /\ (forall st, st ∈ snapshots s -> Snapshot.isProcessing st = false ->
        Snapshot.downloading st = 0%nat /\ Snapshot.currentItem st = None
        /\ (Snapshot.pending st <= 1)%nat).
Proof.
  intros Hreach. split; [|exact (reachable_calm s Hreach)].
  intros Hp. cbn in Hp.
  pose proof (idle_when_not_processing s Hreach Hp) as Hidle.
  destruct (reachable_tidy s Hreach) as (Hcur & Hsettled & _).
  specialize (Hsettled Hidle).
  assert (Hpend : count pending s = 0%nat).
  { apply count_zero. intros r Hin Hst.
    destruct (Hsettled r Hin); congruence. }
  assert (Hdown : count downloading s = 0%nat).
  { apply count_zero. intros r Hin Hst.
    destruct (Hsettled r Hin); congruence. }
  split; [exact Hpend|]. split; [exact Hdown|]. split; [|split; [|exact Hsettled]].
  - cbn. rewrite Hcur, Hidle. reflexivity.
  - pose proof (proj1 (status_counts_total s)) as Htot. cbn in Htot |- *. lia.
Qed.

Lemma idle_queue_is_drained_witness :
  reachable one_mod_done
  /\ Snapshot.isProcessing (getQueueStatus one_mod_done) = false
  /\ Snapshot.total (getQueueStatus one_mod_done) = 1%nat
  /\ Snapshot.pending (getQueueStatus one_mod_done) = 0%nat
  /\ Snapshot.downloading (getQueueStatus one_mod_done) = 0%nat
  /\ Snapshot.currentItem (getQueueStatus one_mod_done) = None
  /\ (forall r, r ∈ queue one_mod_done -> settled_status (status_of one_mod_done r))
  /\ (forall st, st ∈ snapshots one_mod_done ->
        Snapshot.isProcessing st = false ->
        Snapshot.downloading st = 0%nat /\ Snapshot.currentItem st = None
        /\ (Snapshot.pending st <= 1)%nat).
Proof.
  assert (Hreach : reachable one_mod_done).
  { apply (run_reachable one_mod_run init); [apply reachable_init|].
    vm_compute. reflexivity. }
  assert (Hp : Snapshot.isProcessing (getQueueStatus one_mod_done) = false)
    by (vm_compute; reflexivity).
  destruct (idle_queue_is_drained one_mod_done Hreach) as [Hnow Hsent].
  destruct (Hnow Hp) as (H1 & H2 & H3 & _ & H5).
  split; [exact Hreach|]. split; [exact Hp|].
  split; [vm_compute; reflexivity|]. auto.
Defined.

(** The first snapshot of that run is the one [addToQueue] sends: it
    says "not processing" and shows the new item as pending. *)
Example snapshot_before_the_loop_starts :
  (fun st => (Snapshot.isProcessing st, Snapshot.pending st, Snapshot.total st))
    <$> head (snapshots one_mod_done)
  = Some (false, 1%nat, 1%nat).
Proof. vm_compute. reflexivity. Qed.

(** X17. An item of the queue that is 'downloading' is the one
    [currentItem] points to. *)
Theorem downloading_item_is_current s r :
  reachable s -> r ∈ queue s -> status_of s r = downloading ->
  currentItem s = Some r
  /\ Snapshot.currentItem (getQueueStatus s) = Some r
  /\ isProcessing s = true.
Proof.
  intros Hreach Hin Hst.
  destruct (reachable_Inv s Hreach) as [HS Hflag].
  destruct (reachable_tidy s Hreach) as (Hcur & _ & _).
  pose proof (Sound_down _ _ HS r Hin Hst) as Hfl.
  assert (Hc : currentItem s = Some r)
    by (rewrite Hcur; apply in_flight_pc_ref; exact Hfl).
  split; [exact Hc|]. split; [exact Hc|].
  rewrite Hflag. destruct (pc s); cbn in Hfl |- *; congruence.
Qed.

Lemma downloading_item_is_current_witness :
  reachable first_of_two_downloading
  /\ 0%nat ∈ queue first_of_two_downloading
  /\ status_of first_of_two_downloading 0 = downloading
  /\ currentItem first_of_two_downloading = Some 0%nat
  /\ Snapshot.currentItem (getQueueStatus first_of_two_downloading) = Some 0%nat
  /\ isProcessing first_of_two_downloading = true.
Proof.
  assert (Hreach : reachable first_of_two_downloading).
  { apply (run_reachable two_mods_run init); [apply reachable_init|].
    vm_compute. reflexivity. }
  assert (Hin : 0%nat ∈ queue first_of_two_downloading)
    by (vm_compute; left).
  assert (Hst : status_of first_of_two_downloading 0 = downloading)
    by (vm_compute; reflexivity).
  split; [exact Hreach|]. split; [exact Hin|]. split; [exact Hst|].
  exact (downloading_item_is_current first_of_two_downloading 0%nat Hreach Hin Hst).
Defined.

(** X18. At the [for] test of a collection the index is within the
    member list, neither counter exceeds the number of members tried, and
    every member tried was counted at least once. *)
Theorem member_counters_in_range s r i sc fc :
  reachable s -> pc s = CollHead r i sc fc ->
  (i <= members s r /\ sc <= i /\ fc <= i /\ i <= sc + fc)%nat
  /\ is_Some (modIds (item s r))
  /\ (0 < members s r)%nat.
Proof.
  intros Hreach Hpc.
  destruct (reachable_Inv s Hreach) as [HS _].
  destruct (reachable_tidy s Hreach) as (_ & _ & Hc).
  rewrite Hpc in Hc, HS. cbn in Hc. split; [exact Hc|].
  pose proof (Sound_coll _ _ HS r eq_refl) as Hsome. split; [exact Hsome|].
  destruct Hsome as [ms Hms].
  pose proof (Sound_modIds _ _ HS r ms Hms) as Hne.
  unfold members. rewrite Hms. cbn. destruct ms; [congruence|cbn; lia].
Qed.

Lemma member_counters_in_range_witness :
  reachable after_three_members
  /\ pc after_three_members = CollHead 0 3 2 1
  /\ (3 <= members after_three_members 0 /\ 2 <= 3 /\ 1 <= 3 /\ 3 <= 2 + 1)%nat
  /\ is_Some (modIds (item after_three_members 0))
  /\ (0 < members after_three_members 0)%nat.
Proof.
  assert (Hreach : reachable after_three_members).
  { apply (run_reachable three_member_run init); [apply reachable_init|].
    vm_compute. reflexivity. }
  assert (Hpc : pc after_three_members = CollHead 0 3 2 1)
    by (vm_compute; reflexivity).
  split; [exact Hreach|]. split; [exact Hpc|].
  exact (member_counters_in_range after_three_members 0 3 2 1 Hreach Hpc).
Defined.

Lemma find_Some_first {A} (f : A -> bool) (l : list A) (x : A) :
  find f l = Some x ->
  exists index, l !! index = Some x /\ f x = true
    /\ forall j y, (j < index)%nat -> l !! j = Some y -> f y = false.
Proof.
  induction l as [|a l IH]; [discriminate|]. cbn [find].
  destruct (f a) eqn:Hfa.
  - intros [= <-]. exists 0%nat. split; [reflexivity|]. split; [exact Hfa|].
    intros j y Hj. lia.
  - intros Hfind. destruct (IH Hfind) as (index & Hl & Hfx & Hbefore).
    exists (S index). split; [exact Hl|]. split; [exact Hfx|].
    intros [|j] y Hj Hy.
    + cbn in Hy. congruence.
    + cbn in Hy. apply (Hbefore j y); [lia|exact Hy].
Qed.

Lemma status_of_upd_ne r f s r' : r <> r' -> status_of (upd r f s) r' = status_of s r'.
Proof.
  intros Hne. unfold status_of. rewrite item_upd.
  case_decide; [congruence|reflexivity].
Qed.

(** X19. The [while] test takes the items in the order of the array:
    the only item whose status it changes is the first 'pending' one. *)
Theorem loop_takes_first_pending s s' r :
  pc s = Head -> step Tau s = Some s' ->
  r ∈ queue s -> status_of s' r <> status_of s r ->
  status_of s r = pending
  /\ exists index, queue s !! index = Some r
       /\ forall j r', (j < index)%nat -> queue s !! j = Some r' ->
            status_of s r' <> pending.
Proof.
  intros Hpc Hstep Hin Hchg. cbn in Hstep. rewrite Hpc in Hstep.
  injection Hstep as <-. unfold loop_head in Hchg.
  destruct (queue s) as [|q0 qs] eqn:Hq; [exfalso; apply Hchg; reflexivity|].
  rewrite <- Hq in *.
  destruct (find (fun r => bool_decide (status_of s r = pending)) (queue s))
    as [r0|] eqn:Hfind.
  - destruct (find_Some_first _ _ _ Hfind) as (index & Hl & Hf & Hbefore).
    apply bool_decide_eq_true in Hf.
    destruct (decide (r0 = r)) as [->|Hne].
    + split; [exact Hf|]. exists index. split; [exact Hl|].
      intros j r' Hj Hr'. specialize (Hbefore j r' Hj Hr').
      apply bool_decide_eq_false in Hbefore. exact Hbefore.
    + exfalso. apply Hchg. cbn [serverPath emit emit_update upd set_currentItem].
      destruct (falsy (serverPath s)).
      * unfold catch, finish. unfold status_of at 1. unfold item.
        cbn [heap set_pc emit_update emit set_currentItem upd].
        rewrite !lookup_total_insert_ne by exact Hne. reflexivity.
      * match goal with
        | |- status_of (match ?a with _ => _ end) _ = _ =>
            destruct a; [match goal with
                         | |- status_of (match ?b with _ => _ end) _ = _ =>
                             destruct b
                         end|]
        end;
        unfold status_of at 1; unfold item;
        cbn [heap set_pc emit_update emit set_currentItem upd];
        rewrite !lookup_total_insert_ne by exact Hne; reflexivity.
  - exfalso. apply Hchg.
    destruct (find (fun r => bool_decide (status_of s r = downloading)) (queue s));
      reflexivity.
Qed.

Lemma loop_takes_first_pending_witness :
  exists s',
    pc second_of_two_waiting = Head
    /\ step Tau second_of_two_waiting = Some s'
    /\ 1%nat ∈ queue second_of_two_waiting
    /\ status_of s' 1 <> status_of second_of_two_waiting 1
    /\ status_of second_of_two_waiting 1 = pending
    /\ exists index, queue second_of_two_waiting !! index = Some 1%nat
         /\ forall j r', (j < index)%nat ->
              queue second_of_two_waiting !! j = Some r' ->
              status_of second_of_two_waiting r' <> pending.
Proof.
  eexists.
  assert (Hpc : pc second_of_two_waiting = Head) by (vm_compute; reflexivity).
  split; [exact Hpc|]. split; [vm_compute; reflexivity|].
  assert (Hin : 1%nat ∈ queue second_of_two_waiting)
    by (vm_compute; right; left).
  split; [exact Hin|].
  split; [vm_compute; discriminate|].
  eapply (loop_takes_first_pending second_of_two_waiting _ 1%nat Hpc).
  - vm_compute. reflexivity.
  - exact Hin.
  - vm_compute. discriminate.
Defined.

(** X20. [clearAll] refuses exactly while the loop is active; when it
    goes through, the array is emptied, one snapshot of the empty queue is
    sent, and what it dropped was completed or failed: it never drops an
    item that waits or is being downloaded. *)
Theorem clearAll_outcome s :
  reachable s ->
  match clearAll s with
  | (inl e, s') => e = ProcessingActive /\ s' = s /\ pc s <> Idle
  | (inr _, s') =>
      pc s = Idle /\ queue s' = []
      /\ events s' = (events s ++ [QueueUpdated (getQueueStatus s')])%list
      /\ Snapshot.total (getQueueStatus s') = 0%nat
      /\ forall r, r ∈ queue s -> settled_status (status_of s r)
  end.
Proof.
  intros Hreach. unfold clearAll.
  destruct (reachable_Inv s Hreach) as [_ Hflag].
  destruct (isProcessing s) eqn:Hp.
  - split; [reflexivity|]. split; [reflexivity|].
    intros Hidle. rewrite Hidle in Hflag. discriminate.
  - pose proof (idle_when_not_processing s Hreach Hp) as Hidle.
    destruct (reachable_tidy s Hreach) as (_ & Hsettled & _).
    split; [exact Hidle|]. split; [reflexivity|]. split; [reflexivity|].
    split; [reflexivity|]. exact (Hsettled Hidle).
Qed.

Lemma clearAll_outcome_witness :
  reachable first_of_two_downloading
  /\ fst (clearAll first_of_two_downloading) = inl ProcessingActive
  /\ snd (clearAll first_of_two_downloading) = first_of_two_downloading.
Proof.
  assert (Hreach : reachable first_of_two_downloading).
  { apply (run_reachable two_mods_run init); [apply reachable_init|].
    vm_compute. reflexivity. }
  split; [exact Hreach|].
  pose proof (clearAll_outcome first_of_two_downloading Hreach) as H.
  destruct (clearAll first_of_two_downloading) as [[e|u] s'] eqn:Hc.
  - destruct H as (-> & -> & _). split; reflexivity.
  - exfalso. destruct H as (Hidle & _). vm_compute in Hidle. discriminate.
Defined.

Lemma find_None_all {A} (f : A -> bool) (l : list A) :
  (forall x, x ∈ l -> f x = false) -> find f l = None.
Proof.
  induction l as [|a l IH]; [reflexivity|]. intros Hall. cbn [find].
  rewrite (Hall a) by left. apply IH. intros x Hx. apply Hall. right. exact Hx.
Qed.

Lemma find_app_last {A} (f : A -> bool) (l : list A) (y : A) :
  (forall x, x ∈ l -> f x = false) -> f y = true -> find f (l ++ [y])%list = Some y.
Proof.
  induction l as [|a l IH]; intros Hall Hy.
  - cbn. rewrite Hy. reflexivity.
  - cbn [app find]. rewrite (Hall a) by left. apply IH; [|exact Hy].
    intros x Hx. apply Hall. right. exact Hx.
Qed.

Lemma loop_head_pick s r :
  find (fun r => bool_decide (status_of s r = pending)) (queue s) = Some r ->
  loop_head s =
    (let s1 := emit (ItemStarted r)
                 (emit_update (upd r (set_status downloading)
                                 (set_currentItem (Some r) s))) in
     if falsy (serverPath s1) then catch r "Server path not set" s1
     else match isCollection (item s1 r), modIds (item s1 r) with
          | true, Some _ => set_pc (CollHead r 0 0 0) s1
          | _, _ =>
              set_pc (SingleDownload r)
                (emit (CallDownloadMod (workshopId (item s1 r)) (serverPath s1)) s1)
          end).
Proof.
  intros Hfind. unfold loop_head.
  destruct (queue s) as [|q0 qs] eqn:Hq; [discriminate|].
  rewrite Hfind. reflexivity.
Qed.

Lemma loop_head_exit s :
  (forall r, r ∈ queue s -> settled_status (status_of s r)) ->
  loop_head s = exit_loop s.
Proof.
  intros Hall. unfold loop_head.
  destruct (queue s) as [|q0 qs] eqn:Hq; [reflexivity|]. rewrite <- Hq in *.
  rewrite !find_None_all; [reflexivity| |];
    intros r Hin; apply bool_decide_eq_false; intros Hst;
    destruct (Hall r Hin); congruence.
Qed.

(** *** Whole runs from an idle queue *)

Lemma idle_facts s :
  reachable s -> isProcessing s = false ->
  pc s = Idle /\ currentItem s = None
  /\ (forall r, r ∈ queue s -> (r < next_ref s)%nat /\ settled_status (status_of s r)).
Proof.
  intros Hreach Hp.
  pose proof (idle_when_not_processing s Hreach Hp) as Hidle.
  destruct (reachable_Inv s Hreach) as [HS _].
  destruct (reachable_tidy s Hreach) as (Hcur & Hsettled & _).
  split; [exact Hidle|]. split; [rewrite Hcur, Hidle; reflexivity|].
  intros r Hin. split; [exact (Sound_fresh _ _ HS r Hin)|exact (Hsettled Hidle r Hin)].
Qed.

Lemma step_add_idle new_id wid isColl nm s :
  pc s = Idle -> isProcessing s = false ->
  step (AddToQueue new_id wid isColl nm) s
  = Some (set_pc Head (set_isProcessing true
            (emit_update (push (new_item new_id wid isColl nm) s)))).
Proof.
  intros Hpc Hp. unfold step. rewrite Hpc. cbn [suspended].
  unfold addToQueue, processQueue. cbn [isProcessing emit_update emit push pc].
  rewrite Hp, Hpc. reflexivity.
Qed.

Lemma item_emit e s r : item (emit e s) r = item s r.
Proof. reflexivity. Qed.
Lemma item_emit_update s r : item (emit_update s) r = item s r.
Proof. reflexivity. Qed.
Lemma item_set_pc l s r : item (set_pc l s) r = item s r.
Proof. reflexivity. Qed.
Lemma item_set_isProcessing b s r : item (set_isProcessing b s) r = item s r.
Proof. reflexivity. Qed.
Lemma item_set_currentItem c s r : item (set_currentItem c s) r = item s r.
Proof. reflexivity. Qed.
Lemma item_finish s r : item (finish s) r = item s r.
Proof. reflexivity. Qed.
Lemma item_exit_loop s r : item (exit_loop s) r = item s r.
Proof. reflexivity. Qed.
Lemma item_upd_eq r f s : item (upd r f s) r = f (item s r).
Proof. rewrite item_upd. apply decide_True. reflexivity. Qed.
Lemma item_upd_ne r f s r' : r <> r' -> item (upd r f s) r' = item s r'.
Proof. intros Hne. rewrite item_upd. apply decide_False. exact Hne. Qed.
Lemma item_push_eq it s : item (push it s) (next_ref s) = it.
Proof. rewrite item_push. apply decide_True. reflexivity. Qed.
Lemma item_push_ne it s r : next_ref s <> r -> item (push it s) r = item s r.
Proof. intros Hne. rewrite item_push. apply decide_False. exact Hne. Qed.

Ltac items :=
  repeat first
    [ rewrite item_emit | rewrite item_emit_update | rewrite item_set_pc
    | rewrite item_set_isProcessing | rewrite item_set_currentItem
    | rewrite item_finish | rewrite item_exit_loop
    | rewrite item_upd_eq | rewrite item_push_eq
    | rewrite item_upd_ne by lia | rewrite item_push_ne by lia ].

Ltac fields :=
  cbn [id workshopId collectionId isCollection name modIds status progress error
       set_status set_progress set_error new_item].

Lemma loop_head_single s r :
  find (fun r => bool_decide (status_of s r = pending)) (queue s) = Some r ->
  falsy (serverPath s) = false -> modIds (item s r) = None ->
  loop_head s
  = set_pc (SingleDownload r)
      (emit (CallDownloadMod (workshopId (item s r)) (serverPath s))
         (emit (ItemStarted r)
            (emit_update (upd r (set_status downloading)
                            (set_currentItem (Some r) s))))).
Proof.
  intros Hfind Hsp Hm. rewrite (loop_head_pick s r Hfind). cbn zeta.
  change (serverPath (emit (ItemStarted r)
            (emit_update (upd r (set_status downloading)
                            (set_currentItem (Some r) s)))))
    with (serverPath s).
  rewrite Hsp. items. fields. rewrite Hm.
  destruct (isCollection (item s r)); reflexivity.
Qed.

Lemma loop_head_no_path s r :
  find (fun r => bool_decide (status_of s r = pending)) (queue s) = Some r ->
  falsy (serverPath s) = true ->
  loop_head s
  = catch r "Server path not set"
      (emit (ItemStarted r)
         (emit_update (upd r (set_status downloading)
                         (set_currentItem (Some r) s)))).
Proof.
  intros Hfind Hsp. rewrite (loop_head_pick s r Hfind). cbn zeta.
  change (serverPath (emit (ItemStarted r)
            (emit_update (upd r (set_status downloading)
                            (set_currentItem (Some r) s)))))
    with (serverPath s).
  rewrite Hsp. reflexivity.
Qed.

Lemma first_pending_is_new it s :
  status it = pending ->
  (forall r, r ∈ queue s -> (r < next_ref s)%nat /\ settled_status (status_of s r)) ->
  find (fun r => bool_decide
                   (status_of (set_pc Head (set_isProcessing true
                                 (emit_update (push it s)))) r = pending))
       (queue s ++ [next_ref s])%list
  = Some (next_ref s).
Proof.
  intros Hit Hq. apply find_app_last.
  - intros r Hin. destruct (Hq r Hin) as [Hlt Hset].
    apply bool_decide_eq_false. unfold status_of in *. items.
    destruct Hset as [H|H]; rewrite H; discriminate.
  - apply bool_decide_eq_true. unfold status_of. items. exact Hit.
Qed.

Lemma run_cons (lbl : Label) (ls : list Label) s s' :
  step lbl s = Some s' -> run (lbl :: ls) s = run ls s'.
Proof. intros H. cbn [run]. rewrite H. reflexivity. Qed.

Lemma step_tau_head s : pc s = Head -> step Tau s = Some (loop_head s).
Proof. intros Hpc. cbn [step]. rewrite Hpc. reflexivity. Qed.

Lemma step_download_ok s r :
  pc s = SingleDownload r ->
  step (DownloadReturned true None) s
  = Some (set_pc (SingleDetails r)
            (emit (CallGetModDetails (workshopId (item s r)))
               (upd r (fun it => set_status completed (set_progress 100 it)) s))).
Proof.
  intros Hpc. cbn [step]. rewrite Hpc. cbn zeta. rewrite item_upd_eq.
  reflexivity.
Qed.

Lemma step_details_ok s r nm :
  pc s = SingleDetails r ->
  step (DetailsReturned nm) s
  = Some (set_pc (SingleAddMod r false)
            (emit (call_addMod (workshopId (item s r)) nm) s)).
Proof. intros Hpc. cbn [step]. rewrite Hpc. reflexivity. Qed.

Lemma step_addmod_ok s r b :
  pc s = SingleAddMod r b ->
  step AddModReturned s = Some (finish (emit (ItemCompleted r) s)).
Proof. intros Hpc. cbn [step]. rewrite Hpc. reflexivity. Qed.

Lemma good_download_run new_id wid isColl nm dname s :
  reachable s -> isProcessing s = false -> falsy (serverPath s) = false ->
  run (good_download new_id wid isColl nm dname) s
  = Some (exit_loop (finish (emit (ItemCompleted (next_ref s))
      (set_pc (SingleAddMod (next_ref s) false)
         (emit (call_addMod (Some wid) dname)
            (set_pc (SingleDetails (next_ref s))
               (emit (CallGetModDetails (Some wid))
                  (upd (next_ref s)
                     (fun it => set_status completed (set_progress 100 it))
                     (set_pc (SingleDownload (next_ref s))
                        (emit (CallDownloadMod (Some wid) (serverPath s))
                           (emit (ItemStarted (next_ref s))
                              (emit_update
                                 (upd (next_ref s) (set_status downloading)
                                    (set_currentItem (Some (next_ref s))
                                       (set_pc Head (set_isProcessing true
                                          (emit_update
                                             (push (new_item new_id wid isColl nm)
                                                   s)))))))))))))))))).
Proof.
  intros Hreach Hp Hsp.
  destruct (idle_facts s Hreach Hp) as (Hidle & Hcur & Hq).
  unfold good_download.
  rewrite (run_cons _ _ _ _ (step_add_idle new_id wid isColl nm s Hidle Hp)).
  erewrite run_cons by (apply step_tau_head; reflexivity).
  rewrite (loop_head_single _ (next_ref s));
    [|apply first_pending_is_new; [reflexivity|exact Hq]|exact Hsp
     |items; reflexivity].
  erewrite run_cons by (apply step_download_ok; reflexivity).
  erewrite run_cons by (apply step_details_ok; reflexivity).
  erewrite run_cons by (eapply step_addmod_ok; reflexivity).
  erewrite run_cons by (apply step_tau_head; reflexivity).
  cbn [run]. items. fields. f_equal. apply loop_head_exit.
  intros r Hin.
  apply (elem_of_app (queue s) [next_ref s] r) in Hin. destruct Hin as [Hin|Hin].
  - destruct (Hq r Hin) as [Hlt Hset]. unfold status_of in *. items. exact Hset.
  - apply list_elem_of_singleton in Hin as ->. unfold status_of. items. fields.
    left. reflexivity.
Qed.

(** X21. From an idle queue with a server path, a mod that is queued,
    downloads and is written to the configuration ends 'completed' at
    100 % without an error; the queue is idle again, and the events sent
    on the way are exactly the listed ones, in this order. *)
Theorem good_download_completes new_id wid isColl nm dname s :
  reachable s -> isProcessing s = false -> falsy (serverPath s) = false ->
  exists s' st1 st2 st3,
    run (good_download new_id wid isColl nm dname) s = Some s'
    /\ queue s' = (queue s ++ [next_ref s])%list
    /\ id (item s' (next_ref s)) = new_id
    /\ status_of s' (next_ref s) = completed
    /\ progress (item s' (next_ref s)) = 100
    /\ error (item s' (next_ref s)) = None
    /\ isProcessing s' = false
    /\ currentItem s' = None
    /\ events s'
       = (events s ++
          [QueueUpdated st1; QueueUpdated st2; ItemStarted (next_ref s);
           CallDownloadMod (Some wid) (serverPath s);
           CallGetModDetails (Some wid);
           CallAddMod (Some wid) (or_else dname ("Mod " +:+ wid));
           ItemCompleted (next_ref s); QueueUpdated st3; QueueCompleted])%list.
Proof.
  intros Hreach Hp Hsp.
  eexists. do 3 eexists.
  split; [exact (good_download_run new_id wid isColl nm dname s Hreach Hp Hsp)|].
  split; [reflexivity|].
  unfold status_of. items. fields.
  do 6 (split; [reflexivity|]).
  cbn [events exit_loop finish emit_update emit set_pc set_isProcessing
       set_currentItem upd push].
  rewrite <- !app_assoc. reflexivity.
Qed.

Lemma good_download_completes_witness :
  reachable (setServerPath (Some "/srv/dayz") init)
  /\ exists s' st1 st2 st3,
    run (good_download 1 "111" false None (Some "Name"))
        (setServerPath (Some "/srv/dayz") init) = Some s'
    /\ queue s' = [0%nat]
    /\ id (item s' 0) = 1
    /\ status_of s' 0 = completed
    /\ progress (item s' 0) = 100
    /\ error (item s' 0) = None
    /\ isProcessing s' = false
    /\ currentItem s' = None
    /\ events s'
       = [QueueUpdated st1; QueueUpdated st2; ItemStarted 0;
          CallDownloadMod (Some "111") (Some "/srv/dayz");
          CallGetModDetails (Some "111");
          CallAddMod (Some "111") "Name";
          ItemCompleted 0; QueueUpdated st3; QueueCompleted].
Proof.
  assert (Hreach : reachable (setServerPath (Some "/srv/dayz") init)).
  { apply (reachable_step (SetServerPath (Some "/srv/dayz")) init);
      [apply reachable_init|reflexivity]. }
  split; [exact Hreach|].
  exact (good_download_completes 1 "111" false None (Some "Name")
           (setServerPath (Some "/srv/dayz") init) Hreach eq_refl eq_refl).
Defined.

Lemma no_path_run new_id wid isColl nm s :
  reachable s -> isProcessing s = false -> falsy (serverPath s) = true ->
  run (no_path_download new_id wid isColl nm) s
  = Some (exit_loop (catch (next_ref s) "Server path not set"
      (emit (ItemStarted (next_ref s))
         (emit_update
            (upd (next_ref s) (set_status downloading)
               (set_currentItem (Some (next_ref s))
                  (set_pc Head (set_isProcessing true
                     (emit_update
                        (push (new_item new_id wid isColl nm) s)))))))))).
Proof.
  intros Hreach Hp Hsp.
  destruct (idle_facts s Hreach Hp) as (Hidle & Hcur & Hq).
  unfold no_path_download.
  rewrite (run_cons _ _ _ _ (step_add_idle new_id wid isColl nm s Hidle Hp)).
  erewrite run_cons by (apply step_tau_head; reflexivity).
  rewrite (loop_head_no_path _ (next_ref s));
    [|apply first_pending_is_new; [reflexivity|exact Hq]|exact Hsp].
  erewrite run_cons by (apply step_tau_head; reflexivity).
  cbn [run]. f_equal. apply loop_head_exit.
  intros r Hin.
  apply (elem_of_app (queue s) [next_ref s] r) in Hin. destruct Hin as [Hin|Hin].
  - destruct (Hq r Hin) as [Hlt Hset]. unfold status_of in *. unfold catch.
    items. exact Hset.
  - apply list_elem_of_singleton in Hin as ->. unfold status_of, catch. items.
    fields. right. reflexivity.
Qed.

(** X22. From an idle queue without a server path, a queued mod fails
    at once with 'Server path not set': no download is asked for, the
    item keeps progress 0, and the queue is idle again. *)
Theorem no_server_path_fails_item new_id wid isColl nm s :
  reachable s -> isProcessing s = false -> falsy (serverPath s) = true ->
  exists s' st1 st2 st3,
    run (no_path_download new_id wid isColl nm) s = Some s'
    /\ queue s' = (queue s ++ [next_ref s])%list
    /\ status_of s' (next_ref s) = failed
    /\ error (item s' (next_ref s)) = Some "Server path not set"
    /\ progress (item s' (next_ref s)) = 0
    /\ isProcessing s' = false
    /\ currentItem s' = None
    /\ events s'
       = (events s ++
          [QueueUpdated st1; QueueUpdated st2; ItemStarted (next_ref s);
           ItemFailed (next_ref s); QueueUpdated st3; QueueCompleted])%list.
Proof.
  intros Hreach Hp Hsp.
  eexists. do 3 eexists.
  split; [exact (no_path_run new_id wid isColl nm s Hreach Hp Hsp)|].
  split; [reflexivity|].
  unfold status_of, catch. items. fields.
  do 5 (split; [reflexivity|]).
  cbn [events exit_loop finish emit_update emit set_pc set_isProcessing
       set_currentItem upd push].
  rewrite <- !app_assoc. reflexivity.
Qed.

Lemma no_server_path_fails_item_witness :
  reachable init
  /\ exists s' st1 st2 st3,
    run (no_path_download 1 "111" false None) init = Some s'
    /\ queue s' = [0%nat]
    /\ status_of s' 0 = failed
    /\ error (item s' 0) = Some "Server path not set"
    /\ progress (item s' 0) = 0
    /\ isProcessing s' = false
    /\ currentItem s' = None
    /\ events s'
       = [QueueUpdated st1; QueueUpdated st2; ItemStarted 0;
          ItemFailed 0; QueueUpdated st3; QueueCompleted].
Proof.
  split; [apply reachable_init|].
  exact (no_server_path_fails_item 1 "111" false None init
           reachable_init eq_refl eq_refl).
Defined.

(** *** The final status of a collection *)

(** X23. When the loop reaches the end of a collection's member list
    with the counters [sc] ([successCount]) and [fc] ([failCount]), the
    index is the number of members and [fc] is at most that number; the
    next step settles the item: 'completed' with its error untouched if
    [fc = 0], 'failed' if [fc] is the number of members, 'completed'
    otherwise; whenever [fc] is not 0 the error becomes
    "[sc] succeeded, [fc] failed"; progress is 100, [currentItem] is
    cleared and the loop is back at the [while] test.  (Nothing here says
    that [sc + fc] is the number of members: it need not be.) *)
Theorem collection_terminal_status s r i sc fc s' :
  reachable s ->
  pc s = CollHead r i sc fc ->
  (members s r <= i)%nat ->
  step Tau s = Some s' ->
  i = members s r
  /\ (fc <= members s r)%nat
  /\ (fc = 0%nat ->
        status_of s' r = completed /\ error (item s' r) = error (item s r))
  /\ (fc = members s r -> status_of s' r = failed)
  /\ ((0 < fc < members s r)%nat -> status_of s' r = completed)
  /\ ((0 < fc)%nat ->
        error (item s' r)
        = Some (pretty sc +:+ " succeeded, " +:+ pretty fc +:+ " failed"))
  /\ progress (item s' r) = 100
  /\ currentItem s' = None
  /\ pc s' = Head.
Proof.
  intros Hreach Hpc Hlen Hstep.
  destruct (reachable_Inv s Hreach) as [HI _]. rewrite Hpc in HI.
  destruct (reachable_tidy s Hreach) as (_ & _ & Hc). rewrite Hpc in Hc.
  cbn [counters_ok] in Hc. destruct Hc as (Hi & Hsc & Hfc & Hsum).
  destruct (Sound_coll _ _ HI r eq_refl) as [ms Hms].
  pose proof (Sound_modIds _ _ HI r ms Hms) as Hne.
  unfold members in *.
  cbn in Hstep. rewrite Hpc in Hstep. injection Hstep as <-.
  unfold coll_head. rewrite Hms in *. cbn [from_option Datatypes.id] in *.
  rewrite (lookup_ge_None_2 ms i Hlen).
  assert (Hit : item (finish (emit (ItemCompleted r)
                        (upd r (settle_collection (length ms) sc fc) s))) r
                = settle_collection (length ms) sc fc (item s r)).
  { unfold item at 1. cbn [heap finish set_pc emit_update emit set_currentItem upd].
    rewrite lookup_total_insert_eq. reflexivity. }
  unfold status_of. rewrite Hit. unfold settle_collection.
  assert (Hpos : (0 < length ms)%nat) by (destruct ms; [congruence|cbn; lia]).
  split; [lia|]. split; [lia|].
  split; [|split; [|split; [|split; [|split; [|split]]]]].
  - intros ->. rewrite decide_True by reflexivity. split; reflexivity.
  - intros ->. rewrite decide_False by lia. rewrite decide_True by reflexivity.
    reflexivity.
  - intros [Hsome Hnotall]. rewrite !decide_False by lia. reflexivity.
  - intros Hsome. rewrite decide_False by lia. reflexivity.
  - case_decide; reflexivity.
  - reflexivity.
  - reflexivity.
Qed.

Lemma collection_terminal_status_witness :
  reachable after_three_members
  /\ pc after_three_members = CollHead 0 3 2 1
  /\ (members after_three_members 0 <= 3)%nat
  /\ step Tau after_three_members = Some three_members_settled
  /\ status_of three_members_settled 0 = completed
  /\ error (item three_members_settled 0)
     = Some (pretty 2%nat +:+ " succeeded, " +:+ pretty 1%nat +:+ " failed").
Proof.
  assert (Hreach : reachable after_three_members).
  { apply (run_reachable three_member_run init); [apply reachable_init|].
    vm_compute. reflexivity. }
  assert (Hpc : pc after_three_members = CollHead 0 3 2 1)
    by (vm_compute; reflexivity).
  assert (Hlen : (members after_three_members 0 <= 3)%nat)
    by (vm_compute; lia).
  assert (Hstep : step Tau after_three_members = Some three_members_settled)
    by (vm_compute; reflexivity).
  destruct (collection_terminal_status after_three_members 0 3 2 1
              three_members_settled Hreach Hpc Hlen Hstep)
    as (_ & _ & _ & _ & Hmid & Herr & _).
  split; [exact Hreach|]. split; [exact Hpc|]. split; [exact Hlen|].
  split; [exact Hstep|]. split.
  - apply Hmid. vm_compute. lia.
  - apply Herr. lia.
Defined.

End ModQueue_more.
